(** * probcoll: the DAgger-style training-iteration engine

    A shallow embedding of
    - [general/algorithms/dagger_prediction.py] (class [DaggerPrediction]:
      the resume resolver and training loop [run], the iteration driver
      [_run_itr], the persistence helpers and [_create_control_noise]),
    - [robots/rccar/algorithm/probcoll_rccar.py] (class [ProbcollRCcar]:
      the quality gate [_is_good_rollout] and its polling wait
      [_ros_is_good_rollout], [_update_world], [_itr_save_worlds]),
    - [robots/rccar/dynamics/dynamics_rccar.py] ([DynamicsRCcar.evolve]),
    - [robots/bebop2d/policy/primitives_mpc_policy_bebop2d.py] (the
      primitive policy's [act] and the methods of
      [PrimitivesMPCPolicyBebop2d]),
    and of the names of the files the save methods build.

    Python integers are [Z].  The run directory is a finite map from file
    names to contents.  The collaborators the engine calls (world, agent,
    dynamics, conditions provider, controller, quality gate) are fields of a
    class; their mutable state is one abstract environment that every call
    threads.  The engine itself runs in a state-and-exception monad whose
    state also holds a chronological trace of the logger lines and of the
    calls made, so that the order of the calls can be stated. *)

From stdpp Require Import base option list gmap strings pretty.
From Stdlib Require Import ZArith Lia Ascii.

#[local] Open Scope Z_scope.

(* ===================================================================== *)
(** * Python helpers *)
(* ===================================================================== *)

(** [xrange(lo, hi)]: lo, lo+1, ..., hi-1. *)
Definition xrange2 (lo hi : Z) : list Z :=
  (λ k : nat, lo + Z.of_nat k) <$> seq 0 (Z.to_nat (hi - lo)).

(** [xrange(n)]. *)
Definition xrange (n : Z) : list Z := xrange2 0 n.

(** [xrange(start, stop, -1)]: start, start-1, ..., stop+1. *)
Definition xrange_down (start stop : Z) : list Z :=
  (λ k : nat, start - Z.of_nat k) <$> seq 0 (Z.to_nat (start - stop)).

(** Indexing a sequence of length [len] by a Python integer: negative
    indices count from the end, anything outside [-len, len) is an
    [IndexError] (here [None]). *)
Definition py_index (len : nat) (t : Z) : option nat :=
  if (0 <=? t) && (t <? Z.of_nat len) then Some (Z.to_nat t)
  else if (- Z.of_nat len <=? t) && (t <? 0) then Some (Z.to_nat (t + Z.of_nat len))
  else None.

(** The bound of a slice, clamped as Python does. *)
Definition py_slice_bound (len : nat) (i : Z) : nat :=
  if i <? 0 then Z.to_nat (Z.max 0 (i + Z.of_nat len))
  else Z.to_nat (Z.min i (Z.of_nat len)).

(** [l[lo:hi]]. *)
Definition py_slice {A} (lo hi : Z) (l : list A) : list A :=
  let a := py_slice_bound (length l) lo in
  let b := py_slice_bound (length l) hi in
  take (b - a)%nat (drop a l).

(** Truthiness of a value that is [None], [True] or [False]. *)
Definition truthy (v : option bool) : bool :=
  match v with Some b => b | None => false end.

(** [str.lower()] on ASCII. *)
Definition lower_ascii (c : ascii) : ascii :=
  let n := nat_of_ascii c in
  if (65 <=? n)%nat && (n <=? 90)%nat then ascii_of_nat (n + 32) else c.

Fixpoint lower (s : string) : string :=
  match s with
  | EmptyString => EmptyString
  | String c s' => String (lower_ascii c) (lower s')
  end.

(** [sub in s] for strings. *)
Fixpoint str_in (sub s : string) : bool :=
  String.prefix sub s ||
  match s with
  | EmptyString => false
  | String _ s' => str_in sub s'
  end.

(** Exceptions the engine itself can raise. *)
Inductive exn :=
  | AssertionError
  | NameError           (* a loop variable read after a loop that never ran *)
  | IndexError
  | Exception_ (msg : string).

(* ===================================================================== *)
(** * Files of a run directory *)
(* ===================================================================== *)

(** The file names built by [_itr_model_file], [_itr_samples_file],
    [_itr_stats_file], [_itr_save_worlds], [_itr_save_mpcs] under
    [<save_dir>/itr<itr>/], and the files of the init-data folder. *)
Inductive path :=
  | model_file (itr : Z)      (* itr<i>/model_itr_<i>.ckpt *)
  | samples_file (itr : Z)    (* itr<i>/samples_itr_<i>.npz *)
  | stats_file (itr : Z)      (* itr<i>/stats_itr_<i>.pkl *)
  | worlds_file (itr : Z)     (* itr<i>/worlds_itr_<i>.pkl *)
  | mpcs_file (itr : Z)       (* itr<i>/mpcs_itr_<i>.pkl *)
  | init_file (folder fname : string).

#[global] Instance path_eq_dec : EqDecision path.
Proof. solve_decision. Defined.

Definition path_code (p : path) : Z + Z + Z + Z + Z + string * string :=
  match p with
  | model_file i => inl (inl (inl (inl (inl i))))
  | samples_file i => inl (inl (inl (inl (inr i))))
  | stats_file i => inl (inl (inl (inr i)))
  | worlds_file i => inl (inl (inr i))
  | mpcs_file i => inl (inr i)
  | init_file d f => inr (d, f)
  end.

Definition path_decode (c : Z + Z + Z + Z + Z + string * string) : path :=
  match c with
  | inl (inl (inl (inl (inl i)))) => model_file i
  | inl (inl (inl (inl (inr i)))) => samples_file i
  | inl (inl (inl (inr i))) => stats_file i
  | inl (inl (inr i)) => worlds_file i
  | inl (inr i) => mpcs_file i
  | inr (d, f) => init_file d f
  end.

#[global] Instance path_countable : Countable path :=
  inj_countable' path_code path_decode
    (λ p, match p with
          | model_file _ | samples_file _ | stats_file _
          | worlds_file _ | mpcs_file _ | init_file _ _ => eq_refl
          end).

(** The planner kinds [__init__] asserts [planner_type] to be one of. *)
Inductive planner :=
  | primitives | cem | ilqr | randomwalk | randomcontrolset
  | teleop | straight | lattice.

#[global] Instance planner_eq_dec : EqDecision planner.
Proof. solve_decision. Defined.

(** The noise classes imported from [rll_quadrotor.policy.noise_models]. *)
Inductive noise_class :=
  | ZeroNoise | GaussianNoise | UniformNoise | OUNoise | SmoothedGaussianNoise.

(** The value bound to [control_noise] in [_run_itr]: the code tests it with
    [control_noise is False], so it is either [False] or a noise object. *)
Inductive pynoise :=
  | PyFalse
  | NoiseObj (cls : noise_class).

Definition is_False (n : pynoise) : bool :=
  match n with PyFalse => true | NoiseObj _ => false end.

(** A [std_msgs.msg.Empty] message. *)
Inductive Empty_msg := EmptyMsg.

(** Truthiness of what a callback's [get()] returns: a message or [None]. *)
Definition msg_truthy (m : option Empty_msg) : bool :=
  match m with Some _ => true | None => false end.

(* ===================================================================== *)
(** * Data model *)
(* ===================================================================== *)

Section DataModel.
(** State, control and observation values, world and controller
    metadata, controller objects, and the mutable state of all the
    collaborators. *)
Context {X U Obs WInfo MInfo Policy Env : Type}.

(** Modelled from the spec: the class [Sample] ([state_info/sample.py]) is
    not among the sources.  A Trajectory Sample is "an ordered sequence of
    per-timestep records, each holding state, observation, and
    control-action"; it is built for a horizon [T], written by
    [set_X]/[set_U]/[set_O] at a timestep, read by [get_X], cut by
    [match(slice(lo, hi))] and tested by [isfinite]. *)
Record Sample := mkSample { sX : list X; sU : list U; sO : list Obs }.

(** What a file of the run directory holds. *)
Inductive content :=
  | Samples (l : list Sample)
  | Worlds (l : list WInfo)
  | Mpcs (l : list MInfo)
  | Blob.

(** The run directory: its files and its [itr<i>] directories. *)
Record Store := mkStore { files : gmap path content; dirs : gset Z }.

(** Lines given to the logger. *)
Inductive logmsg :=
  | MsgLoadingModel (f : path)
  | MsgAddingInitialData
  | MsgFname (fname : string)
  | MsgBlank
  | MsgItr (itr : Z)
  | MsgItrFlying (itr : Z)
  | MsgItrAddingData (itr : Z)
  | MsgItrTraining (itr : Z)
  | MsgStarting (cond rep : Z)
  | MsgT (t : Z)
  | MsgCrashed (t : Z)
  | MsgLasted (t : Z)
  | MsgNotGood
  | MsgFinished (cond rep : Z)
  | MsgPressAorB
  | MsgIsGoodRollout.

(** The trace: logger lines and the calls the engine makes, each call
    with its arguments and, where it returns one, its result. *)
Inductive event :=
  | Info (m : logmsg)
  | Warning (m : logmsg)
  (* bootstrap: the model and dataset aggregator *)
  | Load (f : path)
  | AddData (fs : list path)
  | Train (old : option path) (new : path) (eps : Z)
  | Save (f : path)
  (* the run directory, with the store as it is after the call *)
  | Makedirs (itr : Z) (after : Store)
  | Write (f : path) (after : Store)
  (* conditions, world, controller, agent, dynamics *)
  | ConditionsReset
  | ResetWorld (itr cond rep : Z)
  | GetCond (cond rep : Z) (x : X)
  | CreateMpc (itr : Z) (x : X) (p : Policy)
  | UpdateWorld (t : Z)
  | SamplePolicy (t : Z) (x : X) (noise : pynoise) (u : U) (o : Obs)
  | IsCollision (t : Z) (hit : bool)
  | Evolve (t : Z) (x : X) (u : U) (x' : X)
  | UpdateVisualization (t : Z)
  | GetWorldInfo (w : WInfo)
  | GetInfo (m : MInfo)
  | IsGoodRollout (s : Sample) (t : Z) (v : option bool)
  (* the sample under construction *)
  | SetX (t : Z) (x : X)
  | SetU (t : Z) (u : U)
  | SetO (t : Z) (o : Obs)
  | IsFinite (s : Sample) (b : bool)
  (* ROS and the car *)
  | IsShutdown (down : bool)
  | GoodRolloutGet (m : option Empty_msg)
  | BadRolloutGet (m : option Empty_msg)
  | Sleep (ms : Z)
  | ExecuteControl_None
  | WorldReset (back_up : bool) (itr cond rep : Z).

Record State := mkState { env : Env; store : Store; trace : list event }.

(** How a computation ends: normally, by an exception, or because the
    model's fuel for an unbounded loop ran out. *)
Inductive outcome (A : Type) :=
  | Ok (a : A) (st : State)
  | Raise (e : exn) (st : State)
  | OutOfFuel (st : State).
#[global] Arguments Ok {A} a st.
#[global] Arguments Raise {A} e st.
#[global] Arguments OutOfFuel {A} st.

Definition M (A : Type) : Type := State → outcome A.

#[global] Instance M_ret : MRet M := λ A a st, Ok a st.

#[global] Instance M_bind : MBind M := λ A B k m st,
  match m st with
  | Ok a st' => k a st'
  | Raise e st' => Raise e st'
  | OutOfFuel st' => OutOfFuel st'
  end.

#[global] Instance M_fmap : FMap M := λ A B f m, m ≫= (λ a, mret (f a)).

Definition raise {A} (e : exn) : M A := λ st, Raise e st.
Definition out_of_fuel {A} : M A := λ st, OutOfFuel st.

(** Append an event to the trace. *)
Definition emit (e : event) : M unit := λ st,
  Ok tt (mkState (env st) (store st) (trace st ++ [e])).

(** Call a collaborator: it reads and updates the environment. *)
Definition call {A} (f : Env → A * Env) : M A := λ st,
  let '(a, e') := f (env st) in Ok a (mkState e' (store st) (trace st)).
Definition call_ (f : Env → Env) : M unit := λ st,
  Ok tt (mkState (f (env st)) (store st) (trace st)).
Definition reads {A} (f : Env → A) : M A := λ st, Ok (f (env st)) st.

Definition get_store : M Store := λ st, Ok (store st) st.
Definition put_store (s : Store) : M unit := λ st,
  Ok tt (mkState (env st) s (trace st)).

(** [assert b]. *)
Definition assert_ (b : bool) : M unit :=
  if b then mret tt else raise AssertionError.

(** Reading a loop variable after its loop: unbound if the loop never
    ran. *)
Definition read_var (v : option Z) : M Z :=
  match v with Some z => mret z | None => raise NameError end.

(** An operation of [Sample] that fails on a bad index. *)
Definition or_IndexError {A} (r : option A) : M A :=
  match r with Some a => mret a | None => raise IndexError end.

(** The state an outcome ends in. *)
Definition final {A} (r : outcome A) : State :=
  match r with Ok _ st | Raise _ st | OutOfFuel st => st end.

(** Blank and finite values of the three per-timestep fields. *)
Class Values := {
  blank_X : X; blank_U : U; blank_O : Obs;
  finite_X : X → bool; finite_U : U → bool; finite_O : Obs → bool
}.

Section SampleOps.
Context `{V : Values}.

(** [Sample(meta_data=params, T=T)]: [T] blank records. *)
Definition Sample_new (T : Z) : Sample :=
  mkSample (replicate (Z.to_nat T) blank_X)
           (replicate (Z.to_nat T) blank_U)
           (replicate (Z.to_nat T) blank_O).

Definition set_X (x : X) (t : Z) (s : Sample) : option Sample :=
  i ← py_index (length (sX s)) t; Some (mkSample (<[i:=x]> (sX s)) (sU s) (sO s)).
Definition set_U (u : U) (t : Z) (s : Sample) : option Sample :=
  i ← py_index (length (sU s)) t; Some (mkSample (sX s) (<[i:=u]> (sU s)) (sO s)).
Definition set_O (o : Obs) (t : Z) (s : Sample) : option Sample :=
  i ← py_index (length (sO s)) t; Some (mkSample (sX s) (sU s) (<[i:=o]> (sO s))).
Definition get_X (t : Z) (s : Sample) : option X :=
  i ← py_index (length (sX s)) t; sX s !! i.

(** [sample.match(slice(lo, hi))]. *)
Definition Sample_match (lo hi : Z) (s : Sample) : Sample :=
  mkSample (py_slice lo hi (sX s)) (py_slice lo hi (sU s)) (py_slice lo hi (sO s)).

(** The number of timesteps of a sample. *)
Definition Sample_T (s : Sample) : nat := length (sX s).

(** [sample.isfinite()]: every recorded value is finite. *)
Definition isfinite (s : Sample) : bool :=
  forallb finite_X (sX s) && forallb finite_U (sU s) && forallb finite_O (sO s).
End SampleOps.
End DataModel.

Arguments Sample : clear implicits.
Arguments content : clear implicits.
Arguments Store : clear implicits.
Arguments event : clear implicits.
Arguments State : clear implicits.
Arguments M : clear implicits.
Arguments Values : clear implicits.

(* ===================================================================== *)
(** * Configuration and collaborators *)
(* ===================================================================== *)

(** The entries of [params] and the attributes set by [_setup] that the
    engine reads. *)
Class Params := {
  max_iter : Z;                     (* self.max_iter *)
  planner_type : planner;           (* params['prediction']['dagger']['planner_type'] *)
  T : Z;                            (* params['prediction']['dagger']['T'] *)
  label_with_noise : bool;          (* params['prediction']['dagger']['label_with_noise'] *)
  init_epochs : Z;                  (* params['prediction']['dagger']['init_epochs'] *)
  init_data : option string;        (* params['prediction']['dagger'].get('init_data', None) *)
  cn_type : string;                 (* params['prediction']['dagger']['control_noise']['type'] *)
  bootstrap_epochs : Z;             (* self.bootstrap.epochs *)
  os_listdir : string → list string (* os.listdir on the init-data folder *)
}.

(** The objects [_setup] creates and the abstract methods a robot
    integration implements.  Each call threads the environment. *)
Class Collab (X U Obs WInfo MInfo Policy Env : Type) := {
  (* self.conditions *)
  conditions_reset : Env → Env;
  conditions_length : Z;
  conditions_repeats : Z;
  conditions_get_cond : Z → Z → Env → X * Env;
  (* self.world *)
  world_randomize : bool;
  world_is_collision : Sample X U Obs → Z → Env → bool * Env;
  world_update_visualization : Sample X U Obs → Policy → Z → Env → Env;
  (* self.agent, self.dynamics *)
  agent_sample_policy : X → Policy → pynoise → Env → (U * Obs) * Env;
  dynamics_evolve : X → U → Env → X * Env;
  (* the controller object *)
  policy_has_curr_traj : Policy → Env → bool;
  policy_get_info : Policy → Env → MInfo * Env;
  (* abstract methods *)
  _reset_world : Z → Z → Z → Env → Env;
  _update_world : Sample X U Obs → Z → Env → Env;
  _is_good_rollout : Sample X U Obs → Z → Env → option bool * Env;
  _create_mpc : Z → X → Env → Policy * Env;
  _get_world_info : Env → WInfo * Env;
  (* [_itr_save_worlds]: [None] where the class inherits it from
     [DaggerPrediction], the overriding method where it has one *)
  _itr_save_worlds : option (Z → list WInfo → Env → Env)
}.

(* ===================================================================== *)
(** * class DaggerPrediction *)
(* ===================================================================== *)

Module DaggerPrediction.
Section Engine.
Context {X U Obs WInfo MInfo Policy Env : Type}.
Context {V : Values X U Obs} {P : Params}.

#[local] Abbreviation SampleT := (Sample X U Obs).
#[local] Abbreviation StoreT := (Store X U Obs WInfo MInfo).
#[local] Abbreviation eventT := (event X U Obs WInfo MInfo Policy).
#[local] Abbreviation StateT := (State X U Obs WInfo MInfo Policy Env).
#[local] Abbreviation Mon := (M X U Obs WInfo MInfo Policy Env).

(** ** Save methods *)

(** [_itr_dir]: with [create], the directory is made if missing. *)
Definition _itr_dir (itr : Z) (create : bool) : Mon unit :=
  if negb create then mret tt
  else
    s ← get_store;
    if decide (itr ∈ dirs s) then mret tt
    else
      let s' := mkStore (files s) ({[itr]} ∪ dirs s) in
      put_store s';; emit (Makedirs itr s').

Definition _itr_samples_file (itr : Z) (create : bool) : Mon path :=
  _itr_dir itr create;; mret (samples_file itr).

Definition _itr_stats_file (itr : Z) (create : bool) : Mon path :=
  _itr_dir itr create;; mret (stats_file itr).

Definition _itr_model_file (itr : Z) (create : bool) : Mon path :=
  _itr_dir itr create;; mret (model_file itr).

(** Writing a file of the run directory ([open(fname, 'w')] and
    [pickle.dump], or [Sample.save]). *)
Definition write_file (f : path) (c : content X U Obs WInfo MInfo) : Mon unit :=
  s ← get_store;
  let s' := mkStore (<[f:=c]> (files s)) (dirs s) in
  put_store s';; emit (Write f s').

(** [_itr_save_worlds] of [DaggerPrediction]. *)
Definition itr_save_worlds (itr : Z) (world_infos : list WInfo) : Mon unit :=
  _itr_dir itr true;; write_file (worlds_file itr) (Worlds world_infos).

Definition _itr_save_mpcs (itr : Z) (mpc_infos : list MInfo) : Mon unit :=
  _itr_dir itr true;; write_file (mpcs_file itr) (Mpcs mpc_infos).

Definition _itr_save_samples (itr : Z) (samples : list SampleT) : Mon unit :=
  f ← _itr_samples_file itr true; write_file f (Samples samples).

(** [os.path.exists] on a file of the run directory. *)
Definition os_path_exists (f : path) : Mon bool :=
  s ← get_store; mret (bool_decide (is_Some (files s !! f))).

(** Modelled from the spec: [PredictionModel.checkpoint_exists] is not
    among the sources.  The model and dataset aggregator has
    [checkpoint_exists(path) -> bool], and a run directory holds "a model
    checkpoint artifact ... independently checkable for existence". *)
Definition checkpoint_exists (f : path) : Mon bool :=
  s ← get_store; mret (bool_decide (is_Some (files s !! f))).

(** The calls on [self.bootstrap]; what they do to the model is outside
    the engine, the trace keeps the call.  That holds for the checkpoint
    file a training step writes too: it is not entered in the run
    directory of the model, which holds what the engine itself writes and
    what was there at the start.  The engine looks for checkpoints in the
    resume scan only, before any training step of the same run. *)
Definition bootstrap_load (f : path) : Mon unit := emit (Load f).
Definition bootstrap_add_data (fs : list path) : Mon unit := emit (AddData fs).
Definition bootstrap_train (old : option path) (new : path) (eps : Z) : Mon unit :=
  emit (Train old new eps).
Definition bootstrap_save (f : path) : Mon unit := emit (Save f).

(** ** [_create_control_noise] *)
Definition _create_control_noise : Mon pynoise :=
  if decide (cn_type = "zero") then mret (NoiseObj ZeroNoise)
  else if decide (cn_type = "gaussian") then mret (NoiseObj GaussianNoise)
  else if decide (cn_type = "uniform") then mret (NoiseObj UniformNoise)
  else if decide (lower cn_type = "ou") then mret (NoiseObj OUNoise)
  else if decide (lower cn_type = "smoothedgaussian") then mret (NoiseObj SmoothedGaussianNoise)
  else raise (Exception_ "Control noise type not valid").

Context {C : Collab X U Obs WInfo MInfo Policy Env}.

(** ** The calls of [_run_itr], each leaving its event *)

Definition Sample_set_X (x : X) (t : Z) (s : SampleT) : Mon SampleT :=
  emit (SetX t x);; or_IndexError (set_X x t s).
Definition Sample_set_U (u : U) (t : Z) (s : SampleT) : Mon SampleT :=
  emit (SetU t u);; or_IndexError (set_U u t s).
Definition Sample_set_O (o : Obs) (t : Z) (s : SampleT) : Mon SampleT :=
  emit (SetO t o);; or_IndexError (set_O o t s).
Definition Sample_get_X (t : Z) (s : SampleT) : Mon X :=
  or_IndexError (get_X t s).
Definition Sample_isfinite (s : SampleT) : Mon bool :=
  emit (IsFinite s (isfinite s));; mret (isfinite s).

Definition reset_world (itr cond rep : Z) : Mon unit :=
  call_ (_reset_world itr cond rep);; emit (ResetWorld itr cond rep).
Definition update_world (s : SampleT) (t : Z) : Mon unit :=
  call_ (_update_world s t);; emit (UpdateWorld t).
Definition get_cond (cond rep : Z) : Mon X :=
  x ← call (conditions_get_cond cond rep); emit (GetCond cond rep x);; mret x.
Definition create_mpc (itr : Z) (x0 : X) : Mon Policy :=
  p ← call (_create_mpc itr x0); emit (CreateMpc itr x0 p);; mret p.
(** [agent.sample_policy(x0, mpc_policy, noise=noise, T=1)], read through
    [get_U(t=0)] and [get_O(t=0)]: the agent returns that pair. *)
Definition sample_policy (t : Z) (x0 : X) (p : Policy) (noise : pynoise) : Mon (U * Obs) :=
  r ← call (agent_sample_policy x0 p noise);
  emit (SamplePolicy t x0 noise r.1 r.2);; mret r.
Definition is_collision (s : SampleT) (t : Z) : Mon bool :=
  b ← call (world_is_collision s t); emit (IsCollision t b);; mret b.
Definition evolve (t : Z) (x : X) (u : U) : Mon X :=
  x' ← call (dynamics_evolve x u); emit (Evolve t x u x');; mret x'.
Definition update_visualization (s : SampleT) (p : Policy) (t : Z) : Mon unit :=
  call_ (world_update_visualization s p t);; emit (UpdateVisualization t).
Definition get_world_info : Mon WInfo :=
  w ← call _get_world_info; emit (GetWorldInfo w);; mret w.
Definition get_info (p : Policy) : Mon MInfo :=
  m ← call (policy_get_info p); emit (GetInfo m);; mret m.
Definition is_good_rollout (s : SampleT) (t : Z) : Mon (option bool) :=
  v ← call (_is_good_rollout s t); emit (IsGoodRollout s t v);; mret v.

(** ** [_run_itr] *)

(** The body of [for t in xrange(T)]; the boolean tells whether the body
    left the loop by [break]. *)
Definition rollout_step (mpc_policy : Policy) (control_noise : pynoise)
    (t : Z) (sample_T : SampleT) : Mon (bool * SampleT) :=
  emit (Info (MsgT t));;
  update_world sample_T t;;
  x0 ← Sample_get_X t sample_T;
  rollout ← sample_policy t x0 mpc_policy control_noise;
  let u := rollout.1 in
  let o := rollout.2 in
  u_label ← (if label_with_noise || is_False control_noise then mret u
             else fst <$> sample_policy t x0 mpc_policy (NoiseObj ZeroNoise));
  sample_T ← Sample_set_U u_label t sample_T;
  sample_T ← Sample_set_O o t sample_T;
  hit ← is_collision sample_T t;
  if hit : bool then
    emit (Warning (MsgCrashed t));; mret (true, sample_T)
  else
    sample_T ← (if t <? T - 1
                then x_tp1 ← evolve t x0 u; Sample_set_X x_tp1 (t + 1) sample_T
                else mret sample_T);
    has ← reads (policy_has_curr_traj mpc_policy);
    (if has : bool then update_visualization sample_T mpc_policy t else mret tt);;
    mret (false, sample_T).

(** [for t in xrange(T): ... else: ...]: [t_var] is the loop variable as
    it stands, unbound before the first pass. *)
Fixpoint rollout_for (mpc_policy : Policy) (control_noise : pynoise)
    (ts : list Z) (t_var : option Z) (sample_T : SampleT)
    : Mon (option Z * SampleT) :=
  match ts with
  | [] =>
      t ← read_var t_var;
      emit (Info (MsgLasted t));; mret (t_var, sample_T)
  | t :: ts' =>
      r ← rollout_step mpc_policy control_noise t sample_T;
      if r.1 : bool then mret (Some t, r.2)
      else rollout_for mpc_policy control_noise ts' (Some t) r.2
  end.

(** Lines 236-271: the loop over the timesteps and the cut of the sample
    to the timesteps made, [sample_T.match(slice(0, t + 1))]; the result
    is [sample] and [t]. *)
Definition rollout (mpc_policy : Policy) (control_noise : pynoise)
    (sample_T : SampleT) : Mon (SampleT * Z) :=
  r ← rollout_for mpc_policy control_noise (xrange T) None sample_T;
  t ← read_var r.1;
  mret (Sample_match 0 (t + 1) r.2, t).

(** What one pass of the [while] body produces before the gate. *)
Record Rollout := mkRollout {
  r_sample : SampleT; r_t : Z; r_world_info : WInfo; r_mpc_info : MInfo
}.

(** One pass of the [while] body, from 'Starting cond .. rep ..' to
    [mpc_policy.get_info()]. *)
Definition attempt (itr cond rep : Z) : Mon Rollout :=
  emit (Info (MsgStarting cond rep));;
  (if (cond =? 0) && (rep =? 0) || world_randomize
   then reset_world itr cond rep else mret tt);;
  x0 ← get_cond cond rep;
  sample_T ← Sample_set_X x0 0 (Sample_new T);
  mpc_policy ← create_mpc itr x0;
  control_noise ← _create_control_noise;
  r ← rollout mpc_policy control_noise sample_T;
  world_info ← get_world_info;
  mpc_info ← get_info mpc_policy;
  mret (mkRollout r.1 r.2 world_info mpc_info).

(** The three lists [_run_itr] appends to. *)
Record Lists := mkLists {
  samples : list SampleT; world_infos : list WInfo; mpc_infos : list MInfo
}.

(** The three [append]s after the gate accepted a rollout. *)
Definition append_rollout (acc : Lists) (r : Rollout) : Lists :=
  mkLists (samples acc ++ [r_sample r])
          (world_infos acc ++ [r_world_info r])
          (mpc_infos acc ++ [r_mpc_info r]).

(** [samples[-1]]. *)
Definition samples_last (l : list SampleT) : Mon SampleT :=
  or_IndexError (i ← py_index (length l) (-1); l !! i).

(** [while rep < self.conditions.repeats: ...]; one unit of fuel per
    pass. *)
Fixpoint while_rep (fuel : nat) (itr cond rep : Z) (acc : Lists) : Mon Lists :=
  match fuel with
  | 0%nat => out_of_fuel
  | S fuel' =>
      if rep <? conditions_repeats then
        r ← attempt itr cond rep;
        good ← is_good_rollout (r_sample r) (r_t r);
        if negb (truthy good) then
          emit (Warning MsgNotGood);;
          while_rep fuel' itr cond rep acc                     (* continue *)
        else
          let acc' := append_rollout acc r in
          s ← samples_last (samples acc');
          fin ← Sample_isfinite s;
          assert_ fin;;
          emit (Info (MsgFinished cond rep));;
          while_rep fuel' itr cond (rep + 1) acc'
      else mret acc
  end.

(** [for cond in xrange(self.conditions.length): rep = 0; while ...]. *)
Fixpoint for_cond (fuel : nat) (itr : Z) (conds : list Z) (acc : Lists) : Mon Lists :=
  match conds with
  | [] => mret acc
  | cond :: conds' =>
      acc' ← while_rep fuel itr cond 0 acc;
      for_cond fuel itr conds' acc'
  end.

(** The collection part of [_run_itr]: up to the end of the loops. *)
Definition collect (fuel : nat) (itr : Z) : Mon Lists :=
  call_ conditions_reset;; emit ConditionsReset;;
  for_cond fuel itr (xrange conditions_length) (mkLists [] [] []).

(** [self._itr_save_worlds(itr, world_infos)], by the class at hand. *)
Definition save_worlds (itr : Z) (world_infos : list WInfo) : Mon unit :=
  match _itr_save_worlds with
  | None => itr_save_worlds itr world_infos
  | Some overriding => call_ (overriding itr world_infos)
  end.

(** The tail of [_run_itr]: the three saves and the final reset. *)
Definition persist (itr : Z) (acc : Lists) : Mon unit :=
  _itr_save_samples itr (samples acc);;
  save_worlds itr (world_infos acc);;
  _itr_save_mpcs itr (mpc_infos acc);;
  reset_world itr 0 0.

Definition _run_itr (fuel : nat) (itr : Z) : Mon unit :=
  acc ← collect fuel itr; persist itr acc.

(** ** [run] *)

(** [for model_start_itr in xrange(self.max_iter-1, -1, -1): ... else:
    model_file = None]: the loop variable (bumped before [break]) and
    [model_file]. *)
Fixpoint find_model (itrs : list Z) (var : option Z) : Mon (option Z * option path) :=
  match itrs with
  | [] => mret (var, None)
  | i :: itrs' =>
      model_file ← _itr_model_file i false;
      found ← checkpoint_exists model_file;
      if found : bool then mret (Some (i + 1), Some model_file)
      else find_model itrs' (Some i)
  end.

(** [for samples_start_itr in xrange(self.max_iter-1, -1, -1): ...]. *)
Fixpoint find_samples (itrs : list Z) (var : option Z) : Mon (option Z) :=
  match itrs with
  | [] => mret var
  | i :: itrs' =>
      sample_file ← _itr_samples_file i false;
      found ← os_path_exists sample_file;
      if found : bool then mret (Some (i + 1))
      else find_samples itrs' (Some i)
  end.

(** The resume state: [model_start_itr], [samples_start_itr] and
    [model_file]. *)
Record Resume := mkResume {
  model_start_itr : Z; samples_start_itr : Z; resume_model_file : option path
}.

(** The condition of the 'should be within one' assertion. *)
Definition within_one (m s : Z) : bool :=
  (m =? s) || (m =? s - 1) || ((m =? 1) && (s =? 0)).

(** [run], lines 142-159: the two scans and the assertion. *)
Definition resolve : Mon Resume :=
  r ← find_model (xrange_down (max_iter - 1) (-1)) None;
  sv ← find_samples (xrange_down (max_iter - 1) (-1)) None;
  m ← read_var r.1;
  s ← read_var sv;
  assert_ (within_one m s);;
  mret (mkResume m s r.2).

(** The condition of 'if any data and haven't trained on it already'. *)
Definition catch_up (m s : Z) : bool :=
  (m =? s - 1) || ((s =? 0) && (m =? 0) && bool_decide (init_data ≠ None)).

(** [run], lines 161-188: loading, the previous and initial data, and the
    catch-up training step; the result is [start_itr]. *)
Definition resume : Mon Z :=
  r ← resolve;
  let m := model_start_itr r in
  let s := samples_start_itr r in
  match resume_model_file r with
  | Some f => emit (Info (MsgLoadingModel f));; bootstrap_load f
  | None => mret tt
  end;;
  (if s >? 0 then
     prev_sample_files ← mapM (λ itr, _itr_samples_file itr true) (xrange s);
     (* assert (os.path.exists(f) for f in prev_sample_files): the
        asserted value is a generator object, which is always true *)
     bootstrap_add_data prev_sample_files
   else mret tt);;
  match init_data with
  | Some init_data_folder =>
      emit (Info MsgAddingInitialData);;
      _itr_samples_file 0 true;;                 (* ext = '.npz' *)
      let fnames := filter (λ fname, str_in ".npz" fname = true)
                           (os_listdir init_data_folder) in
      mapM (λ fname, emit (Info (MsgFname fname))) fnames;;
      bootstrap_add_data (init_file init_data_folder <$> fnames)
  | None => mret tt
  end;;
  (if catch_up m s then
     old_model_file ← (if s <=? 0 then mret None
                       else Some <$> _itr_model_file m true);
     new_model_file ← _itr_model_file m true;
     bootstrap_train old_model_file new_model_file bootstrap_epochs
   else mret tt);;
  mret s.

(** The body of the training loop. *)
Definition train_itr (fuel : nat) (itr : Z) : Mon unit :=
  emit (Info MsgBlank);; emit (Info (MsgItr itr));; emit (Info MsgBlank);;
  emit (Info (MsgItrFlying itr));;
  _run_itr fuel itr;;
  if (itr =? 0) && false then
    f ← _itr_model_file itr true; bootstrap_save f
  else if decide (planner_type ≠ randomwalk) then
    emit (Info (MsgItrAddingData itr));;
    f ← _itr_samples_file itr true;
    bootstrap_add_data [f];;
    emit (Info (MsgItrTraining itr));;
    old_model_file ← _itr_model_file (itr - 1) true;
    new_model_file ← _itr_model_file itr true;
    bootstrap_train (Some old_model_file) new_model_file
      (if itr >? 1 then bootstrap_epochs else init_epochs)
  else mret tt.

(** [for itr in xrange(start_itr, self.max_iter): ...]. *)
Fixpoint training_loop (fuel : nat) (itrs : list Z) : Mon unit :=
  match itrs with
  | [] => mret tt
  | itr :: itrs' => train_itr fuel itr;; training_loop fuel itrs'
  end.

Definition run (fuel : nat) : Mon unit :=
  start_itr ← resume;
  training_loop fuel (xrange2 start_itr max_iter).
End Engine.
End DaggerPrediction.

(* ===================================================================== *)
(** * class DynamicsRCcar *)
(* ===================================================================== *)

Module DynamicsRCcar.
(** [evolve(self, x, u, fx=None, fu=None, f0=None)]: the matrix form is
    commented out, the body is [return x]. *)
Definition evolve {X U FX FU F0 : Type}
    (x : X) (u : U) (fx : option FX) (fu : option FU) (f0 : option F0) : X :=
  x.
End DynamicsRCcar.

(* ===================================================================== *)
(** * class ProbcollRCcar *)
(* ===================================================================== *)

(** What [ProbcollRCcar] calls on ROS, the agent and the world. *)
Class Ros (Env : Type) := {
  agent_sim : bool;                                          (* self._agent.sim *)
  rospy_is_shutdown : Env → bool * Env;
  good_rollout_callback_get : Env → option Empty_msg * Env;
  bad_rollout_callback_get : Env → option Empty_msg * Env;
  rospy_sleep : Z → Env → Env;                               (* milliseconds *)
  agent_execute_control_None : Env → Env;
  world_reset : bool → Z → Z → Z → Env → Env
}.

Module ProbcollRCcar.
Section Gate.
Context {X U Obs WInfo MInfo Policy Env : Type}.
Context {R : Ros Env}.

#[local] Abbreviation SampleT := (Sample X U Obs).
#[local] Abbreviation Mon := (M X U Obs WInfo MInfo Policy Env).

Definition is_shutdown : Mon bool :=
  b ← call rospy_is_shutdown; emit (IsShutdown b);; mret b.
Definition good_get : Mon (option Empty_msg) :=
  m ← call good_rollout_callback_get; emit (GoodRolloutGet m);; mret m.
Definition bad_get : Mon (option Empty_msg) :=
  m ← call bad_rollout_callback_get; emit (BadRolloutGet m);; mret m.
Definition sleep (ms : Z) : Mon unit :=
  call_ (rospy_sleep ms);; emit (Sleep ms).

(** [_itr_save_worlds]: [pass]. *)
Definition _itr_save_worlds (itr : Z) (world_infos : list WInfo) : Env → Env :=
  λ e, e.

(** [_update_world]: [return]. *)
Definition _update_world (sample : SampleT) (t : Z) : Env → Env := λ e, e.

(** [while not rospy.is_shutdown(): ...]; one unit of fuel per pass.
    When the loop ends because of the shutdown the function ends without
    a [return], so its value is [None]. *)
Fixpoint poll (fuel : nat) : Mon (option bool) :=
  match fuel with
  | 0%nat => out_of_fuel
  | S fuel' =>
      down ← is_shutdown;
      if down : bool then mret None
      else
        good_rollout ← good_get;
        bad_rollout ← bad_get;
        if msg_truthy good_rollout && negb (msg_truthy bad_rollout) then
          mret (Some true)
        else if msg_truthy bad_rollout && negb (msg_truthy good_rollout) then
          mret (Some false)
        else
          sleep 100;;                                      (* rospy.sleep(0.1) *)
          poll fuel'
  end.

Definition _ros_is_good_rollout (fuel : nat) : Mon (option bool) :=
  good_get;; bad_get;; poll fuel.

Definition _is_good_rollout (fuel : nat) (sample : SampleT) (t : Z) : Mon (option bool) :=
  if agent_sim then mret (Some true)
  else
    call_ agent_execute_control_None;; emit ExecuteControl_None;;
    emit (Info MsgIsGoodRollout);;
    _ros_is_good_rollout fuel.

Definition _reset_world (fuel : nat) (itr cond rep : Z) : Mon unit :=
  (if negb agent_sim then
     if (cond =? 0) && (rep =? 0) then
       emit (Info MsgPressAorB);; _ros_is_good_rollout fuel;; mret tt
     else mret tt
   else mret tt);;
  let back_up := false in
  call_ (world_reset back_up itr cond rep);;
  emit (WorldReset back_up itr cond rep).
End Gate.
End ProbcollRCcar.

(* ===================================================================== *)
(** * The names of the files *)
(* ===================================================================== *)

(** The last character of a string. *)
Fixpoint last_char (s : string) : option ascii :=
  match s with
  | EmptyString => None
  | String c EmptyString => Some c
  | String _ s' => last_char s'
  end.

(** [os.path.join(a, b)] on POSIX paths: an absolute [b] replaces [a],
    otherwise [b] follows [a] and a separator, which is not doubled. *)
Definition os_path_join (a b : string) : string :=
  if String.prefix "/" b then b
  else if bool_decide (a = "") || bool_decide (last_char a = Some "/"%char) then a +:+ b
  else a +:+ "/" +:+ b.

(** ['{0}'.format(n)] for an integer: its decimal digits, after a minus
    sign if it is negative. *)
Definition format_d (n : Z) : string := pretty n.

Fixpoint zeros (k : nat) : string :=
  match k with
  | 0%nat => ""
  | S k' => String "0" (zeros k')
  end.

(** ['{0:03d}'.format(n)]: the sign, then the digits after as many zeros
    as it takes to reach three characters. *)
Definition format_03d (n : Z) : string :=
  match n with
  | Zneg p => let ds := pretty (Npos p) in "-" +:+ zeros (2 - String.length ds) +:+ ds
  | _ => let ds := pretty (Z.to_N n) in zeros (3 - String.length ds) +:+ ds
  end.

(** [p.rfind(c)] from the index [i] on, [best] being the last index
    found so far. *)
Fixpoint rfind_from (c : ascii) (p : string) (i best : Z) : Z :=
  match p with
  | EmptyString => best
  | String x p' => rfind_from c p' (i + 1) (if decide (x = c) then i else best)
  end.

(** [p.rfind(c)]: the last index of [c] in [p], or -1. *)
Definition rfind (c : ascii) (p : string) : Z := rfind_from c p 0 (-1).

(** [p[n:]] and [p[:n]] for [n >= 0]. *)
Fixpoint string_drop (n : nat) (p : string) : string :=
  match n, p with
  | S n', String _ p' => string_drop n' p'
  | _, _ => p
  end.

Fixpoint string_take (n : nat) (p : string) : string :=
  match n, p with
  | S n', String x p' => String x (string_take n' p')
  | _, _ => ""
  end.

(** The loop of [_splitext] that skips the leading dots of the file
    name: [k] is [dotIndex - filenameIndex]. *)
Fixpoint skip_dots (p : string) (filenameIndex : nat) (k : nat) (dotIndex : nat)
    : option (string * string) :=
  match k with
  | 0%nat => None
  | S k' =>
      if decide (String.get filenameIndex p ≠ Some "."%char)
      then Some (string_take dotIndex p, string_drop dotIndex p)
      else skip_dots p (S filenameIndex) k' dotIndex
  end.

(** [os.path.splitext(p)] on POSIX paths: the extension starts at the
    last dot of the last component, unless that component has dots only
    before it. *)
Definition os_path_splitext (p : string) : string * string :=
  let sepIndex := rfind "/" p in
  let dotIndex := rfind "." p in
  if dotIndex >? sepIndex then
    let filenameIndex := sepIndex + 1 in
    match skip_dots p (Z.to_nat filenameIndex) (Z.to_nat (dotIndex - filenameIndex))
                    (Z.to_nat dotIndex) with
    | Some r => r
    | None => (p, "")
    end
  else (p, "").

(** The strings the save methods of [DaggerPrediction] and
    [ProbcollRCcar] build; the directories they make on the way are in
    [DaggerPrediction._itr_dir]. *)
Module Names.
Section Names.
(** [self._save_dir], an absolute path. *)
Variable _save_dir : string.

(** The name [_itr_dir] returns. *)
Definition _itr_dir (itr : Z) : string :=
  os_path_join _save_dir ("itr" +:+ format_d itr).

Definition _itr_samples_file (itr : Z) : string :=
  os_path_join (_itr_dir itr) ("samples_itr_" +:+ format_d itr +:+ ".npz").

Definition _itr_stats_file (itr : Z) : string :=
  os_path_join (_itr_dir itr) ("stats_itr_" +:+ format_d itr +:+ ".pkl").

Definition _itr_model_file (itr : Z) : string :=
  os_path_join (_itr_dir itr) ("model_itr_" +:+ format_d itr +:+ ".ckpt").

(** [fname] of [_itr_save_worlds] and of [_itr_save_mpcs]. *)
Definition worlds_fname (itr : Z) : string :=
  os_path_join (_itr_dir itr) ("worlds_itr_" +:+ format_d itr +:+ ".pkl").

Definition mpcs_fname (itr : Z) : string :=
  os_path_join (_itr_dir itr) ("mpcs_itr_" +:+ format_d itr +:+ ".pkl").

(** [ProbcollRCcar._bag_file]. *)
Definition _bag_file (itr cond rep : Z) : string :=
  os_path_join (_itr_dir itr)
    ("bagfile_itr" +:+ format_d itr +:+ "_cond" +:+ format_d cond
     +:+ "_rep" +:+ format_d rep +:+ ".bag").

(** [_img_dir]: reading the property makes the directory if it is
    missing; the boolean tells whether it exists. *)
Definition _img_dir (images_exists : bool) : string * bool :=
  let dir := os_path_join _save_dir "images" in
  if negb images_exists then (dir, true) else (dir, images_exists).

Definition _img_file (itr cond rep : Z) (images_exists : bool) : string * bool :=
  let '(dir, images_exists) := _img_dir images_exists in
  (os_path_join dir ("itr" +:+ format_03d itr +:+ "_cond" +:+ format_03d cond
                     +:+ "_rep" +:+ format_03d rep +:+ ".png"),
   images_exists).

(** The name of each file of the run directory, and of an init-data
    file ([os.path.join(init_data_folder, fname)]). *)
Definition path_name (p : path) : string :=
  match p with
  | model_file itr => _itr_model_file itr
  | samples_file itr => _itr_samples_file itr
  | stats_file itr => _itr_stats_file itr
  | worlds_file itr => worlds_fname itr
  | mpcs_file itr => mpcs_fname itr
  | init_file folder fname => os_path_join folder fname
  end.
End Names.
End Names.

(* ===================================================================== *)
(** * primitives_mpc_policy_bebop2d.py *)
(* ===================================================================== *)

Section SampleReads.
Context {X U Obs : Type}.
(** [sample.get_U(t=t)]. *)
Definition get_U (t : Z) (s : Sample X U Obs) : option U :=
  i ← py_index (length (sU s)) t; sU s !! i.
End SampleReads.

(** What the methods of [primitives_mpc_policy_bebop2d.py] can raise. *)
Inductive policy_error :=
  | KeyError (key : string)          (* a key missing from a dictionary *)
  | Sample_IndexError                (* an index outside a sample *)
  | List_IndexError                  (* an index outside a list *)
  | Assertion_Error
  | Exception_no_cost.               (* 'No additional cost function in yaml file' *)

(** The arithmetic of the file on floats: the operators, the literal
    [n/d], [np.pi], [np.cos], [np.sin], the array a list of numbers
    becomes when it is written into a sample, and the sum of two
    arrays. *)
Class FloatOps (R U : Type) := {
  r_add : R → R → R;
  r_sub : R → R → R;
  r_mul : R → R → R;
  r_div : R → R → R;
  r_neg : R → R;
  r_gt : R → R → bool;
  r_lit : Z → Z → R;
  np_pi : R;
  np_cos : R → R;
  np_sin : R → R;
  to_array : list R → U;
  array_add : U → U → U
}.

(** The entries of [meta_data] the file reads; [None] is a missing
    key. *)
Record MetaData (R : Type) := mkMetaData {
  md_dt : option R;                                          (* meta_data['dt'] *)
  md_trajopt : option (gmap string (gmap string (list R)))   (* meta_data['trajopt'] *)
}.
Arguments md_dt {R} _.
Arguments md_trajopt {R} _.

Section Numpy.
Context {R U : Type} {F : FloatOps R U}.

(** [np.linspace(start, stop, num)]: [num] points from [start] in steps
    of [(stop - start) / (num - 1)], the last one being [stop]. *)
Definition np_linspace (start stop : R) (num : nat) : list R :=
  match num with
  | 0%nat => []
  | 1%nat => [start]
  | S div =>
      let step := r_div (r_sub stop start) (r_lit (Z.of_nat div) 1) in
      ((λ i : nat, r_add (r_mul (r_lit (Z.of_nat i) 1) step) start) <$> seq 0 div)
      ++ [stop]
  end.
End Numpy.

Module PrimitivePolicyBebop2dAngleSpeed.
Section Act.
Context {X U Obs R G : Type}.
Context {V : Values X U Obs} {F : FloatOps R U}.

(** The attributes [__init__] sets, and [_curr_traj], which [act]
    sets. *)
Record policy := mkPolicy {
  _T : Z;
  _meta_data : MetaData R;
  theta : R;
  speed : R;
  _dynamics_evolve : X → U → X;           (* self._dynamics.evolve *)
  _curr_traj : option (Sample X U Obs)
}.

(** The body of [for t in xrange(T-1)]. *)
Definition act_step (self : policy) (linearvel : U) (traj : Sample X U Obs) (t : Z)
    : option (Sample X U Obs) :=
  x_t ← get_X t traj;
  let x_tp1 := _dynamics_evolve self x_t linearvel in
  traj ← set_X x_tp1 (t + 1) traj;
  set_U linearvel t traj.

Fixpoint act_loop (self : policy) (linearvel : U) (ts : list Z) (traj : Sample X U Obs)
    : option (Sample X U Obs) :=
  match ts with
  | [] => Some traj
  | t :: ts' => traj ← act_step self linearvel traj t; act_loop self linearvel ts' traj
  end.

(** [act] after its first line; [None] is an [IndexError] of the
    sample.  [noise] is the [sample] method of the noise object, [g] the
    state of its random generator. *)
Definition act_body (self : policy) (x : X) (obs : Obs)
    (noise : U → G → U * G) (g : G) : option (U * policy * G) :=
  let T := _T self in
  let traj := Sample_new T in
  traj ← set_X x 0 traj;
  traj ← set_O obs 0 traj;
  let linearvel := to_array [r_mul (speed self) (np_cos (theta self));
                             r_mul (speed self) (np_sin (theta self))] in
  traj ← act_loop self linearvel (xrange (T - 1)) traj;
  traj ← set_U linearvel (-1) traj;
  let self := mkPolicy (_T self) (_meta_data self) (theta self) (speed self)
                       (_dynamics_evolve self) (Some traj) in
  u ← get_U 0 traj;
  let '(n, g) := noise u g in
  Some (array_add u n, self, g).

(** [act(self, x, obs, t, noise, ref_traj=None)]: the control, the
    policy with its [_curr_traj], and the generator.  The first line
    reads [self._meta_data['dt']]. *)
Definition act (self : policy) (x : X) (obs : Obs) (t : Z)
    (noise : U → G → U * G) (g : G) : policy_error + U * policy * G :=
  match md_dt (_meta_data self) with
  | None => inl (KeyError "dt")
  | Some dt =>
      match act_body self x obs noise g with
      | None => inl Sample_IndexError
      | Some r => inr r
      end
  end.
End Act.
End PrimitivePolicyBebop2dAngleSpeed.

Module PrimitivesMPCPolicyBebop2d.
Section Methods.
Context {X U Obs R Cost : Type}.
Context {V : Values X U Obs} {F : FloatOps R U}.

#[local] Abbreviation primitive_policy :=
  (PrimitivePolicyBebop2dAngleSpeed.policy (X:=X) (U:=U) (Obs:=Obs) (R:=R)).

(** The attributes of [PrimitivesMPCPolicyBebop2d] its methods read and
    set. *)
Record mpc_policy := mkMpc {
  _T : Z;
  _meta_data : MetaData R;
  _trajopt_dynamics_evolve : X → U → X;       (* self._trajopt.dynamics *)
  thetas : option (list R);
  speeds : option (list R)
}.

(** [cost_velocity_bebop2d(T, velocity, weights, weight_scale=...)]. *)
Variable cost_velocity_bebop2d : Z → list R → list R → R → Cost.

(** [d[key]] *)
Definition getitem {A} (d : gmap string A) (key : string) : policy_error + A :=
  match d !! key with Some a => inr a | None => inl (KeyError key) end.

(** [l[i]] *)
Definition index {A} (l : list A) (i : nat) : policy_error + A :=
  match l !! i with Some a => inr a | None => inl List_IndexError end.

#[local] Instance error_ret : MRet (sum policy_error) := λ A a, inr a.
#[local] Instance error_bind : MBind (sum policy_error) := λ A B f m,
  match m with inl e => inl e | inr a => f a end.

(** [self._meta_data['trajopt']] *)
Definition trajopt (self : mpc_policy) : policy_error + gmap string (gmap string (list R)) :=
  match md_trajopt (_meta_data self) with
  | Some t => inr t
  | None => inl (KeyError "trajopt")
  end.

Definition _create_additional_cost (self : mpc_policy) : policy_error + Cost :=
  t ← trajopt self;
  if bool_decide (is_Some (t !! "cost_velocity")) then
    cv ← getitem t "cost_velocity";
    velocity ← getitem cv "velocity";
    cv ← getitem t "cost_velocity";
    weights ← getitem cv "weights";
    mret (cost_velocity_bebop2d (_T self) velocity weights (r_lit 1 1))
  else inl Exception_no_cost.

(** The two [append]s of the inner loop body. *)
Definition add_primitive (self : mpc_policy) (theta speed : R)
    (acc : list (option unit) * list primitive_policy)
    : list (option unit) * list primitive_policy :=
  (acc.1 ++ [None],
   acc.2 ++ [PrimitivePolicyBebop2dAngleSpeed.mkPolicy
               (_T self) (_meta_data self) theta speed
                      (_trajopt_dynamics_evolve self) None]).

(** What [_create_primitives_and_policies] reads of the configuration
    before the assertion: nothing without a 'cost_velocity' entry,
    otherwise [des_vel], [weights[0]] and [weights[1]]. *)
Definition read_cost_velocity (self : mpc_policy)
    : policy_error + option (list R * R * R) :=
  t ← trajopt self;
  if bool_decide (is_Some (t !! "cost_velocity")) then
    cv ← getitem t "cost_velocity";
    des_vel ← getitem cv "velocity";
    cv ← getitem t "cost_velocity";
    weights ← getitem cv "weights";
    w0 ← index weights 0;
    w1 ← index weights 1;
    mret (Some (des_vel, w0, w1))
  else mret None.

(** [_create_primitives_and_policies]: the two lists or the exception,
    and the policy object as the method leaves it. *)
Definition _create_primitives_and_policies (self : mpc_policy)
    : (policy_error + list (option unit) * list primitive_policy) * mpc_policy :=
  let primitives := [] in
  let mpc_policies := [] in
  match read_cost_velocity self with
  | inl e => (inl e, self)
  | inr None => (inr (primitives, mpc_policies), self)
  | inr (Some (des_vel, w0, w1)) =>
      if negb (r_gt w0 w1) then (inl Assertion_Error, self)
      else
        let thetas := np_linspace (r_div (r_neg np_pi) (r_lit 2 1))
                                  (r_div np_pi (r_lit 2 1)) 19 in
        let self := mkMpc (_T self) (_meta_data self) (_trajopt_dynamics_evolve self)
                          (Some thetas) (speeds self) in
        match index des_vel 0 with
        | inl e => (inl e, self)
        | inr v0 =>
            let speeds := (λ s, r_mul s v0) <$> np_linspace (r_lit 1 10) (r_lit 1 1) 8 in
            let self := mkMpc (_T self) (_meta_data self) (_trajopt_dynamics_evolve self)
                              (Some thetas) (Some speeds) in
            (inr (foldl (λ acc theta,
                           foldl (λ acc speed, add_primitive self theta speed acc)
                                 acc speeds)
                        (primitives, mpc_policies) thetas),
             self)
        end
  end.

(** [_create_primitive_cost_func]: [return None]. *)
Definition _create_primitive_cost_func (self : mpc_policy) (x : X) (primitive : option unit)
    : option Cost := None.
End Methods.
End PrimitivesMPCPolicyBebop2d.

(* ===================================================================== *)
(** * The vocabulary of the specification *)
(* ===================================================================== *)

Section SpecVocabulary.
Context {X U Obs WInfo MInfo : Type}.
#[local] Abbreviation StoreT := (Store X U Obs WInfo MInfo).

(** A model checkpoint exists at iteration [i]. *)
Definition has_checkpoint (s : StoreT) (i : Z) : Prop :=
  is_Some (files s !! model_file i).

(** An Iteration Record (its samples artifact) exists at iteration [i]. *)
Definition has_samples (s : StoreT) (i : Z) : Prop :=
  is_Some (files s !! samples_file i).

(** [m] is one plus the largest index in [0, n-1] at which [ex] holds,
    and 0 if it holds at none. *)
Definition resume_point (ex : Z → Prop) (n m : Z) : Prop :=
  (∃ i, 0 ≤ i < n ∧ ex i ∧ (∀ j, i < j < n → ¬ ex j) ∧ m = i + 1)
  ∨ ((∀ j, 0 ≤ j < n → ¬ ex j) ∧ m = 0).

(** The run directory with the directory of iteration [itr], and with
    the file [f] holding [c]. *)
Definition with_dir (itr : Z) (s : StoreT) : StoreT :=
  mkStore (files s) ({[itr]} ∪ dirs s).
Definition with_file (f : path) (c : content X U Obs WInfo MInfo) (s : StoreT) : StoreT :=
  mkStore (<[f:=c]> (files s)) (dirs s).

Context {Policy : Type}.
#[local] Abbreviation eventT := (event X U Obs WInfo MInfo Policy).

(** The calls on the model and dataset aggregator. *)
Definition is_bootstrap_call (e : eventT) : bool :=
  match e with
  | Load _ | AddData _ | Train _ _ _ | Save _ => true
  | _ => false
  end.

(** The calls of a trace on the model and dataset aggregator, in order. *)
Definition bootstrap_calls (tr : list eventT) : list eventT :=
  omap (λ e, if is_bootstrap_call e then Some e else None) tr.

(** The [train] calls of a trace, in order: seed checkpoint, new
    checkpoint, epochs. *)
Definition train_calls (tr : list eventT) : list (option path * path * Z) :=
  omap (λ e, match e with Train old new eps => Some (old, new, eps) | _ => None end) tr.

(** The changes of the run directory. *)
Definition is_store_event (e : eventT) : bool :=
  match e with
  | Makedirs _ _ | Write _ _ => true
  | _ => false
  end.

(** The writes of a trace, each with the file and the run directory
    right after it. *)
Definition writes (tr : list eventT) : list (path * StoreT) :=
  omap (λ e, match e with Write f s => Some (f, s) | _ => None end) tr.

(** The answers of the quality gate and the finiteness checks. *)
Definition is_gate_event (e : eventT) : bool :=
  match e with
  | IsGoodRollout _ _ _ | IsFinite _ _ => true
  | _ => false
  end.

(** An event that is neither a call on the aggregator nor a change of
    the run directory. *)
Definition collection_event (e : eventT) : Prop :=
  is_bootstrap_call e = false ∧ is_store_event e = false.

(** An event of one rollout: a collection event that is not of the
    gate. *)
Definition attempt_event (e : eventT) : Prop :=
  is_bootstrap_call e = false ∧ is_store_event e = false ∧ is_gate_event e = false.

(** What one pass of the training loop asks of the aggregator: nothing
    under the random-walk planner, otherwise the new samples and a
    training step from checkpoint [itr - 1] to checkpoint [itr], with the
    init epochs up to iteration 1 and the standard epochs from 2 on. *)
Definition iteration_calls `{P : Params} (itr : Z) : list eventT :=
  if decide (planner_type ≠ randomwalk) then
    [AddData [samples_file itr];
     Train (Some (model_file (itr - 1))) (model_file itr)
           (if itr >? 1 then bootstrap_epochs else init_epochs)]
  else [].

Context {Env : Type}.
#[local] Abbreviation Mon := (M X U Obs WInfo MInfo Policy Env).

(** A sample built for [n] timesteps. *)
Definition horizon (s : Sample X U Obs) (n : nat) : Prop :=
  length (sX s) = n ∧ length (sU s) = n ∧ length (sO s) = n.

(** What the pass of the rollout loop at timestep [t] does: from the
    sample [s] it makes [s'], leaves the loop or not ([hit]), and adds the
    events [tr].  [x] is the state read at [t], [u] and [o] the action
    and observation of the query with the rollout's noise, [lbl] the label
    written at [t]. *)
Definition step_spec `{P : Params} `{C : Collab X U Obs WInfo MInfo Policy Env}
    (n : pynoise) (t : Z) (s : Sample X U Obs) (hit : bool)
    (s' : Sample X U Obs) (tr : list eventT) : Prop :=
  ∃ x u o lbl relabel tail,
    sX s !! Z.to_nat t = Some x ∧
    tr = [Info (MsgT t); UpdateWorld t; SamplePolicy t x n u o] ++ relabel
         ++ [SetU t lbl; SetO t o; IsCollision t hit] ++ tail ∧
    sU s' = <[Z.to_nat t := lbl]> (sU s) ∧
    sO s' = <[Z.to_nat t := o]> (sO s) ∧
    (if label_with_noise || is_False n
     then lbl = u ∧ relabel = []
     else ∃ o', relabel = [SamplePolicy t x (NoiseObj ZeroNoise) lbl o']) ∧
    (if hit
     then tail = [Warning (MsgCrashed t)] ∧ sX s' = sX s
     else ∃ vis, (vis = [] ∨ vis = [UpdateVisualization t]) ∧
          if t <? T - 1
          then ∃ x' e, x' = (dynamics_evolve x u e).1 ∧
                       tail = [Evolve t x u x'; SetX (t + 1) x'] ++ vis ∧
                       sX s' = <[Z.to_nat (t + 1) := x']> (sX s)
          else tail = vis ∧ sX s' = sX s).

(** The noise kinds [_create_control_noise] knows. *)
Definition noise_type_valid `{P : Params} : Prop :=
  cn_type = "zero" ∨ cn_type = "gaussian" ∨ cn_type = "uniform"
  ∨ lower cn_type = "ou" ∨ lower cn_type = "smoothedgaussian".

(** However [m] ends, the events it adds to the trace all satisfy [Q],
    and the run directory is as it was unless one of them is a change of
    the run directory. *)
Definition emits {A} (Q : eventT → Prop) (m : Mon A) : Prop :=
  ∀ st, ∃ tr, trace (final (m st)) = trace st ++ tr ∧ Forall Q tr ∧
              (Forall (λ e, is_store_event e = false) tr →
               store (final (m st)) = store st).

(** [m] always returns [a], and the calls it makes on the model and
    dataset aggregator are [bc]. *)
Definition calls {A} (m : Mon A) (a : A) (bc : list eventT) : Prop :=
  ∀ st, ∃ st', m st = Ok a st'
               ∧ bootstrap_calls (trace st') = bootstrap_calls (trace st) ++ bc.
End SpecVocabulary.

Section CallsVocabulary.
Context {X U Obs WInfo MInfo Policy Env : Type}.
Context {P : Params} {C : Collab X U Obs WInfo MInfo Policy Env}.
#[local] Abbreviation eventT := (event X U Obs WInfo MInfo Policy).
#[local] Abbreviation SampleT := (Sample X U Obs).

(** The pass of the rollout loop at timestep [t] with the calls it makes
    on the collaborators: the agent answers the executed action [u] and
    the observation [o] to the query with the rollout's noise; the label
    [lbl] is [u], or the agent's answer to a second query with
    [ZeroNoise], made in the state the first query left; the world
    answers [hit] on the sample holding [lbl] and [o] at [t]; the next
    state is the dynamics' answer for the executed action. *)
Definition step_calls (p : Policy) (n : pynoise) (t : Z) (s : SampleT) (hit : bool)
    (s' : SampleT) (tr : list eventT) : Prop :=
  ∃ x u o lbl relabel tail e0 e1 e2 e3,
    sX s !! Z.to_nat t = Some x ∧
    tr = [Info (MsgT t); UpdateWorld t; SamplePolicy t x n u o] ++ relabel
         ++ [SetU t lbl; SetO t o; IsCollision t hit] ++ tail ∧
    sU s' = <[Z.to_nat t := lbl]> (sU s) ∧
    sO s' = <[Z.to_nat t := o]> (sO s) ∧
    agent_sample_policy x p n e0 = ((u, o), e1) ∧
    (if label_with_noise || is_False n
     then lbl = u ∧ relabel = [] ∧ e2 = e1
     else ∃ o', agent_sample_policy x p (NoiseObj ZeroNoise) e1 = ((lbl, o'), e2) ∧
                relabel = [SamplePolicy t x (NoiseObj ZeroNoise) lbl o']) ∧
    world_is_collision (mkSample (sX s) (sU s') (sO s')) t e2 = (hit, e3) ∧
    (if hit
     then tail = [Warning (MsgCrashed t)] ∧ sX s' = sX s
     else ∃ vis, (vis = [] ∨ vis = [UpdateVisualization t]) ∧
          if t <? T - 1
          then ∃ x', x' = (dynamics_evolve x u e3).1 ∧
                     tail = [Evolve t x u x'; SetX (t + 1) x'] ++ vis ∧
                     sX s' = <[Z.to_nat (t + 1) := x']> (sX s)
          else tail = vis ∧ sX s' = sX s).

(** The terminal predicate at timestep [t] of a rollout that returns the
    sample [s] and leaves the events [tr]: the world is asked at [t] about
    a sample that holds, up to [t], the records the rollout returns, and
    its answer [b] is the one the rollout goes by. *)
Definition checked (t : Z) (s : SampleT) (tr : list eventT) (b : bool) : Prop :=
  ∃ s1 e e', world_is_collision s1 t e = (b, e') ∧
             Sample_match 0 (t + 1) s1 = Sample_match 0 (t + 1) s ∧
             IsCollision t b ∈ tr.

(** The terminal predicate answers [b] at timestep [t] on the records of
    [s] up to [t], whatever the state of the world. *)
Definition fires (t : Z) (s : SampleT) (b : bool) : Prop :=
  ∀ s1 e, Sample_match 0 (t + 1) s1 = Sample_match 0 (t + 1) s →
          (world_is_collision s1 t e).1 = b.

(** The event is a query of the agent for timestep [t]. *)
Definition is_query (t : Z) (e : eventT) : bool :=
  match e with
  | SamplePolicy t' _ _ _ _ => bool_decide (t' = t)
  | _ => false
  end.

(** Timestep [t] as a rollout with the controller [p] and the noise [n]
    leaves it in its events [tr] and its sample [s]: the agent is asked
    at the state [x] of the sample at [t] with the rollout's noise, and
    its answer is the executed action [u] and the observation [o]
    written at [t]; the label [lbl] written at [t] is [u] if [same], and
    otherwise the agent's answer to a second query at the same state with
    [ZeroNoise], made in the state the first query left; these are the
    only queries for [t]; if the rollout went on ([advanced]), the state
    at [t + 1] is the dynamics' answer for [x] and the executed [u]. *)
Definition labelled (p : Policy) (n : pynoise) (same : bool) (t : Z) (advanced : bool)
    (s : SampleT) (tr : list eventT) : Prop :=
  ∃ x u o lbl e e1 tr1 relabel tr2,
    tr = tr1 ++ [SamplePolicy t x n u o] ++ relabel ++ [SetU t lbl; SetO t o] ++ tr2 ∧
    Forall (λ ev, is_query t ev = false) (tr1 ++ tr2) ∧
    sX s !! Z.to_nat t = Some x ∧
    sU s !! Z.to_nat t = Some lbl ∧
    sO s !! Z.to_nat t = Some o ∧
    agent_sample_policy x p n e = ((u, o), e1) ∧
    (if same
     then lbl = u ∧ relabel = []
     else ∃ o' e2, agent_sample_policy x p (NoiseObj ZeroNoise) e1 = ((lbl, o'), e2) ∧
                   relabel = [SamplePolicy t x (NoiseObj ZeroNoise) lbl o']) ∧
    (advanced = true →
     ∃ x' e3, x' = (dynamics_evolve x u e3).1 ∧ Evolve t x u x' ∈ tr2 ∧
              sX s !! Z.to_nat (t + 1) = Some x').
End CallsVocabulary.

Section GateVocabulary.
Context {X U Obs WInfo MInfo Policy Env : Type}.
Context {V : Values X U Obs} {P : Params}.
Context {C : Collab X U Obs WInfo MInfo Policy Env}.
#[local] Abbreviation StateT := (State X U Obs WInfo MInfo Policy Env).
#[local] Abbreviation eventT := (event X U Obs WInfo MInfo Policy).
#[local] Abbreviation Mon := (M X U Obs WInfo MInfo Policy Env).

(** The state [st] with the events [es] added to its trace. *)
Definition logged (st : StateT) (es : list eventT) : StateT :=
  mkState (env st) (store st) (trace st ++ es).

(** The samples the gate accepted, in the order of the trace. *)
Definition accepted_samples (tr : list eventT) : list (Sample X U Obs) :=
  omap (λ e, match e with
             | IsGoodRollout s _ v => if truthy v then Some s else None
             | _ => None
             end) tr.

(** The rollouts generated, in the order of the trace: one per answer of
    the gate. *)
Definition generated_samples (tr : list eventT) : list (Sample X U Obs) :=
  omap (λ e, match e with IsGoodRollout s _ _ => Some s | _ => None end) tr.

(** From [st], the slot (cond, rep) of iteration [itr] is tried [k] times
    in a row with a rollout the gate rejects, which leads to [st']. *)
Inductive retried (itr cond rep : Z) : nat → StateT → StateT → Prop :=
  | retried_0 st : retried itr cond rep 0 st st
  | retried_S k st r st1 good st2 st' :
      DaggerPrediction.attempt itr cond rep st = Ok r st1 →
      DaggerPrediction.is_good_rollout (DaggerPrediction.r_sample r)
        (DaggerPrediction.r_t r) st1 = Ok good st2 →
      truthy good = false →
      retried itr cond rep k (logged st2 [Warning MsgNotGood]) st' →
      retried itr cond rep (S k) st st'.

(** Passes of the wait loop that gave no verdict: the shutdown flag is
    read and not set, both signals are read and both or neither is
    asserted, then the loop sleeps 100 ms. *)
Inductive polled : list eventT → Prop :=
  | polled_nil : polled []
  | polled_cons g b tr :
      msg_truthy g = msg_truthy b → polled tr →
      polled ([IsShutdown false; GoodRolloutGet g; BadRolloutGet b; Sleep 100] ++ tr).

(** No finiteness check of the trace has failed. *)
Definition no_failed_check (tr : list eventT) : Prop :=
  ∀ s, IsFinite s false ∉ tr.

(** A failed finiteness check ends [m] by [AssertionError]. *)
Definition failed_check_aborts {A} (m : Mon A) : Prop :=
  ∀ st, no_failed_check (trace st) →
        no_failed_check (trace (final (m st)))
        ∨ ∃ st', m st = Raise AssertionError st'.
End GateVocabulary.

(* ===================================================================== *)
(** * A small simulated robot *)
(* ===================================================================== *)

(** Concrete collaborators on which the engine can be run: states,
    controls and observations are integers, the nominal controller drives
    the state up by one, every noise object but [ZeroNoise] adds 7 to the
    control, the dynamics adds the control to the state (or is the RC
    car's), the world reports a collision at a chosen timestep, and the
    quality gate answers by the number of times it has been asked. *)
Module Scenario.
(** The answers of the quality gate: reject the first [rejects] calls and
    accept afterwards, or always answer [None]. *)
Inductive gate := RejectFirst (rejects : nat) | AnswerNone.

Record Setup := mkSetup {
  s_length : Z;              (* conditions.length *)
  s_repeats : Z;             (* conditions.repeats *)
  s_x0 : Z;                  (* the initial state of every condition *)
  s_crash : option Z;        (* the timestep at which the world reports a collision *)
  s_gate : gate;
  s_rccar : bool             (* the dynamics and the methods of the RC car *)
}.

(** The environment: how often the gate has been asked. *)
Definition Env := nat.

Abbreviation SampleT := (Sample Z Z Z).
Abbreviation StoreT := (Store Z Z Z unit unit).
Abbreviation eventT := (event Z Z Z unit unit unit).
Abbreviation StateT := (State Z Z Z unit unit unit Env).
Abbreviation Mon := (M Z Z Z unit unit unit Env).

(** Values from 1000 on stand for the non-finite ones. *)
#[global] Instance values : Values Z Z Z := {|
  blank_X := -1; blank_U := -1; blank_O := -1;
  finite_X := λ x, x <? 1000; finite_U := λ u, u <? 1000; finite_O := λ o, o <? 1000
|}.

Definition noise_amount (n : pynoise) : Z :=
  match n with
  | PyFalse | NoiseObj ZeroNoise => 0
  | NoiseObj _ => 7
  end.

Definition gate_answer (g : gate) (asked : nat) : option bool :=
  match g with
  | RejectFirst k => Some (bool_decide (k ≤ asked)%nat)
  | AnswerNone => None
  end.

Definition collab (s : Setup) : Collab Z Z Z unit unit unit Env := {|
  conditions_reset := λ e, e;
  conditions_length := s_length s;
  conditions_repeats := s_repeats s;
  conditions_get_cond := λ cond rep e, (s_x0 s, e);
  world_randomize := false;
  world_is_collision := λ sample t e, (bool_decide (s_crash s = Some t), e);
  world_update_visualization := λ sample p t e, e;
  agent_sample_policy := λ x p noise e, ((1 + noise_amount noise, x), e);
  dynamics_evolve := λ x u e,
    (if s_rccar s then DynamicsRCcar.evolve x u (@None unit) (@None unit) (@None unit)
     else x + u, e);
  policy_has_curr_traj := λ p e, false;
  policy_get_info := λ p e, (tt, e);
  _reset_world := λ itr cond rep e, e;
  _update_world := ProbcollRCcar._update_world;
  _is_good_rollout := λ sample t e, (gate_answer (s_gate s) e, S e);
  _create_mpc := λ itr x e, (tt, e);
  _get_world_info := λ e, (tt, e);
  _itr_save_worlds := if s_rccar s then Some ProbcollRCcar._itr_save_worlds else None
|}.

Definition params (max_iter T : Z) (lwn : bool) (init : option string) : Params := {|
  max_iter := max_iter;
  planner_type := primitives;
  T := T;
  label_with_noise := lwn;
  init_epochs := 50;
  init_data := init;
  cn_type := "gaussian";
  bootstrap_epochs := 10;
  os_listdir := λ folder, ["a.npz"; "notes.txt"]
|}.

(** A run directory holding the given checkpoints and samples artifacts. *)
Definition store_with (models samples : list Z) : StoreT :=
  mkStore (list_to_map (((λ i, (model_file i, Blob)) <$> models)
                        ++ ((λ i, (samples_file i, Samples [])) <$> samples)))
          (list_to_set (models ++ samples)).

Definition start (s : StoreT) : StateT := mkState 0%nat s [].

(** The sample [_run_itr] starts a rollout with:
    [Sample(meta_data=params, T=T)] after [set_X(x0, t=0)]. *)
Definition initial_sample `{P : Params} (x0 : Z) : SampleT :=
  default (Sample_new T) (set_X x0 0 (Sample_new T)).

(** The operator's signals: at which poll ROS is shut down, and at which
    polls the 'good' and the 'bad' button are found pressed.  The
    environment counts the polls made. *)
Record Signals := mkSignals {
  shutdown_at : nat; good_at : list nat; bad_at : list nat
}.

Definition ros (sg : Signals) : Ros Env := {|
  agent_sim := false;
  rospy_is_shutdown := λ e, (bool_decide (shutdown_at sg ≤ e)%nat, e);
  good_rollout_callback_get := λ e,
    (if bool_decide (e ∈ good_at sg) then Some EmptyMsg else None, e);
  bad_rollout_callback_get := λ e,
    (if bool_decide (e ∈ bad_at sg) then Some EmptyMsg else None, e);
  rospy_sleep := λ ms e, S e;
  agent_execute_control_None := λ e, e;
  world_reset := λ back_up itr cond rep e, e
|}.

(** How often 'Not good rollout. Repeating rollout.' is logged. *)
Definition count_not_good (tr : list eventT) : nat :=
  length (omap (λ e, match e with Warning MsgNotGood => Some tt | _ => None end) tr).

(** The files present in a store. *)
Definition present (s : StoreT) (f : path) : bool :=
  bool_decide (is_Some (files s !! f)).
(** A controller that plans by sampling: its answer changes from one
    query to the next.  The environment counts the queries made. *)
Definition collab_sampling (s : Setup) : Collab Z Z Z unit unit unit Env := {|
  conditions_reset := λ e, e;
  conditions_length := s_length s;
  conditions_repeats := s_repeats s;
  conditions_get_cond := λ cond rep e, (s_x0 s, e);
  world_randomize := false;
  world_is_collision := λ sample t e, (bool_decide (s_crash s = Some t), e);
  world_update_visualization := λ sample p t e, e;
  agent_sample_policy := λ x p noise e, ((Z.of_nat e + noise_amount noise, x), S e);
  dynamics_evolve := λ x u e, (x + u, e);
  policy_has_curr_traj := λ p e, false;
  policy_get_info := λ p e, (tt, e);
  _reset_world := λ itr cond rep e, e;
  _update_world := ProbcollRCcar._update_world;
  _is_good_rollout := λ sample t e, (Some true, e);
  _create_mpc := λ itr x e, (tt, e);
  _get_world_info := λ e, (tt, e);
  _itr_save_worlds := None
|}.

(** The parameters of [params] with the noise kind [cn]. *)
Definition params_noise (cn : string) (max_iter T : Z) (lwn : bool)
    (init : option string) : Params := {|
  max_iter := max_iter;
  planner_type := primitives;
  T := T;
  label_with_noise := lwn;
  init_epochs := 50;
  init_data := init;
  cn_type := cn;
  bootstrap_epochs := 10;
  os_listdir := λ folder, ["a.npz"; "notes.txt"]
|}.

(** The queries of the agent in a trace, in order: timestep, noise,
    answered action. *)
Definition queries (tr : list eventT) : list (Z * pynoise * Z) :=
  omap (λ e, match e with SamplePolicy t _ n u _ => Some (t, n, u) | _ => None end) tr.

(** The actions the dynamics is given, in order: timestep, action. *)
Definition evolved (tr : list eventT) : list (Z * Z) :=
  omap (λ e, match e with Evolve t _ u _ => Some (t, u) | _ => None end) tr.
End Scenario.

(* ===================================================================== *)
(** * The vocabulary of the further properties *)
(* ===================================================================== *)

Section DirsVocabulary.
Context {X U Obs WInfo MInfo Policy Env : Type}.
#[local] Abbreviation Mon := (M X U Obs WInfo MInfo Policy Env).

(** [m] always returns [a]; it leaves the collaborators and every file
    alone, and the directories it makes are [D]. *)
Definition makes_dirs {A} (m : Mon A) (a : A) (D : gset Z) : Prop :=
  ∀ st, ∃ st', m st = Ok a st' ∧ env st' = env st
               ∧ files (store st') = files (store st)
               ∧ dirs (store st') = D ∪ dirs (store st).
End DirsVocabulary.

(** [sub] occurs in [s]. *)
Definition occurs_in (sub s : string) : Prop := ∃ a b, s = a +:+ sub +:+ b.

(** A file of the run directory, as opposed to one of the init-data
    folder. *)
Definition in_run_directory (p : path) : Prop :=
  match p with init_file _ _ => False | _ => True end.

(** Decimal digits. *)
Definition is_digit (c : ascii) : bool :=
  (48 <=? nat_of_ascii c)%nat && (nat_of_ascii c <=? 57)%nat.

Fixpoint digits (s : string) : Prop :=
  match s with
  | EmptyString => True
  | String c s' => is_digit c = true ∧ digits s'
  end.

(** The characters of a formatted integer. *)
Definition is_numeric (c : ascii) : bool := is_digit c || bool_decide (c = "-"%char).

Fixpoint numeric (s : string) : Prop :=
  match s with
  | EmptyString => True
  | String c s' => is_numeric c = true ∧ numeric s'
  end.

(** The number a string of digits writes. *)
Fixpoint value_go (acc : N) (s : string) : N :=
  match s with
  | EmptyString => acc
  | String c s' => value_go (10 * acc + (N.of_nat (nat_of_ascii c) - 48)) s'
  end%N.
Definition value (s : string) : N := value_go 0 s.

(** [c] does not occur in [s]. *)
Fixpoint without (c : ascii) (s : string) : Prop :=
  match s with
  | EmptyString => True
  | String x s' => x ≠ c ∧ without c s'
  end.

(* ==== THEOREMS ==== *)

Section MonadLemmas.
Context {X U Obs WInfo MInfo Policy Env : Type}.
#[local] Abbreviation Mon := (M X U Obs WInfo MInfo Policy Env).
#[local] Abbreviation StateT := (State X U Obs WInfo MInfo Policy Env).

Lemma bind_unfold {A B} (m : Mon A) (k : A → Mon B) (st : StateT) :
  (m ≫= k) st =
  match m st with
  | Ok a st' => k a st'
  | Raise e st' => Raise e st'
  | OutOfFuel st' => OutOfFuel st'
  end.
Proof. reflexivity. Qed.

Lemma bind_Ok {A B} (m : Mon A) (k : A → Mon B) st a st' :
  m st = Ok a st' → (m ≫= k) st = k a st'.
Proof. intros H. rewrite bind_unfold, H. reflexivity. Qed.

Lemma bind_Ok_inv {A B} (m : Mon A) (k : A → Mon B) st b st' :
  (m ≫= k) st = Ok b st' → ∃ a st1, m st = Ok a st1 ∧ k a st1 = Ok b st'.
Proof.
  rewrite bind_unfold. destruct (m st) as [a st1|e st1|st1]; try discriminate.
  intros H. eauto.
Qed.
End MonadLemmas.

(** Unfolding the monad's operations. *)
Ltac mred :=
  repeat (progress (unfold mbind, M_bind, mret, M_ret, fmap, M_fmap, raise,
                    out_of_fuel, emit, call, call_, reads, get_store,
                    put_store, assert_, read_var, or_IndexError in *;
                    cbn beta iota zeta)).

Section Resolver.
Context {X U Obs WInfo MInfo Policy Env : Type}.
Context {P : Params}.
#[local] Abbreviation StateT' := (State X U Obs WInfo MInfo Policy Env).
Import DaggerPrediction.

Lemma xrange_down_nil start stop : start ≤ stop → xrange_down start stop = [].
Proof.
  intros H. unfold xrange_down.
  replace (Z.to_nat (start - stop)) with 0%nat by lia. reflexivity.
Qed.

Lemma xrange_down_cons start stop :
  stop < start → xrange_down start stop = start :: xrange_down (start - 1) stop.
Proof.
  intros H. unfold xrange_down.
  replace (Z.to_nat (start - stop)) with (S (Z.to_nat (start - 1 - stop))) by lia.
  cbn [seq fmap list_fmap]. f_equal; [lia|].
  rewrite <- fmap_S_seq, <- list_fmap_compose.
  apply list_fmap_ext. intros _ k _. simpl. lia.
Qed.

(** The first scan: the largest index with a checkpoint, or none. *)
Lemma find_model_spec (st : StateT') (k : nat) : ∀ a var,
  Z.to_nat (a + 1) = k → -1 ≤ a →
  (∃ i, 0 ≤ i ≤ a ∧ has_checkpoint (store st) i ∧
        (∀ j, i < j ≤ a → ¬ has_checkpoint (store st) j) ∧
        find_model (xrange_down a (-1)) var st
        = Ok (Some (i + 1), Some (model_file i)) st)
  ∨ ((∀ j, 0 ≤ j ≤ a → ¬ has_checkpoint (store st) j) ∧
     find_model (xrange_down a (-1)) var st
     = Ok (if decide (a = -1) then var else Some 0, None) st).
Proof.
  induction k as [|k IH]; intros a var Hk Ha.
  - assert (a = -1) by lia. subst a. right. split; [intros; lia|].
    rewrite xrange_down_nil by lia. reflexivity.
  - rewrite xrange_down_cons by lia. cbn [find_model].
    unfold _itr_model_file, _itr_dir, checkpoint_exists. mred. simpl.
    destruct (bool_decide (is_Some (files (store st) !! model_file a))) eqn:E.
    + apply bool_decide_eq_true in E. left. exists a.
      split_and!; [lia|lia|exact E|intros; lia|reflexivity].
    + apply bool_decide_eq_false in E.
      destruct (IH (a - 1) (Some a)) as [(i & Hi & Hex & Hlast & Heq)|[Hnone Heq]];
        [lia|lia| |].
      * left. exists i. split_and!; [lia|lia|exact Hex| |exact Heq].
        intros j Hj. destruct (decide (j = a)) as [->|]; [exact E|apply Hlast; lia].
      * right. split.
        -- intros j Hj. destruct (decide (j = a)) as [->|]; [exact E|apply Hnone; lia].
        -- rewrite Heq. destruct (decide (a = -1)); [lia|].
           destruct (decide (a - 1 = -1)) as [Ha0|]; [|reflexivity].
           replace a with 0 by lia. reflexivity.
Qed.

(** The second scan: the same over the samples artifacts. *)
Lemma find_samples_spec (st : StateT') (k : nat) : ∀ a var,
  Z.to_nat (a + 1) = k → -1 ≤ a →
  (∃ i, 0 ≤ i ≤ a ∧ has_samples (store st) i ∧
        (∀ j, i < j ≤ a → ¬ has_samples (store st) j) ∧
        find_samples (xrange_down a (-1)) var st = Ok (Some (i + 1)) st)
  ∨ ((∀ j, 0 ≤ j ≤ a → ¬ has_samples (store st) j) ∧
     find_samples (xrange_down a (-1)) var st
     = Ok (if decide (a = -1) then var else Some 0) st).
Proof.
  induction k as [|k IH]; intros a var Hk Ha.
  - assert (a = -1) by lia. subst a. right. split; [intros; lia|].
    rewrite xrange_down_nil by lia. reflexivity.
  - rewrite xrange_down_cons by lia. cbn [find_samples].
    unfold _itr_samples_file, _itr_dir, os_path_exists. mred. simpl.
    destruct (bool_decide (is_Some (files (store st) !! samples_file a))) eqn:E.
    + apply bool_decide_eq_true in E. left. exists a.
      split_and!; [lia|lia|exact E|intros; lia|reflexivity].
    + apply bool_decide_eq_false in E.
      destruct (IH (a - 1) (Some a)) as [(i & Hi & Hex & Hlast & Heq)|[Hnone Heq]];
        [lia|lia| |].
      * left. exists i. split_and!; [lia|lia|exact Hex| |exact Heq].
        intros j Hj. destruct (decide (j = a)) as [->|]; [exact E|apply Hlast; lia].
      * right. split.
        -- intros j Hj. destruct (decide (j = a)) as [->|]; [exact E|apply Hnone; lia].
        -- rewrite Heq. destruct (decide (a = -1)); [lia|].
           destruct (decide (a - 1 = -1)) as [Ha0|]; [|reflexivity].
           replace a with 0 by lia. reflexivity.
Qed.

Lemma within_one_spec m s :
  within_one m s = true ↔ m = s ∨ m = s - 1 ∨ (m = 1 ∧ s = 0).
Proof. unfold within_one. rewrite !orb_true_iff, andb_true_iff, !Z.eqb_eq. tauto. Qed.

Lemma resume_point_unique (ex : Z → Prop) n m m' :
  resume_point ex n m → resume_point ex n m' → m = m'.
Proof.
  intros [(i & Hi & Hex & Hl & ->)|[Hn ->]] [(i' & Hi' & Hex' & Hl' & ->)|[Hn' ->]].
  - destruct (Z.lt_trichotomy i i') as [?|[?|?]]; [|lia|].
    + exfalso. apply (Hl i'); [lia|exact Hex'].
    + exfalso. apply (Hl' i); [lia|exact Hex].
  - exfalso. apply (Hn' i); [lia|exact Hex].
  - exfalso. apply (Hn i'); [lia|exact Hex'].
  - reflexivity.
Qed.

(** What [resolve] returns on any run directory, for [max_iter > 0]. *)
Lemma resolve_spec (st : StateT') :
  0 < max_iter →
  ∃ m s,
    resume_point (has_checkpoint (store st)) max_iter m ∧
    resume_point (has_samples (store st)) max_iter s ∧
    resolve st =
      if within_one m s
      then Ok (mkResume m s (if decide (m = 0) then None else Some (model_file (m - 1)))) st
      else Raise AssertionError st.
Proof.
  intros Hmax. unfold resolve.
  destruct (find_model_spec st (Z.to_nat max_iter) (max_iter - 1) None)
    as [(i & Hi & Hex & Hlast & Heq)|[Hnone Heq]]; [lia|lia| |];
  destruct (find_samples_spec st (Z.to_nat max_iter) (max_iter - 1) None)
    as [(i' & Hi' & Hex' & Hlast' & Heq')|[Hnone' Heq']]; try lia.
  - exists (i + 1), (i' + 1). split; [|split].
    + left. exists i. split_and!; [lia|lia|exact Hex| |reflexivity]. intros; apply Hlast; lia.
    + left. exists i'. split_and!; [lia|lia|exact Hex'| |reflexivity]. intros; apply Hlast'; lia.
    + rewrite (bind_Ok _ _ _ _ _ Heq), (bind_Ok _ _ _ _ _ Heq'). mred. simpl.
      destruct (decide (i + 1 = 0)); [lia|]. replace (i + 1 - 1) with i by lia.
      destruct (within_one (i + 1) (i' + 1)); reflexivity.
  - exists (i + 1), 0. split; [|split].
    + left. exists i. split_and!; [lia|lia|exact Hex| |reflexivity]. intros; apply Hlast; lia.
    + right. split; [|reflexivity]. intros; apply Hnone'; lia.
    + rewrite (bind_Ok _ _ _ _ _ Heq), (bind_Ok _ _ _ _ _ Heq'). mred. simpl.
      destruct (decide (max_iter - 1 = -1)); [lia|]. simpl.
      destruct (decide (i + 1 = 0)); [lia|]. replace (i + 1 - 1) with i by lia.
      destruct (within_one (i + 1) 0); reflexivity.
  - exists 0, (i' + 1). split; [|split].
    + right. split; [|reflexivity]. intros; apply Hnone; lia.
    + left. exists i'. split_and!; [lia|lia|exact Hex'| |reflexivity]. intros; apply Hlast'; lia.
    + rewrite (bind_Ok _ _ _ _ _ Heq), (bind_Ok _ _ _ _ _ Heq'). mred. simpl.
      destruct (decide (max_iter - 1 = -1)); [lia|]. simpl.
      destruct (within_one 0 (i' + 1)); reflexivity.
  - exists 0, 0. split; [|split].
    + right. split; [|reflexivity]. intros; apply Hnone; lia.
    + right. split; [|reflexivity]. intros; apply Hnone'; lia.
    + rewrite (bind_Ok _ _ _ _ _ Heq), (bind_Ok _ _ _ _ _ Heq'). mred. simpl.
      destruct (decide (max_iter - 1 = -1)); [lia|]. reflexivity.
Qed.
End Resolver.

Section ResolverClaim.
Context {X U Obs WInfo MInfo Policy Env : Type}.
Context {P : Params}.
Import DaggerPrediction.

(** C1. For every run directory and every [max_iter > 0], the resolver
    sets [model_start_itr] to one plus the largest index in
    [0, max_iter-1] at which a model checkpoint exists (0, with no
    checkpoint to load, if there is none), sets [samples_start_itr] to one
    plus the largest index at which a samples artifact exists (0 if there
    is none), and then raises [AssertionError] unless the first equals the
    second, or the second minus one, or the pair is (1, 0).  In
    particular, with checkpoints at 0, 1, 2 and samples at 0, 1, 2, 3 (and
    a scan that reaches them, [max_iter >= 4]) the pair is (3, 4). *)
Theorem C1_resolver (st : State X U Obs WInfo MInfo Policy Env) :
  0 < max_iter →
  (∃ m s,
     resume_point (has_checkpoint (store st)) max_iter m ∧
     resume_point (has_samples (store st)) max_iter s ∧
     (m = s ∨ m = s - 1 ∨ (m = 1 ∧ s = 0) →
      resolve st = Ok (mkResume m s (if decide (m = 0) then None
                                     else Some (model_file (m - 1)))) st) ∧
     (¬ (m = s ∨ m = s - 1 ∨ (m = 1 ∧ s = 0)) →
      resolve st = Raise AssertionError st))
  ∧ (4 ≤ max_iter →
     (∀ i, has_checkpoint (store st) i ↔ 0 ≤ i ≤ 2) →
     (∀ i, has_samples (store st) i ↔ 0 ≤ i ≤ 3) →
     resolve st = Ok (mkResume 3 4 (Some (model_file 2))) st).
Proof.
  intros Hmax. destruct (resolve_spec st Hmax) as (m & s & Hm & Hs & Heq).
  split.
  - exists m, s. split_and!; [exact Hm|exact Hs| |].
    + intros H. apply within_one_spec in H. rewrite H in Heq. exact Heq.
    + intros H. rewrite <- within_one_spec in H.
      destruct (within_one m s); [congruence|exact Heq].
  - intros H4 Hck Hsa.
    assert (m = 3) as ->.
    { apply (resume_point_unique _ _ _ _ Hm). left. exists 2.
      split_and!; [lia|lia|apply Hck; lia| |reflexivity].
      intros j Hj Hc. apply Hck in Hc. lia. }
    assert (s = 4) as ->.
    { apply (resume_point_unique _ _ _ _ Hs). left. exists 3.
      split_and!; [lia|lia|apply Hsa; lia| |reflexivity].
      intros j Hj Hc. apply Hsa in Hc. lia. }
    exact Heq.
Qed.
End ResolverClaim.

Lemma store_with_checkpoint models samples i :
  has_checkpoint (Scenario.store_with models samples) i ↔ i ∈ models.
Proof.
  unfold has_checkpoint, Scenario.store_with. simpl.
  rewrite <- elem_of_dom, dom_list_to_map_L, fmap_app, <- !list_fmap_compose.
  rewrite elem_of_list_to_set, elem_of_app, !list_elem_of_fmap. split.
  - intros [(j & Hj & Hin)|(j & Hj & Hin)]; simpl in Hj; congruence.
  - intros Hin. left. exists i. split; [reflexivity|exact Hin].
Qed.

Lemma store_with_samples models samples i :
  has_samples (Scenario.store_with models samples) i ↔ i ∈ samples.
Proof.
  unfold has_samples, Scenario.store_with. simpl.
  rewrite <- elem_of_dom, dom_list_to_map_L, fmap_app, <- !list_fmap_compose.
  rewrite elem_of_list_to_set, elem_of_app, !list_elem_of_fmap. split.
  - intros [(j & Hj & Hin)|(j & Hj & Hin)]; simpl in Hj; congruence.
  - intros Hin. right. exists i. split; [reflexivity|exact Hin].
Qed.

Lemma elem_of_xrange2 lo hi i : i ∈ xrange2 lo hi ↔ lo ≤ i < hi.
Proof.
  unfold xrange2. rewrite list_elem_of_fmap. split.
  - intros (k & -> & Hk). apply elem_of_seq in Hk. lia.
  - intros H. exists (Z.to_nat (i - lo)). split; [lia|]. apply elem_of_seq. lia.
Qed.

(** C1 at [max_iter = 5], checkpoints at 0..2 and samples at 0..3. *)
Lemma C1_resolver_witness :
  let P := Scenario.params 5 3 false None in
  let st := Scenario.start (Scenario.store_with (xrange 3) (xrange 4)) in
  DaggerPrediction.resolve st
  = Ok (DaggerPrediction.mkResume 3 4 (Some (model_file 2))) st.
Proof.
  intros P st.
  refine (proj2 (C1_resolver (P:=P) st _) _ _ _).
  - simpl. lia.
  - simpl. lia.
  - intros i. unfold st, Scenario.start. cbn [store].
    rewrite store_with_checkpoint. unfold xrange.
    rewrite elem_of_xrange2. lia.
  - intros i. unfold st, Scenario.start. cbn [store].
    rewrite store_with_samples. unfold xrange.
    rewrite elem_of_xrange2. lia.
Defined.


Section TraceLemmas.
Context {X U Obs WInfo MInfo Policy Env : Type}.
#[local] Abbreviation Mon := (M X U Obs WInfo MInfo Policy Env).
#[local] Abbreviation eventT := (event X U Obs WInfo MInfo Policy).
Implicit Types Q : eventT → Prop.

Lemma emits_ret {A} Q (a : A) : emits Q (mret a : Mon A).
Proof. intros st. exists []. split_and!; [symmetry; apply app_nil_r|constructor|done]. Qed.

Lemma emits_raise {A} Q e : emits Q (raise e : Mon A).
Proof. intros st. exists []. split_and!; [symmetry; apply app_nil_r|constructor|done]. Qed.

Lemma emits_out_of_fuel {A} Q : emits Q (out_of_fuel : Mon A).
Proof. intros st. exists []. split_and!; [symmetry; apply app_nil_r|constructor|done]. Qed.

Lemma emits_emit Q e : Q e → emits Q (emit e : Mon unit).
Proof.
  intros H st. exists [e]. split_and!; [reflexivity|repeat constructor; exact H|done].
Qed.

Lemma emits_call {A} Q (f : Env → A * Env) : emits Q (call f : Mon A).
Proof.
  intros st. exists []. unfold call. destruct (f (env st)).
  split_and!; [symmetry; apply app_nil_r|constructor|done].
Qed.

Lemma emits_call_ Q (f : Env → Env) : emits Q (call_ f : Mon unit).
Proof. intros st. exists []. split_and!; [symmetry; apply app_nil_r|constructor|done]. Qed.

Lemma emits_reads {A} Q (f : Env → A) : emits Q (reads f : Mon A).
Proof. intros st. exists []. split_and!; [symmetry; apply app_nil_r|constructor|done]. Qed.

Lemma emits_get_store Q : emits Q (get_store : Mon _).
Proof. intros st. exists []. split_and!; [symmetry; apply app_nil_r|constructor|done]. Qed.

(** A change of the run directory comes with its event. *)
Lemma emits_put_emit Q s e :
  Q e → is_store_event e = true → emits Q (put_store s;; emit e : Mon unit).
Proof.
  intros H Hs st. exists [e]. split_and!; [reflexivity|repeat constructor; exact H|].
  intros HF. apply Forall_cons in HF as [HF _]. congruence.
Qed.

Lemma emits_bind {A B} Q (m : Mon A) (k : A → Mon B) :
  emits Q m → (∀ a, emits Q (k a)) → emits Q (m ≫= k).
Proof.
  intros Hm Hk st. destruct (Hm st) as (tr1 & E1 & F1 & S1). rewrite bind_unfold.
  destruct (m st) as [a st1|e st1|st1]; simpl in E1, S1.
  - destruct (Hk a st1) as (tr2 & E2 & F2 & S2). exists (tr1 ++ tr2).
    rewrite E2, E1, app_assoc. split_and!; [reflexivity|apply Forall_app; auto|].
    intros HF. apply Forall_app in HF as [HF1 HF2]. rewrite S2, S1; auto.
  - exists tr1. auto.
  - exists tr1. auto.
Qed.

Lemma emits_fmap {A B} Q (f : A → B) (m : Mon A) : emits Q m → emits Q (f <$> m).
Proof. intros H. apply emits_bind; [exact H|intros; apply emits_ret]. Qed.

Lemma emits_assert Q b : emits Q (assert_ b : Mon unit).
Proof. destruct b; [apply emits_ret|apply emits_raise]. Qed.

Lemma emits_read_var Q v : emits Q (read_var v : Mon Z).
Proof. destruct v; [apply emits_ret|apply emits_raise]. Qed.

Lemma emits_or_IndexError {A} Q (r : option A) : emits Q (or_IndexError r : Mon A).
Proof. destruct r; [apply emits_ret|apply emits_raise]. Qed.

Lemma emits_weaken {A} Q Q' (m : Mon A) :
  (∀ e, Q e → Q' e) → emits Q m → emits Q' m.
Proof.
  intros HQ H st. destruct (H st) as (tr & E & F & S'). exists tr.
  split_and!; [exact E| |exact S']. eapply Forall_impl; eauto.
Qed.

Lemma bootstrap_calls_quiet (tr : list eventT) :
  Forall (λ e, is_bootstrap_call e = false) tr → bootstrap_calls tr = [].
Proof.
  induction 1 as [|e tr He _ IH]; [reflexivity|].
  unfold bootstrap_calls in *. simpl. rewrite He. exact IH.
Qed.

Lemma bootstrap_calls_app (tr1 tr2 : list eventT) :
  bootstrap_calls (tr1 ++ tr2) = bootstrap_calls tr1 ++ bootstrap_calls tr2.
Proof. apply omap_app. Qed.

Lemma calls_ret {A} (a : A) : calls (mret a : Mon A) a [].
Proof. intros st. exists st. split; [reflexivity|symmetry; apply app_nil_r]. Qed.

Lemma calls_emit (e : eventT) :
  calls (emit e : Mon unit) tt (if is_bootstrap_call e then [e] else []).
Proof.
  intros st. eexists. split; [reflexivity|]. cbn [trace].
  rewrite bootstrap_calls_app. f_equal. unfold bootstrap_calls. simpl.
  destruct (is_bootstrap_call e); reflexivity.
Qed.

Lemma calls_bind {A B} (m : Mon A) (k : A → Mon B) a b bc1 bc2 :
  calls m a bc1 → calls (k a) b bc2 → calls (m ≫= k) b (bc1 ++ bc2).
Proof.
  intros Hm Hk st. destruct (Hm st) as (st1 & E1 & T1).
  destruct (Hk st1) as (st2 & E2 & T2).
  exists st2. rewrite (bind_Ok _ _ _ _ _ E1).
  split; [exact E2|rewrite T2, T1, app_assoc; reflexivity].
Qed.

Lemma calls_bind_nil {A B} (m : Mon A) (k : A → Mon B) a b bc :
  calls m a [] → calls (k a) b bc → calls (m ≫= k) b bc.
Proof. intros Hm Hk. apply (calls_bind _ _ _ _ _ _ Hm Hk). Qed.

Lemma calls_fmap {A B} (f : A → B) (m : Mon A) a bc :
  calls m a bc → calls (f <$> m) (f a) bc.
Proof.
  intros H. rewrite <- (app_nil_r bc). eapply calls_bind; [exact H|apply calls_ret].
Qed.

Lemma calls_mapM {A B} (f : A → Mon B) (g : A → B) (l : list A) :
  (∀ a, calls (f a) (g a) []) → calls (mapM f l) (g <$> l) [].
Proof.
  intros H. induction l as [|a l IH]; simpl.
  - apply calls_ret.
  - eapply calls_bind_nil; [apply H|]. eapply calls_bind_nil; [apply IH|].
    apply calls_ret.
Qed.

End TraceLemmas.

Section Prologue.
Context {X U Obs WInfo MInfo Policy Env : Type}.
Context {V : Values X U Obs} {P : Params}.
Context {C : Collab X U Obs WInfo MInfo Policy Env}.
#[local] Abbreviation Mon := (M X U Obs WInfo MInfo Policy Env).
#[local] Abbreviation StateT := (State X U Obs WInfo MInfo Policy Env).
Import DaggerPrediction.

Lemma calls_itr_dir itr create : calls (_itr_dir itr create : Mon unit) tt [].
Proof.
  intros st. unfold _itr_dir. destruct create; simpl.
  - mred. destruct (decide (itr ∈ dirs (store st))).
    + exists st. split; [reflexivity|symmetry; apply app_nil_r].
    + eexists. split; [reflexivity|]. cbn [trace].
      rewrite bootstrap_calls_app. reflexivity.
  - exists st. split; [reflexivity|symmetry; apply app_nil_r].
Qed.

Lemma calls_itr_samples_file itr create :
  calls (_itr_samples_file itr create : Mon path) (samples_file itr) [].
Proof. eapply calls_bind_nil; [apply calls_itr_dir|apply calls_ret]. Qed.

Lemma calls_itr_model_file itr create :
  calls (_itr_model_file itr create : Mon path) (model_file itr) [].
Proof. eapply calls_bind_nil; [apply calls_itr_dir|apply calls_ret]. Qed.

Lemma catch_up_spec m s :
  catch_up m s = true ↔ m = s - 1 ∨ (s = 0 ∧ m = 0 ∧ init_data ≠ None).
Proof.
  unfold catch_up.
  rewrite orb_true_iff, !andb_true_iff, !Z.eqb_eq, bool_decide_eq_true. tauto.
Qed.

(** The calls of [resume] after [resolve]. *)
Lemma resume_calls (st : StateT) r :
  resolve st = Ok r st →
  let m := model_start_itr r in
  let s := samples_start_itr r in
  ∃ st',
    resume st = Ok s st' ∧
    bootstrap_calls (trace st') =
      bootstrap_calls (trace st)
      ++ (match resume_model_file r with Some f => [Load f] | None => [] end
          ++ (if s >? 0 then [AddData (samples_file <$> xrange s)] else [])
          ++ match init_data with
             | Some d => [AddData (init_file d <$> filter (λ f, str_in ".npz" f = true)
                                                          (os_listdir d))]
             | None => []
             end
          ++ (if catch_up m s
              then [Train (if s <=? 0 then None else Some (model_file m))
                          (model_file m) bootstrap_epochs]
              else [])).
Proof.
  intros Hres m s. unfold resume. rewrite (bind_Ok _ _ _ _ _ Hres).
  fold m s.
  match goal with |- ∃ st', ?c st = _ ∧ _ => cut (calls (c : Mon Z) s
    (match resume_model_file r with Some f => [Load f] | None => [] end
          ++ (if s >? 0 then [AddData (samples_file <$> xrange s)] else [])
          ++ match init_data with
             | Some d => [AddData (init_file d <$> filter (λ f, str_in ".npz" f = true)
                                                          (os_listdir d))]
             | None => []
             end
          ++ (if catch_up m s
              then [Train (if s <=? 0 then None else Some (model_file m))
                          (model_file m) bootstrap_epochs]
              else []))) end.
  { intros H. apply H. }
  eapply calls_bind.
  { destruct (resume_model_file r) as [f|].
    - eapply calls_bind_nil; [apply (calls_emit (Info _))|apply (calls_emit (Load f))].
    - apply calls_ret. }
  eapply calls_bind.
  { destruct (s >? 0).
    - eapply calls_bind_nil.
      + apply (calls_mapM _ samples_file). intros; apply calls_itr_samples_file.
      + apply (calls_emit (AddData _)).
    - apply calls_ret. }
  eapply calls_bind.
  { destruct init_data as [d|].
    - eapply calls_bind_nil; [apply (calls_emit (Info _))|].
      eapply calls_bind_nil; [apply calls_itr_samples_file|].
      eapply calls_bind_nil.
      + apply (calls_mapM _ (λ _, tt)). intros; apply (calls_emit (Info _)).
      + apply (calls_emit (AddData _)).
    - apply calls_ret. }
  rewrite <- (app_nil_r (if catch_up m s then _ else _)).
  eapply calls_bind; [|apply calls_ret].
  destruct (catch_up m s).
  - eapply (calls_bind_nil _ _ (if s <=? 0 then None else Some (model_file m))).
    + destruct (s <=? 0); [apply calls_ret|].
      apply (calls_fmap Some). apply calls_itr_model_file.
    + eapply calls_bind_nil; [apply calls_itr_model_file|].
      apply (calls_emit (Train _ _ _)).
  - apply calls_ret.
Qed.

(** C2, amended. After a consistent resume state (model_start_itr,
    samples_start_itr), a catch-up training step runs before the training
    loop starts if and only if model_start_itr = samples_start_itr - 1, or
    both are 0 and an init dataset is configured; when it runs it is the
    last call of the prologue on the aggregator, after the previous and
    initial data were added, it writes the checkpoint file of iteration
    model_start_itr and uses the standard epoch count. *)
Theorem C2_catch_up (fuel : nat) (st : StateT) r :
  resolve st = Ok r st →
  let m := model_start_itr r in
  let s := samples_start_itr r in
  let data :=
    match resume_model_file r with Some f => [Load f] | None => [] end
    ++ (if s >? 0 then [AddData (samples_file <$> xrange s)] else [])
    ++ match init_data with
       | Some d => [AddData (init_file d <$> filter (λ f, str_in ".npz" f = true)
                                                    (os_listdir d))]
       | None => []
       end in
  ∃ st',
    resume st = Ok s st' ∧
    run fuel st = training_loop fuel (xrange2 s max_iter) st' ∧
    ((m = s - 1 ∨ (s = 0 ∧ m = 0 ∧ init_data ≠ None)) →
     bootstrap_calls (trace st') =
       bootstrap_calls (trace st) ++ data
       ++ [Train (if s <=? 0 then None else Some (model_file m))
                 (model_file m) bootstrap_epochs]) ∧
    (¬ (m = s - 1 ∨ (s = 0 ∧ m = 0 ∧ init_data ≠ None)) →
     bootstrap_calls (trace st') = bootstrap_calls (trace st) ++ data).
Proof.
  intros Hres m s data.
  destruct (resume_calls st r Hres) as (st' & Hr & Hb). fold m s in Hr, Hb.
  exists st'. split_and!.
  - exact Hr.
  - unfold run. rewrite (bind_Ok _ _ _ _ _ Hr). reflexivity.
  - intros H. apply catch_up_spec in H. rewrite H in Hb. rewrite Hb.
    unfold data. rewrite <- !app_assoc. reflexivity.
  - intros H. rewrite <- catch_up_spec in H.
    destruct (catch_up m s); [congruence|]. rewrite Hb.
    unfold data. rewrite app_nil_r. reflexivity.
Qed.
End Prologue.

(** Decomposing a goal [emits Q m] along the structure of [m]. *)
Ltac emits_step :=
  lazymatch goal with
  | |- emits _ (mbind (λ _, emit _) (put_store _)) => apply emits_put_emit
  | |- emits _ (mbind _ _) => apply emits_bind; [|intros ?]
  | |- emits _ (fmap _ _) => apply emits_fmap
  | |- emits _ (mret _) => apply emits_ret
  | |- emits _ (raise _) => apply emits_raise
  | |- emits _ out_of_fuel => apply emits_out_of_fuel
  | |- emits _ (emit _) => apply emits_emit
  | |- emits _ (call _) => apply emits_call
  | |- emits _ (call_ _) => apply emits_call_
  | |- emits _ (reads _) => apply emits_reads
  | |- emits _ get_store => apply emits_get_store
  | |- emits _ (assert_ _) => apply emits_assert
  | |- emits _ (read_var _) => apply emits_read_var
  | |- emits _ (or_IndexError _) => apply emits_or_IndexError
  | |- emits _ (if ?b then _ else _) => destruct b
  | |- emits _ (match ?x with _ => _ end) => destruct x
  end.

Section RunItrEmits.
Context {X U Obs WInfo MInfo Policy Env : Type}.
Context {V : Values X U Obs} {P : Params}.
Context {C : Collab X U Obs WInfo MInfo Policy Env}.
#[local] Abbreviation Mon := (M X U Obs WInfo MInfo Policy Env).
#[local] Abbreviation StateT := (State X U Obs WInfo MInfo Policy Env).
#[local] Abbreviation eventT := (event X U Obs WInfo MInfo Policy).
Import DaggerPrediction.

Lemma emits_rollout_step p n t s :
  emits attempt_event (rollout_step p n t s : Mon _).
Proof.
  unfold rollout_step, update_world, Sample_get_X, sample_policy, Sample_set_U,
    Sample_set_O, Sample_set_X, is_collision, evolve, update_visualization.
  repeat emits_step; done.
Qed.

Lemma emits_rollout_for p n ts : ∀ v s,
  emits attempt_event (rollout_for p n ts v s : Mon _).
Proof.
  induction ts as [|t ts IH]; intros v s; cbn [rollout_for].
  - repeat emits_step; done.
  - apply emits_bind; [apply emits_rollout_step|]. intros [b s'].
    destruct b; cbn [fst snd]; [apply emits_ret|apply IH].
Qed.

Lemma emits_create_control_noise :
  emits attempt_event (_create_control_noise : Mon _).
Proof. unfold _create_control_noise. repeat emits_step. Qed.

Lemma emits_attempt itr cond rep :
  emits attempt_event (attempt itr cond rep : Mon _).
Proof.
  unfold attempt, rollout, reset_world, get_cond, Sample_set_X, create_mpc,
    get_world_info, get_info.
  repeat (first [apply emits_rollout_for|apply emits_create_control_noise|emits_step]);
    done.
Qed.

Lemma emits_while_rep fuel itr cond : ∀ rep acc,
  emits collection_event (while_rep fuel itr cond rep acc : Mon _).
Proof.
  induction fuel as [|fuel IH]; intros rep acc; cbn [while_rep].
  - apply emits_out_of_fuel.
  - unfold is_good_rollout, samples_last, Sample_isfinite.
    repeat (first [apply IH
                  |eapply emits_weaken; [|apply emits_attempt]; intros ? (? & ? & _); done
                  |emits_step]); done.
Qed.

Lemma emits_for_cond fuel itr conds : ∀ acc,
  emits collection_event (for_cond fuel itr conds acc : Mon _).
Proof.
  induction conds as [|c conds IH]; intros acc; cbn [for_cond].
  - apply emits_ret.
  - apply emits_bind; [apply emits_while_rep|apply IH].
Qed.

Lemma emits_collect fuel itr : emits collection_event (collect fuel itr : Mon _).
Proof.
  unfold collect. repeat (first [apply emits_for_cond|emits_step]); done.
Qed.

Lemma emits_itr_dir (Q : eventT → Prop) itr create :
  (∀ s, Q (Makedirs itr s)) → emits Q (_itr_dir itr create : Mon _).
Proof. intros HQ. unfold _itr_dir. repeat emits_step; first [apply HQ|reflexivity]. Qed.

Lemma emits_persist itr acc :
  emits (λ e, is_bootstrap_call e = false) (persist itr acc : Mon _).
Proof.
  unfold persist, _itr_save_samples, _itr_samples_file, save_worlds,
    itr_save_worlds, _itr_save_mpcs, write_file, reset_world.
  repeat (first [apply emits_itr_dir; intros|emits_step]); done.
Qed.

Lemma emits_run_itr fuel itr :
  emits (λ e, is_bootstrap_call e = false) (_run_itr fuel itr : Mon _).
Proof.
  unfold _run_itr. apply emits_bind.
  - eapply emits_weaken; [|apply emits_collect]. intros e [H _]. exact H.
  - intros acc. apply emits_persist.
Qed.
End RunItrEmits.

Section TrainingLoop.
Context {X U Obs WInfo MInfo Policy Env : Type}.
Context {V : Values X U Obs} {P : Params}.
Context {C : Collab X U Obs WInfo MInfo Policy Env}.
#[local] Abbreviation Mon := (M X U Obs WInfo MInfo Policy Env).
#[local] Abbreviation StateT := (State X U Obs WInfo MInfo Policy Env).
#[local] Abbreviation eventT := (event X U Obs WInfo MInfo Policy).
Import DaggerPrediction.

(** What follows [_run_itr] in the loop body always returns, with the
    iteration's calls. *)
Lemma calls_after_run_itr itr :
  calls (if (itr =? 0) && false then
           f ← _itr_model_file itr true; bootstrap_save f
         else if decide (planner_type ≠ randomwalk) then
           emit (Info (MsgItrAddingData itr));;
           f ← _itr_samples_file itr true;
           bootstrap_add_data [f];;
           emit (Info (MsgItrTraining itr));;
           old_model_file ← _itr_model_file (itr - 1) true;
           new_model_file ← _itr_model_file itr true;
           bootstrap_train (Some old_model_file) new_model_file
             (if itr >? 1 then bootstrap_epochs else init_epochs)
         else mret tt : Mon unit) tt (iteration_calls itr).
Proof.
  rewrite andb_false_r. unfold iteration_calls.
  destruct (decide (planner_type ≠ randomwalk)); [|apply calls_ret].
  eapply calls_bind_nil; [apply (calls_emit (Info _))|].
  eapply calls_bind_nil; [apply calls_itr_samples_file|].
  eapply (calls_bind _ _ _ _ [_] [_]); [apply (calls_emit (AddData _))|].
  eapply calls_bind_nil; [apply (calls_emit (Info _))|].
  eapply calls_bind_nil; [apply calls_itr_model_file|].
  eapply calls_bind_nil; [apply calls_itr_model_file|].
  apply (calls_emit (Train _ _ _)).
Qed.

(** One pass of the loop body: it either returns, having made the
    iteration's calls, or stops inside [_run_itr], having made none. *)
Lemma train_itr_calls fuel itr (st : StateT) :
  (∃ st', train_itr fuel itr st = Ok tt st' ∧
          bootstrap_calls (trace st') = bootstrap_calls (trace st) ++ iteration_calls itr)
  ∨ ((∀ st', train_itr fuel itr st ≠ Ok tt st') ∧
     bootstrap_calls (trace (final (train_itr fuel itr st))) = bootstrap_calls (trace st)).
Proof.
  unfold train_itr. repeat (rewrite bind_unfold; cbn [emit]).
  match goal with |- context [_run_itr fuel itr ?s] => set (st1 := s) end.
  assert (bootstrap_calls (trace st1) = bootstrap_calls (trace st)) as H1.
  { unfold st1. cbn [trace]. rewrite !bootstrap_calls_app, !app_nil_r. reflexivity. }
  destruct (emits_run_itr fuel itr st1) as (tr & Htr & Hq & _).
  apply bootstrap_calls_quiet in Hq.
  destruct (_run_itr fuel itr st1) as [[] st2|e st2|st2]; cbn [final] in Htr.
  - left. destruct (calls_after_run_itr itr st2) as (st' & E & T').
    exists st'. split; [exact E|].
    rewrite T', Htr, bootstrap_calls_app, Hq, app_nil_r, H1. reflexivity.
  - right. split; [discriminate|]. cbn [final].
    rewrite Htr, bootstrap_calls_app, Hq, app_nil_r, H1. reflexivity.
  - right. split; [discriminate|]. cbn [final].
    rewrite Htr, bootstrap_calls_app, Hq, app_nil_r, H1. reflexivity.
Qed.

(** C3, amended. In the training loop every iteration itr that trains
    (any planner but the random walk) adds the iteration's samples and
    runs one training step that produces checkpoint itr, seeded from
    checkpoint itr-1; the epoch count of that step is the init-epochs
    setting when itr <= 1 and the standard per-iteration count when
    itr >= 2.  However the loop ends, the aggregator has been called for
    the iterations completed, in order, and for all of them if the loop
    returns. *)
Theorem C3_training_epochs (fuel : nat) (itrs : list Z) (st : StateT) :
  ∃ completed,
    completed `prefix_of` itrs ∧
    bootstrap_calls (trace (final (training_loop fuel itrs st)))
    = bootstrap_calls (trace st) ++ (completed ≫= iteration_calls) ∧
    (∀ st', training_loop fuel itrs st = Ok tt st' → completed = itrs).
Proof.
  revert st. induction itrs as [|itr itrs IH]; intros st; cbn [training_loop].
  - exists []. split_and!; [reflexivity|symmetry; apply app_nil_r|reflexivity].
  - rewrite bind_unfold.
    destruct (train_itr_calls fuel itr st) as [(st1 & E & T1)|[Hno T1]].
    + rewrite E. destruct (IH st1) as (completed & Hp & Hb & Hall).
      exists (itr :: completed). split_and!.
      * apply prefix_cons. exact Hp.
      * rewrite Hb, T1, bind_cons, app_assoc. reflexivity.
      * intros st' H. f_equal. eapply Hall. exact H.
    + exists []. split_and!.
      * apply prefix_nil.
      * destruct (train_itr fuel itr st) as [[] st1|e st1|st1];
          [exfalso; eapply Hno; reflexivity| |];
          cbn [final] in *; rewrite T1; symmetry; apply app_nil_r.
      * intros st' H.
        destruct (train_itr fuel itr st) as [[] st1|e st1|st1];
          [exfalso; eapply Hno; reflexivity|discriminate|discriminate].
Qed.
End TrainingLoop.

(** C2 on the run directory of C1: the catch-up step runs and trains into
    checkpoint 3. *)
Lemma C2_catch_up_witness :
  let P := Scenario.params 5 3 false None in
  let C := Scenario.collab (Scenario.mkSetup 1 1 0 None (Scenario.RejectFirst 0) false) in
  let st := Scenario.start (Scenario.store_with (xrange 3) (xrange 4)) in
  ∃ st', DaggerPrediction.resume st = Ok 4 st' ∧
         bootstrap_calls (trace st')
         = [Load (model_file 2); AddData (samples_file <$> xrange 4);
            Train (Some (model_file 3)) (model_file 3) 10].
Proof.
  intros P C st.
  destruct (C2_catch_up (P:=P) (C:=C) 0 st
              (DaggerPrediction.mkResume 3 4 (Some (model_file 2))) eq_refl)
    as (st' & Hr & _ & Hb & _).
  exists st'. split; [exact Hr|]. apply Hb. left. reflexivity.
Defined.

(** C2 as stated fails at the pair (1, 0): with a checkpoint at iteration
    0, no samples on disk and an init dataset configured, the assertion
    passes and no training step runs before the loop. *)
Lemma C2_counterexample :
  let P := Scenario.params 2 3 false (Some "init") in
  let st := Scenario.start (Scenario.store_with [0] []) in
  DaggerPrediction.resolve st
  = Ok (DaggerPrediction.mkResume 1 0 (Some (model_file 0))) st
  ∧ ∃ st', DaggerPrediction.resume st = Ok 0 st' ∧ train_calls (trace st') = [].
Proof.
  intros P st. split; [vm_compute; reflexivity|].
  eexists. split; vm_compute; reflexivity.
Qed.

(** C3 as stated fails on a fresh run of two iterations: both training
    steps, not only the first, are given the init epochs (50, the standard
    count being 10); and on a run resumed at iteration 1 after iteration 0
    was trained, the first step of the resumed run is given them too. *)
Lemma C3_counterexample :
  let P := Scenario.params 2 3 false None in
  let C := Scenario.collab (Scenario.mkSetup 1 1 0 None (Scenario.RejectFirst 0) false) in
  train_calls (trace (final (DaggerPrediction.run 2 (Scenario.start (Scenario.store_with [] [])))))
  = [(Some (model_file (-1)), model_file 0, 50); (Some (model_file 0), model_file 1, 50)]
  ∧ train_calls (trace (final (DaggerPrediction.run 2 (Scenario.start (Scenario.store_with [0] [0])))))
  = [(Some (model_file 0), model_file 1, 50)]
  ∧ bootstrap_epochs = 10.
Proof. intros P C. split_and!; vm_compute; reflexivity. Qed.

Section RolloutStep.
Context {X U Obs WInfo MInfo Policy Env : Type}.
Context {V : Values X U Obs} {P : Params}.
Context {C : Collab X U Obs WInfo MInfo Policy Env}.
#[local] Abbreviation Mon := (M X U Obs WInfo MInfo Policy Env).
#[local] Abbreviation StateT := (State X U Obs WInfo MInfo Policy Env).
#[local] Abbreviation eventT := (event X U Obs WInfo MInfo Policy).
#[local] Abbreviation SampleT := (Sample X U Obs).
Import DaggerPrediction.

Lemma py_index_in (len : nat) (t : Z) :
  0 ≤ t < Z.of_nat len → py_index len t = Some (Z.to_nat t).
Proof.
  intros H. unfold py_index.
  destruct (0 <=? t) eqn:E1; [|lia]. destruct (t <? Z.of_nat len) eqn:E2; [|lia].
  reflexivity.
Qed.

Lemma py_slice_0 {A} (hi : Z) (l : list A) :
  0 ≤ hi ≤ Z.of_nat (length l) → py_slice 0 hi l = take (Z.to_nat hi) l.
Proof.
  intros H. unfold py_slice, py_slice_bound. simpl.
  destruct (hi <? 0) eqn:E; [lia|].
  rewrite Z.min_l by lia. rewrite Z.min_l by lia. simpl.
  rewrite Nat.sub_0_r. reflexivity.
Qed.

(** The pass at timestep [t] returns, and makes the calls of
    [step_calls]. *)
Lemma rollout_step_calls p n t (s : SampleT) (st : StateT) :
  horizon s (Z.to_nat T) → 0 ≤ t < T →
  ∃ hit s' st' tr,
    rollout_step p n t s st = Ok (hit, s') st' ∧
    trace st' = trace st ++ tr ∧
    step_calls p n t s hit s' tr.
Proof.
  intros (HX & HU & HO) Ht.
  unfold rollout_step, update_world, Sample_get_X, sample_policy, Sample_set_U,
    Sample_set_O, Sample_set_X, is_collision, evolve, update_visualization.
  unfold get_X, set_U, set_O, set_X.
  rewrite !py_index_in by lia. simpl.
  destruct (lookup_lt_is_Some_2 (sX s) (Z.to_nat t)) as [x Hx]; [lia|].
  rewrite Hx. mred. simpl.
  destruct (agent_sample_policy x p n (_update_world s t (env st))) as [[u o] e1] eqn:E1.
  cbn [fst snd env store trace].
  assert (∃ lbl o' e1', agent_sample_policy x p (NoiseObj ZeroNoise) e1 = (lbl, o', e1'))
    as (lbl0 & o' & e1' & Hq).
  { destruct (agent_sample_policy x p (NoiseObj ZeroNoise) e1) as [[? ?] ?]. eauto. }
  unfold step_calls.
  destruct (label_with_noise || is_False n) eqn:Elbl;
    cbn [fst snd env store trace]; rewrite ?Hq;
    cbn [fst snd env store trace]; rewrite !py_index_in by lia; simpl;
    match goal with |- context [world_is_collision ?a ?b ?c] =>
      destruct (world_is_collision a b c) as [hit e2] eqn:E2 end;
    cbn [fst snd env store trace]; cbn beta iota;
    destruct (dynamics_evolve x u e2) as [x' e3] eqn:E3;
    (destruct hit;
     [|destruct (t <? T - 1) eqn:Et;
       [destruct (policy_has_curr_traj p e3) eqn:Eh
       |destruct (policy_has_curr_traj p e2) eqn:Eh]]);
    cbn [fst snd env store trace]; rewrite ?E3;
    cbn [fst snd env store trace]; rewrite ?py_index_in by lia; simpl;
    rewrite ?Eh;
    (eexists _, _, _, _; split; [reflexivity|]; split;
     [cbn [trace]; rewrite <- !app_assoc; reflexivity|]).
  all: first
    [ solve [ eexists x, u, o, u, [], _, _, e1, e1, e2;
              split_and!; try exact Hx; try exact E1; try exact E2; try reflexivity;
              (eexists; split;
               [|first [split; reflexivity
                       |exists x'; rewrite E3; split_and!; reflexivity]]);
              first [left; reflexivity|right; reflexivity] ]
    | solve [ eexists x, u, o, lbl0, [SamplePolicy t x (NoiseObj ZeroNoise) lbl0 o'],
                _, _, e1, e1', e2;
              split_and!; try exact Hx; try exact E1; try exact E2; try reflexivity;
              try (exists o'; split; [exact Hq|reflexivity]);
              (eexists; split;
               [|first [split; reflexivity
                       |exists x'; rewrite E3; split_and!; reflexivity]]);
              first [left; reflexivity|right; reflexivity] ] ].
Qed.

Lemma step_calls_spec p n t (s : SampleT) hit s' (tr : list eventT) :
  step_calls p n t s hit s' tr → step_spec n t s hit s' tr.
Proof.
  intros (x & u & o & lbl & relabel & tail & e0 & e1 & e2 & e3
          & Hx & Htr & HU & HO & Hq & Hl & Hc & Htail).
  exists x, u, o, lbl, relabel, tail. split_and!; try assumption.
  - destruct (label_with_noise || is_False n).
    + destruct Hl as (? & ? & _). auto.
    + destruct Hl as (o' & _ & ?). eauto.
  - destruct hit; [exact Htail|].
    destruct Htail as (vis & Hvis & Htail). exists vis. split; [exact Hvis|].
    destruct (t <? T - 1); [|exact Htail].
    destruct Htail as (x' & ? & ? & ?). eauto.
Qed.

Lemma xrange2_nil lo hi : hi ≤ lo → xrange2 lo hi = [].
Proof.
  intros H. unfold xrange2. replace (Z.to_nat (hi - lo)) with 0%nat by lia. reflexivity.
Qed.

Lemma xrange2_cons lo hi : lo < hi → xrange2 lo hi = lo :: xrange2 (lo + 1) hi.
Proof.
  intros H. unfold xrange2.
  replace (Z.to_nat (hi - lo)) with (S (Z.to_nat (hi - (lo + 1)))) by lia.
  cbn [seq fmap list_fmap]. f_equal; [lia|].
  rewrite <- fmap_S_seq, <- list_fmap_compose.
  apply list_fmap_ext. intros _ k _. simpl. lia.
Qed.

Lemma step_spec_horizon n t s hit s' (tr : list eventT) N :
  step_spec n t s hit s' tr → horizon s N → horizon s' N.
Proof.
  intros (x & u & o & lbl & relabel & tail & _ & _ & HU & HO & _ & Htail) (LX & LU & LO).
  unfold horizon. rewrite HU, HO, !length_insert. split_and!; [|exact LU|exact LO].
  destruct hit.
  - destruct Htail as [_ ->]. exact LX.
  - destruct Htail as (vis & _ & Htail). destruct (t <? T - 1).
    + destruct Htail as (x' & e & _ & _ & ->). rewrite length_insert. exact LX.
    + destruct Htail as [_ ->]. exact LX.
Qed.

(** The loop over the timesteps, as a rule: an invariant [I] at the head
    of the pass for timestep [a] (over the sample and the events of the
    loop so far) gives [Post] at the timestep the loop ends on, whether
    by [break] or after the last pass. *)
Lemma rollout_for_calls p n (I Post : Z → SampleT → list eventT → Prop) :
  (∀ a s tr hit s' tr',
     0 ≤ a < T → horizon s (Z.to_nat T) → I a s tr → step_calls p n a s hit s' tr' →
     if hit then Post a s' (tr ++ tr')
     else if a <? T - 1 then I (a + 1) s' (tr ++ tr')
          else Post a s' (tr ++ tr' ++ [Info (MsgLasted a)])) →
  ∀ (k : nat) a s (st : StateT) tr0 var,
    Z.to_nat (T - a) = k → 0 ≤ a < T → horizon s (Z.to_nat T) → I a s tr0 →
    ∃ t_end s' st' tr,
      rollout_for p n (xrange2 a T) var s st = Ok (Some t_end, s') st' ∧
      trace st' = trace st ++ tr ∧
      Post t_end s' (tr0 ++ tr) ∧
      horizon s' (Z.to_nat T).
Proof.
  intros Hstep. induction k as [|k IH]; intros a s st tr0 var Hk Ha Hs HI; [lia|].
  rewrite xrange2_cons by lia. cbn [rollout_for].
  destruct (rollout_step_calls p n a s st Hs Ha) as (hit & s1 & st1 & tr1 & E1 & T1 & S1).
  rewrite (bind_Ok _ _ _ _ _ E1). cbn [fst snd].
  pose proof (Hstep a s tr0 hit s1 tr1 Ha Hs HI S1) as H1.
  pose proof (step_spec_horizon _ _ _ _ _ _ _ (step_calls_spec _ _ _ _ _ _ _ S1) Hs) as Hs1.
  destruct hit.
  - exists a, s1, st1, tr1. split_and!; [reflexivity|exact T1|exact H1|exact Hs1].
  - destruct (a <? T - 1) eqn:Ea.
    + destruct (IH (a + 1) s1 st1 (tr0 ++ tr1) (Some a)) as (t_end & s' & st' & tr & E & T' & HP & Hs');
        [lia|lia|exact Hs1|exact H1|].
      exists t_end, s', st', (tr1 ++ tr).
      split_and!; [exact E|rewrite T', T1, app_assoc; reflexivity| |exact Hs'].
      rewrite app_assoc. exact HP.
    + rewrite xrange2_nil by lia. cbn [rollout_for]. mred.
      eexists a, s1, _, (tr1 ++ [Info (MsgLasted a)]).
      split_and!; [reflexivity|cbn [trace]; rewrite T1, app_assoc; reflexivity
                  |exact H1|exact Hs1].
Qed.

(** [rollout] on a sample built for the horizon: it returns the sample
    cut to [t_end + 1] timesteps. *)
Lemma rollout_calls p n (I Post : Z → SampleT → list eventT → Prop) s (st : StateT) :
  (∀ a s tr hit s' tr',
     0 ≤ a < T → horizon s (Z.to_nat T) → I a s tr → step_calls p n a s hit s' tr' →
     if hit then Post a s' (tr ++ tr')
     else if a <? T - 1 then I (a + 1) s' (tr ++ tr')
          else Post a s' (tr ++ tr' ++ [Info (MsgLasted a)])) →
  0 < T → horizon s (Z.to_nat T) → I 0 s [] →
  ∃ t_end s' st' tr,
    rollout p n s st = Ok (Sample_match 0 (t_end + 1) s', t_end) st' ∧
    trace st' = trace st ++ tr ∧
    Post t_end s' tr ∧
    horizon s' (Z.to_nat T).
Proof.
  intros Hstep HT Hs HI.
  destruct (rollout_for_calls p n I Post Hstep (Z.to_nat T) 0 s st [] None)
    as (t_end & s' & st' & tr & E & T' & HP & Hs'); [lia|lia|exact Hs|exact HI|].
  exists t_end, s', st', tr. unfold rollout, xrange.
  rewrite (bind_Ok _ _ _ _ _ E). cbn [fst snd]. mred.
  split_and!; [reflexivity|exact T'|exact HP|exact Hs'].
Qed.

Lemma rollout_rule p n (I Post : Z → SampleT → list eventT → Prop) s (st : StateT) :
  (∀ a s tr hit s' tr',
     0 ≤ a < T → horizon s (Z.to_nat T) → I a s tr → step_spec n a s hit s' tr' →
     if hit then Post a s' (tr ++ tr')
     else if a <? T - 1 then I (a + 1) s' (tr ++ tr')
          else Post a s' (tr ++ tr' ++ [Info (MsgLasted a)])) →
  0 < T → horizon s (Z.to_nat T) → I 0 s [] →
  ∃ t_end s' st' tr,
    rollout p n s st = Ok (Sample_match 0 (t_end + 1) s', t_end) st' ∧
    trace st' = trace st ++ tr ∧
    Post t_end s' tr ∧
    horizon s' (Z.to_nat T).
Proof.
  intros Hstep. apply rollout_calls.
  intros a s0 tr hit s' tr' Ha Hs0 HI Hc.
  exact (Hstep a s0 tr hit s' tr' Ha Hs0 HI (step_calls_spec _ _ _ _ _ _ _ Hc)).
Qed.

Lemma step_spec_events n a s hit s' (tr' : list eventT) :
  step_spec n a s hit s' tr' →
  (∀ t b, IsCollision t b ∈ tr' → t = a ∧ b = hit) ∧
  (∀ t x, SetX t x ∈ tr' → t = a + 1 ∧ hit = false ∧ a < T - 1) ∧
  (hit = true → ∃ tr0 lbl o,
     tr' = tr0 ++ [SetU a lbl; SetO a o; IsCollision a true; Warning (MsgCrashed a)]
     ∧ ∀ t b, IsCollision t b ∉ tr0).
Proof.
  intros (x & u & o & lbl & relabel & tail & _ & -> & _ & _ & Hl & Htail).
  assert (∀ e, e ∈ relabel → ∃ l o', e = SamplePolicy a x (NoiseObj ZeroNoise) l o') as Hrel.
  { destruct (label_with_noise || is_False n).
    - destruct Hl as [_ ->]. intros e He. inversion He.
    - destruct Hl as (o' & ->). intros e He. apply list_elem_of_singleton in He. eauto. }
  assert (∀ e, e ∈ tail →
            if hit then e = Warning (MsgCrashed a)
            else (∃ x', (e = Evolve a x u x' ∨ e = SetX (a + 1) x') ∧ a < T - 1)
                 ∨ e = UpdateVisualization a) as Htl.
  { destruct hit.
    - destruct Htail as [-> _]. intros e He. apply list_elem_of_singleton in He. exact He.
    - destruct Htail as (vis & Hvis & Htail).
      assert (∀ e, e ∈ vis → e = UpdateVisualization a) as Hv.
      { destruct Hvis as [->| ->]; intros e He;
          [inversion He|apply list_elem_of_singleton in He; exact He]. }
      destruct (a <? T - 1) eqn:Ea.
      + destruct Htail as (x' & e' & _ & -> & _). intros e He.
        rewrite elem_of_app, !elem_of_cons in He.
        destruct He as [[->|[->|He]]|He]; [left; exists x'; split; [auto|lia]..| |auto].
        inversion He.
      + destruct Htail as [-> _]. auto. }
  split_and!.
  - intros t b Hin. rewrite !elem_of_app, !elem_of_cons in Hin.
    destruct Hin as [[H|[H|[H|H]]]|[H|[[H|[H|[H|H]]]|H]]]; try discriminate; try (by inversion H).
    + apply Hrel in H as (? & ? & ?). discriminate.
    + apply Htl in H. destruct hit; [discriminate|].
      destruct H as [(x' & [H|H] & _)|H]; discriminate.
  - intros t x0 Hin. rewrite !elem_of_app, !elem_of_cons in Hin.
    destruct Hin as [[H|[H|[H|H]]]|[H|[[H|[H|[H|H]]]|H]]]; try discriminate; try (by inversion H).
    + apply Hrel in H as (? & ? & ?). discriminate.
    + apply Htl in H. destruct hit; [discriminate|].
      destruct H as [(x' & [H|H] & Hlt)|H]; try discriminate.
      injection H as -> ->. auto.
  - intros ->. destruct Htail as [-> _].
    exists ([Info (MsgT a); UpdateWorld a; SamplePolicy a x n u o] ++ relabel), lbl, o.
    split; [rewrite <- !app_assoc; reflexivity|].
    intros t b Hin. rewrite !elem_of_app, !elem_of_cons in Hin.
    destruct Hin as [[H|[H|[H|H]]]|H]; try discriminate; try (by inversion H).
    apply Hrel in H as (? & ? & ?). discriminate.
Qed.

Lemma Sample_match_horizon (s : SampleT) N t :
  horizon s N → 0 ≤ t < Z.of_nat N →
  horizon (Sample_match 0 (t + 1) s) (Z.to_nat (t + 1)).
Proof.
  intros (LX & LU & LO) Ht. unfold horizon, Sample_match. cbn [sX sU sO].
  rewrite !py_slice_0 by lia. rewrite !length_take. lia.
Qed.

(** A later pass leaves the records up to an earlier timestep as they
    are. *)
Lemma step_calls_keeps p n a t (s : SampleT) hit s' (tr' : list eventT) N :
  step_calls p n a s hit s' tr' → horizon s N → 0 ≤ a < Z.of_nat N → 0 ≤ t < a →
  Sample_match 0 (t + 1) s' = Sample_match 0 (t + 1) s.
Proof.
  intros (x & u & o & lbl & relabel & tail & e0 & e1 & e2 & e3
          & _ & _ & HU & HO & _ & _ & _ & Htail) (LX & LU & LO) Ha Ht.
  assert (take (Z.to_nat (t + 1)) (sX s') = take (Z.to_nat (t + 1)) (sX s)) as HXt.
  { destruct hit.
    - destruct Htail as [_ ->]. reflexivity.
    - destruct Htail as (vis & _ & Htail). destruct (a <? T - 1).
      + destruct Htail as (x' & _ & _ & ->). apply take_insert_ge. lia.
      + destruct Htail as [_ ->]. reflexivity. }
  assert (length (sX s') = N) as LX'.
  { destruct hit.
    - destruct Htail as [_ ->]. exact LX.
    - destruct Htail as (vis & _ & Htail). destruct (a <? T - 1).
      + destruct Htail as (x' & _ & _ & ->). rewrite length_insert. exact LX.
      + destruct Htail as [_ ->]. exact LX. }
  unfold Sample_match. rewrite !py_slice_0 by (rewrite ?HU, ?HO, ?length_insert; lia).
  rewrite HXt, HU, HO, !take_insert_ge by lia. reflexivity.
Qed.

(** The pass at timestep [a] asks the world, on the sample with the
    label and the observation of [a] written. *)
Lemma step_calls_checked p n a (s : SampleT) hit s' (tr' : list eventT) N :
  step_calls p n a s hit s' tr' → horizon s N → 0 ≤ a < Z.of_nat N →
  checked a s' tr' hit.
Proof.
  intros (x & u & o & lbl & relabel & tail & e0 & e1 & e2 & e3
          & _ & -> & HU & HO & _ & _ & Hc & Htail) (LX & LU & LO) Ha.
  exists (mkSample (sX s) (sU s') (sO s')), e2, e3. split; [exact Hc|]. split.
  - assert (take (Z.to_nat (a + 1)) (sX s') = take (Z.to_nat (a + 1)) (sX s)
            ∧ length (sX s') = N) as [HXt LX'].
    { destruct hit.
      - destruct Htail as [_ ->]. auto.
      - destruct Htail as (vis & _ & Htail). destruct (a <? T - 1).
        + destruct Htail as (x' & _ & _ & ->). rewrite length_insert.
          split; [apply take_insert_ge; lia|exact LX].
        + destruct Htail as [_ ->]. auto. }
    unfold Sample_match. cbn [sX sU sO].
    rewrite !py_slice_0 by (rewrite ?HU, ?HO, ?length_insert; lia).
    rewrite HXt. reflexivity.
  - rewrite !elem_of_app, !elem_of_cons. right. right. left. auto.
Qed.

Lemma Sample_match_cut (s : SampleT) N t t_end :
  horizon s N → 0 ≤ t ≤ t_end → t_end < Z.of_nat N →
  Sample_match 0 (t + 1) (Sample_match 0 (t_end + 1) s) = Sample_match 0 (t + 1) s.
Proof.
  intros (LX & LU & LO) Ht Hend. unfold Sample_match. cbn [sX sU sO].
  rewrite !(py_slice_0 (t_end + 1)) by lia.
  rewrite !py_slice_0 by (rewrite ?length_take; lia).
  rewrite !take_take. repeat f_equal; lia.
Qed.

Lemma checked_more t (s : SampleT) (tr0 tr tr1 : list eventT) b :
  checked t s tr b → checked t s (tr0 ++ tr ++ tr1) b.
Proof.
  intros (s1 & e & e' & Hc & Hs & Hin). exists s1, e, e'.
  split_and!; [exact Hc|exact Hs|]. rewrite !elem_of_app. auto.
Qed.

Lemma checked_agree t (s s' : SampleT) (tr : list eventT) b :
  Sample_match 0 (t + 1) s' = Sample_match 0 (t + 1) s →
  checked t s tr b → checked t s' tr b.
Proof.
  intros Heq (s1 & e & e' & Hc & Hs & Hin). exists s1, e, e'.
  split_and!; [exact Hc|congruence|exact Hin].
Qed.

(** A rollout ends on the timestep of the first collision, or on the last
    timestep of the horizon; [set_X] is called up to that timestep only.
    On every timestep up to the last the world is asked for the terminal
    predicate, and the rollout goes on after a negative answer only. *)
Lemma rollout_truncation p n (s : SampleT) (st : StateT) :
  0 < T → horizon s (Z.to_nat T) →
  ∃ sample t_end st' tr,
    rollout p n s st = Ok (sample, t_end) st' ∧
    trace st' = trace st ++ tr ∧
    0 ≤ t_end < T ∧
    Sample_T sample = Z.to_nat (t_end + 1) ∧
    (∀ t x, SetX t x ∈ tr → 0 < t ≤ t_end) ∧
    (∀ t b, IsCollision t b ∈ tr → 0 ≤ t ≤ t_end ∧ (t < t_end → b = false)) ∧
    (∀ t, IsCollision t true ∈ tr →
          t = t_end ∧
          ∃ tr0 lbl o, tr = tr0 ++ [SetU t lbl; SetO t o; IsCollision t true;
                                    Warning (MsgCrashed t)]) ∧
    ((∀ t, IsCollision t true ∉ tr) → t_end = T - 1 ∧ Sample_T sample = Z.to_nat T) ∧
    (∀ t, 0 ≤ t ≤ t_end →
          ∃ b, checked t sample tr b ∧ (t < t_end → b = false)
               ∧ (t = t_end → b = true ∨ t_end = T - 1)).
Proof.
  intros HT Hs.
  pose (I := λ (a : Z) (s : SampleT) (tr : list eventT),
          (∀ t x, SetX t x ∈ tr → 0 < t ≤ a) ∧
          (∀ t b, IsCollision t b ∈ tr → 0 ≤ t < a ∧ b = false) ∧
          (∀ t, 0 ≤ t < a → checked t s tr false)).
  pose (Post := λ (t_end : Z) (s : SampleT) (tr : list eventT),
          0 ≤ t_end < T ∧
          (∀ t x, SetX t x ∈ tr → 0 < t ≤ t_end) ∧
          (∀ t b, IsCollision t b ∈ tr → 0 ≤ t ≤ t_end ∧ (t < t_end → b = false)) ∧
          ((∃ tr0 lbl o, tr = tr0 ++ [SetU t_end lbl; SetO t_end o;
                                      IsCollision t_end true;
                                      Warning (MsgCrashed t_end)])
           ∨ (t_end = T - 1 ∧ ∀ t, IsCollision t true ∉ tr)) ∧
          (∀ t, 0 ≤ t ≤ t_end →
                ∃ b, checked t s tr b ∧ (t < t_end → b = false)
                     ∧ (t = t_end → b = true ∨ t_end = T - 1))).
  destruct (rollout_calls p n I Post s st) as (t_end & s' & st' & tr & E & T' & HP & Hs');
    [|exact HT|exact Hs| |].
  - intros a s0 tr0 hit s1 tr1 Ha Hs0 (IX & IC & IK) Hcalls.
    pose proof (step_calls_spec _ _ _ _ _ _ _ Hcalls) as Hspec.
    destruct (step_spec_events _ _ _ _ _ _ Hspec) as (HC & HX & Hhit).
    assert (checked a s1 (tr0 ++ tr1 ++ []) hit) as Knew.
    { apply checked_more. eapply step_calls_checked; [exact Hcalls|exact Hs0|lia]. }
    assert (∀ t, 0 ≤ t < a → checked t s1 (tr0 ++ tr1 ++ []) false) as Kold.
    { intros t Ht. eapply checked_agree.
      - eapply step_calls_keeps; [exact Hcalls|exact Hs0|lia|exact Ht].
      - destruct (IK t Ht) as (sa & e & e' & ? & ? & ?). exists sa, e, e'.
        split_and!; [assumption..|]. apply elem_of_app. auto. }
    rewrite app_nil_r in Knew, Kold.
    destruct hit.
    + refine (conj Ha (conj _ (conj _ (conj _ _)))).
      * intros t x Hin. apply elem_of_app in Hin as [Hin|Hin];
          [apply IX in Hin; lia|apply HX in Hin as (_ & ? & _); discriminate].
      * intros t b Hin. apply elem_of_app in Hin as [Hin|Hin].
        -- apply IC in Hin as [? ->]. split; [lia|reflexivity].
        -- apply HC in Hin as [-> ->]. split; [lia|intros; lia].
      * left. destruct (Hhit eq_refl) as (tr2 & lbl & o & -> & _).
        exists (tr0 ++ tr2), lbl, o. rewrite app_assoc. reflexivity.
      * intros t Ht. destruct (decide (t = a)) as [->|Hne].
        -- exists true. split_and!; [exact Knew|lia|auto].
        -- exists false. split_and!; [apply Kold; lia|auto|lia].
    + destruct (a <? T - 1) eqn:Ea.
      * split_and!.
        -- intros t x Hin. apply elem_of_app in Hin as [Hin|Hin];
             [apply IX in Hin; lia|apply HX in Hin as (-> & _ & _); lia].
        -- intros t b Hin. apply elem_of_app in Hin as [Hin|Hin].
           ++ apply IC in Hin as [? ->]. split; [lia|reflexivity].
           ++ apply HC in Hin as [-> ->]. split; [lia|reflexivity].
        -- intros t Ht. destruct (decide (t = a)) as [->|Hne];
             [exact Knew|apply Kold; lia].
      * assert (∀ t b, IsCollision t b ∈ tr0 ++ tr1 ++ [Info (MsgLasted a)] →
                       0 ≤ t ≤ a ∧ b = false) as Hall.
        { intros t b Hin. rewrite !elem_of_app in Hin. destruct Hin as [Hin|[Hin|Hin]].
          - apply IC in Hin as [? ->]. split; [lia|reflexivity].
          - apply HC in Hin as [-> ->]. split; [lia|reflexivity].
          - apply list_elem_of_singleton in Hin. discriminate. }
        refine (conj Ha (conj _ (conj _ (conj _ _)))).
        -- intros t x Hin. rewrite !elem_of_app in Hin. destruct Hin as [Hin|[Hin|Hin]].
           ++ apply IX in Hin; lia.
           ++ apply HX in Hin as (-> & _ & ?); lia.
           ++ apply list_elem_of_singleton in Hin. discriminate.
        -- intros t b Hin. apply Hall in Hin as [? ->]. split; [lia|reflexivity].
        -- right. split; [lia|]. intros t Hin. apply Hall in Hin as [_ ?]. discriminate.
        -- intros t Ht. exists false. rewrite app_assoc. split_and!.
           ++ apply (checked_more _ _ [] _ [Info (MsgLasted a)]).
              destruct (decide (t = a)) as [->|Hne]; [exact Knew|apply Kold; lia].
           ++ auto.
           ++ intros _. right. lia.
  - split_and!; [intros ? ? Hin; inversion Hin..|intros t Ht; lia].
  - destruct HP as (Hend & HX & HC & Hcase & HK).
    pose proof (Sample_match_horizon s' _ t_end Hs' ltac:(lia)) as (LX & _ & _).
    exists (Sample_match 0 (t_end + 1) s'), t_end, st', tr.
    refine (conj E (conj T' (conj Hend (conj LX (conj HX (conj HC (conj _ (conj _ _)))))))).
    + intros t Hin. assert (t = t_end) as ->.
      { destruct (HC _ _ Hin) as [? Hb]. destruct (decide (t < t_end)) as [Hlt|]; [|lia].
        specialize (Hb Hlt). discriminate. }
      split; [reflexivity|]. destruct Hcase as [Hc|[_ Hc]]; [exact Hc|].
      exfalso. exact (Hc _ Hin).
    + intros Hnone. destruct Hcase as [(tr0 & lbl & o & ->)|[-> _]].
      * exfalso. apply (Hnone t_end). rewrite elem_of_app. right.
        rewrite !elem_of_cons. auto.
      * split; [reflexivity|]. unfold Sample_T. rewrite LX. f_equal. lia.
    + intros t Ht. destruct (HK t Ht) as (b & Hb & H1 & H2). exists b.
      split_and!; [|exact H1|exact H2].
      eapply checked_agree; [|exact Hb].
      eapply Sample_match_cut; [exact Hs'|lia|lia].
Qed.
End RolloutStep.

Section Attempt.
Context {X U Obs WInfo MInfo Policy Env : Type}.
Context {V : Values X U Obs} {P : Params}.
Context {C : Collab X U Obs WInfo MInfo Policy Env}.
#[local] Abbreviation Mon := (M X U Obs WInfo MInfo Policy Env).
#[local] Abbreviation StateT := (State X U Obs WInfo MInfo Policy Env).
#[local] Abbreviation eventT := (event X U Obs WInfo MInfo Policy).
#[local] Abbreviation SampleT := (Sample X U Obs).
Import DaggerPrediction.

Lemma create_control_noise_valid :
  noise_type_valid →
  ∃ cls, ∀ st : StateT, _create_control_noise st = Ok (NoiseObj cls) st.
Proof.
  intros H. unfold _create_control_noise.
  repeat (destruct (decide _); [eexists; intros; reflexivity|]).
  exfalso. unfold noise_type_valid in H. tauto.
Qed.

(** The sample a rollout starts from. *)
Lemma initial_sample_spec (x0 : X) :
  0 < T →
  ∃ s0, set_X x0 0 (Sample_new T) = Some s0 ∧
        horizon s0 (Z.to_nat T) ∧ sX s0 !! 0%nat = Some x0.
Proof.
  intros HT. unfold set_X, Sample_new. cbn [sX sU sO].
  rewrite length_replicate, py_index_in by lia. cbn [mbind option_bind].
  eexists. split; [reflexivity|]. split.
  - unfold horizon. cbn [sX sU sO]. rewrite length_insert, !length_replicate. auto.
  - cbn [sX]. apply list_lookup_insert_eq. rewrite length_replicate. lia.
Qed.

(** One pass of the [while] body before the gate: what comes before the
    loop over the timesteps (with the calls that give the initial state
    and the controller, and the noise object), the rollout, and the two
    metadata calls. *)
Lemma attempt_spec_calls itr cond rep (st : StateT) :
  0 < T → noise_type_valid →
  ∃ x0 s0 p cls st0 pre,
    horizon s0 (Z.to_nat T) ∧ sX s0 !! 0%nat = Some x0 ∧
    trace st0 = trace st ++ pre ++ [GetCond cond rep x0; SetX 0 x0; CreateMpc itr x0 p] ∧
    (pre = [Info (MsgStarting cond rep)]
     ∨ pre = [Info (MsgStarting cond rep); ResetWorld itr cond rep]) ∧
    (∃ e, x0 = (conditions_get_cond cond rep e).1
          ∧ p = (_create_mpc itr x0 (conditions_get_cond cond rep e).2).1) ∧
    (∀ st1 : StateT, _create_control_noise st1 = Ok (NoiseObj cls) st1) ∧
    attempt itr cond rep st
    = (r ← rollout p (NoiseObj cls) s0;
       world_info ← get_world_info;
       mpc_info ← get_info p;
       mret (mkRollout r.1 r.2 world_info mpc_info)) st0.
Proof.
  intros HT Hn. destruct (create_control_noise_valid Hn) as [cls Hcls].
  unfold attempt, reset_world, get_cond, Sample_set_X, create_mpc. mred.
  match goal with |- context [(if ?b then _ else _) _] => destruct b end.
  - cbn [env store trace].
    destruct (conditions_get_cond cond rep (_reset_world itr cond rep (env st)))
      as [x0 e1] eqn:E0.
    cbn [env store trace].
    destruct (initial_sample_spec x0 HT) as (s0 & Hs0 & Hh & H0).
    rewrite Hs0. cbn [env store trace].
    destruct (_create_mpc itr x0 e1) as [p e2] eqn:E1. cbn [env store trace].
    rewrite Hcls.
    eexists x0, s0, p, cls, _, _.
    split_and!; [exact Hh|exact H0| |right; reflexivity| |exact Hcls|reflexivity].
    + cbn [trace]. rewrite <- !app_assoc. reflexivity.
    + eexists. rewrite E0. cbn [fst snd]. rewrite E1. split; reflexivity.
  - cbn [env store trace].
    destruct (conditions_get_cond cond rep (env st)) as [x0 e1] eqn:E0.
    cbn [env store trace].
    destruct (initial_sample_spec x0 HT) as (s0 & Hs0 & Hh & H0).
    rewrite Hs0. cbn [env store trace].
    destruct (_create_mpc itr x0 e1) as [p e2] eqn:E1. cbn [env store trace].
    rewrite Hcls.
    eexists x0, s0, p, cls, _, _.
    split_and!; [exact Hh|exact H0| |left; reflexivity| |exact Hcls|reflexivity].
    + cbn [trace]. rewrite <- !app_assoc. reflexivity.
    + eexists. rewrite E0. cbn [fst snd]. rewrite E1. split; reflexivity.
Qed.

(** One pass of the [while] body before the gate: what comes before the
    loop over the timesteps, the rollout, and the two metadata calls. *)
Lemma attempt_spec itr cond rep (st : StateT) :
  0 < T → noise_type_valid →
  ∃ x0 s0 p cls st0 pre,
    horizon s0 (Z.to_nat T) ∧ sX s0 !! 0%nat = Some x0 ∧
    trace st0 = trace st ++ pre ++ [GetCond cond rep x0; SetX 0 x0; CreateMpc itr x0 p] ∧
    (pre = [Info (MsgStarting cond rep)]
     ∨ pre = [Info (MsgStarting cond rep); ResetWorld itr cond rep]) ∧
    attempt itr cond rep st
    = (r ← rollout p (NoiseObj cls) s0;
       world_info ← get_world_info;
       mpc_info ← get_info p;
       mret (mkRollout r.1 r.2 world_info mpc_info)) st0.
Proof.
  intros HT Hn.
  destruct (attempt_spec_calls itr cond rep st HT Hn)
    as (x0 & s0 & p & cls & st0 & pre & H1 & H2 & H3 & H4 & _ & _ & H5).
  exists x0, s0, p, cls, st0, pre. auto.
Qed.

(** C5. A rollout of [_run_itr] (horizon [T > 0], a noise kind
    [_create_control_noise] knows) returns a sample of [t + 1] timesteps,
    [t] being the timestep it ends on, and makes no [set_X] for a later
    timestep.  On every timestep up to [t] the world is asked for the
    terminal predicate, on the sample as recorded up to that timestep;
    the answer is negative before [t], and at [t] it is positive unless
    [t] is the last timestep of the horizon.  So if the predicate first
    fires at [ts < T], the rollout stops at [ts], after the control, the
    observation and the check of [ts] are recorded, with a sample of
    [ts + 1] timesteps; if it never fires, the sample has [T]
    timesteps. *)
Theorem C5_truncation itr cond rep (st : StateT) :
  0 < T → noise_type_valid →
  ∃ r st' tr,
    attempt itr cond rep st = Ok r st' ∧
    trace st' = trace st ++ tr ∧
    0 ≤ r_t r < T ∧
    Sample_T (r_sample r) = Z.to_nat (r_t r + 1) ∧
    (∀ t x, SetX t x ∈ tr → 0 ≤ t ≤ r_t r) ∧
    (∀ t b, IsCollision t b ∈ tr → 0 ≤ t ≤ r_t r ∧ (t < r_t r → b = false)) ∧
    (∀ t, IsCollision t true ∈ tr →
          t = r_t r ∧
          ∃ tr0 lbl o w m,
            tr = tr0 ++ [SetU t lbl; SetO t o; IsCollision t true;
                         Warning (MsgCrashed t); GetWorldInfo w; GetInfo m]) ∧
    ((∀ t, IsCollision t true ∉ tr) →
     r_t r = T - 1 ∧ Sample_T (r_sample r) = Z.to_nat T) ∧
    (∀ t, 0 ≤ t ≤ r_t r →
          ∃ b, checked t (r_sample r) tr b ∧ (t < r_t r → b = false)
               ∧ (t = r_t r → b = true ∨ t = T - 1)) ∧
    (∀ ts, 0 ≤ ts < T →
           (∀ t, 0 ≤ t < ts → fires t (r_sample r) false) →
           fires ts (r_sample r) true →
           r_t r = ts ∧ Sample_T (r_sample r) = Z.to_nat (ts + 1) ∧
           (∀ t x, SetX t x ∈ tr → 0 ≤ t ≤ ts) ∧
           ∃ tr0 lbl o w m,
             tr = tr0 ++ [SetU ts lbl; SetO ts o; IsCollision ts true;
                          Warning (MsgCrashed ts); GetWorldInfo w; GetInfo m]) ∧
    ((∀ t, 0 ≤ t < T → fires t (r_sample r) false) →
     r_t r = T - 1 ∧ Sample_T (r_sample r) = Z.to_nat T).
Proof.
  intros HT Hn.
  destruct (attempt_spec itr cond rep st HT Hn)
    as (x0 & s0 & p & cls & st0 & pre & Hh & H0 & Tpre & Hpre & Ha).
  destruct (rollout_truncation p (NoiseObj cls) s0 st0 HT Hh)
    as (sample & t_end & st1 & tr & E & Tr & Hend & Hlen & HX & HC & Hhit & Hnone' & HK).
  rewrite Ha, (bind_Ok _ _ _ _ _ E). cbn [fst snd].
  unfold get_world_info, get_info. mred.
  destruct (_get_world_info (env st1)) as [w e1]. cbn [env store trace].
  destruct (policy_get_info p e1) as [m e2]. cbn [env store trace].
  set (before := pre ++ [GetCond cond rep x0; SetX 0 x0; CreateMpc itr x0 p]).
  assert (∀ t b, IsCollision t b ∉ before) as HpreC.
  { intros t b Hin. unfold before in Hin.
    destruct Hpre as [->| ->]; simpl in Hin; rewrite !elem_of_cons in Hin;
      repeat (destruct Hin as [Hin|Hin]; [discriminate|]); inversion Hin. }
  assert (∀ t x, SetX t x ∈ before → t = 0) as HpreX.
  { intros t x Hin. unfold before in Hin.
    destruct Hpre as [->| ->]; simpl in Hin; rewrite !elem_of_cons in Hin;
      repeat (destruct Hin as [Hin|Hin]; [(discriminate || (injection Hin as -> _; reflexivity))|]);
      inversion Hin. }
  set (full := before ++ tr ++ [GetWorldInfo w; GetInfo m]).
  assert (∀ t x, SetX t x ∈ full → 0 ≤ t ≤ t_end) as HX'.
  { intros t x Hin. unfold full in Hin. rewrite !elem_of_app, !elem_of_cons in Hin.
    destruct Hin as [Hin|[Hin|[Hin|[Hin|Hin]]]]; try discriminate; try (by inversion Hin).
    + apply HpreX in Hin as ->. lia.
    + specialize (HX _ _ Hin). lia. }
  assert (∀ t, IsCollision t true ∈ full →
               t = t_end ∧
               ∃ tr0 lbl o w m,
                 full = tr0 ++ [SetU t lbl; SetO t o; IsCollision t true;
                                Warning (MsgCrashed t); GetWorldInfo w; GetInfo m]) as Hhit'.
  { intros t Hin. unfold full in Hin. rewrite !elem_of_app, !elem_of_cons in Hin.
    destruct Hin as [Hin|[Hin|[Hin|[Hin|Hin]]]]; try discriminate; try (by inversion Hin).
    + exfalso. exact (HpreC _ _ Hin).
    + destruct (Hhit _ Hin) as (-> & tr0 & lbl & o & Htr).
      split; [reflexivity|].
      exists (before ++ tr0), lbl, o, w, m. unfold full. rewrite Htr, <- !app_assoc.
      reflexivity. }
  assert (∀ t, 0 ≤ t ≤ t_end →
               ∃ b, checked t sample full b ∧ (t < t_end → b = false)
                    ∧ (t = t_end → b = true ∨ t = T - 1)) as HK'.
  { intros t Ht. destruct (HK t Ht) as (b & Hb & H1 & H2). exists b.
    split_and!; [apply checked_more; exact Hb|exact H1|].
    intros ->. destruct (H2 eq_refl); auto. }
  eexists _, _, full.
  split; [reflexivity|]. cbn [r_t r_sample trace].
  split; [rewrite Tr, Tpre; fold before; unfold full; rewrite <- !app_assoc; reflexivity|].
  split; [exact Hend|]. split; [exact Hlen|].
  split_and!.
  - exact HX'.
  - intros t b Hin. unfold full in Hin. rewrite !elem_of_app, !elem_of_cons in Hin.
    destruct Hin as [Hin|[Hin|[Hin|[Hin|Hin]]]]; try discriminate; try (by inversion Hin).
    + exfalso. exact (HpreC _ _ Hin).
    + exact (HC _ _ Hin).
  - exact Hhit'.
  - intros Hnone. apply Hnone'. intros t Hin. apply (Hnone t).
    unfold full. rewrite !elem_of_app. auto.
  - exact HK'.
  - intros ts Hts Hbefore Hat.
    assert (t_end = ts) as <-.
    { destruct (Z.lt_trichotomy t_end ts) as [Hlt|[Heq|Hgt]]; [|exact Heq|].
      - destruct (HK' t_end ltac:(lia)) as (b & (s1 & e & e' & Hc & Hs & _) & _ & Hb).
        pose proof (Hbefore t_end ltac:(lia) s1 e Hs) as Hf. rewrite Hc in Hf.
        cbn [fst] in Hf. subst b. destruct (Hb eq_refl); [discriminate|lia].
      - destruct (HK' ts ltac:(lia)) as (b & (s1 & e & e' & Hc & Hs & _) & Hb & _).
        pose proof (Hat s1 e Hs) as Hf. rewrite Hc in Hf. cbn [fst] in Hf. subst b.
        specialize (Hb Hgt). discriminate. }
    split; [reflexivity|]. split; [exact Hlen|]. split; [exact HX'|].
    destruct (HK' t_end ltac:(lia)) as (b & (s1 & e & e' & Hc & Hs & Hin) & _ & _).
    pose proof (Hat s1 e Hs) as Hf. rewrite Hc in Hf. cbn [fst] in Hf. subst b.
    destruct (Hhit' _ Hin) as [_ Htail]. exact Htail.
  - intros Hnever.
    destruct (HK' t_end ltac:(lia)) as (b & (s1 & e & e' & Hc & Hs & _) & _ & Hb).
    pose proof (Hnever t_end ltac:(lia) s1 e Hs) as Hf. rewrite Hc in Hf.
    cbn [fst] in Hf. subst b. destruct (Hb eq_refl) as [|Hl]; [discriminate|].
    split; [exact Hl|]. rewrite Hlen. f_equal. lia.
Qed.
End Attempt.

(** C5 on the simulated robot, horizon 3: with a collision at timestep 0
    the rollout stops there with a sample of one timestep; with a
    collision at timestep 1 it stops there with two. *)
Lemma C5_truncation_witness :
  let P := Scenario.params 2 3 false None in
  let C0 := Scenario.collab
              (Scenario.mkSetup 1 1 0 (Some 0) (Scenario.RejectFirst 0) false) in
  let C1 := Scenario.collab
              (Scenario.mkSetup 1 1 0 (Some 1) (Scenario.RejectFirst 0) false) in
  let st := Scenario.start (Scenario.store_with [] []) in
  (∃ r st' tr,
     DaggerPrediction.attempt (C:=C0) 0 0 0 st = Ok r st' ∧
     trace st' = tr ∧
     DaggerPrediction.r_t r = 0 ∧
     Sample_T (DaggerPrediction.r_sample r) = 1%nat ∧
     (∀ t x, SetX t x ∈ tr → 0 ≤ t ≤ 0) ∧
     ∃ tr0 lbl o w m,
       tr = tr0 ++ [SetU 0 lbl; SetO 0 o; IsCollision 0 true;
                    Warning (MsgCrashed 0); GetWorldInfo w; GetInfo m])
  ∧ (∃ r st' tr,
       DaggerPrediction.attempt (C:=C1) 0 0 0 st = Ok r st' ∧
       trace st' = tr ∧
       DaggerPrediction.r_t r = 1 ∧
       Sample_T (DaggerPrediction.r_sample r) = 2%nat ∧
       (∀ t x, SetX t x ∈ tr → 0 ≤ t ≤ 1) ∧
       ∃ tr0 lbl o w m,
         tr = tr0 ++ [SetU 1 lbl; SetO 1 o; IsCollision 1 true;
                      Warning (MsgCrashed 1); GetWorldInfo w; GetInfo m]).
Proof.
  intros P C0 C1 st. split.
  - destruct (C5_truncation (P:=P) (C:=C0) 0 0 0 st)
      as (r & st' & tr & E & Tr & _ & _ & _ & _ & _ & _ & _ & Hfirst & _).
    + reflexivity.
    + right; left; reflexivity.
    + destruct (Hfirst 0) as (Ht & Hlen & HX & Htail).
      * split; [lia|reflexivity].
      * intros t Ht. lia.
      * intros s1 e _. reflexivity.
      * exists r, st', tr. split_and!; [exact E|exact Tr|exact Ht|exact Hlen|exact HX|exact Htail].
  - destruct (C5_truncation (P:=P) (C:=C1) 0 0 0 st)
      as (r & st' & tr & E & Tr & _ & _ & _ & _ & _ & _ & _ & Hfirst & _).
    + reflexivity.
    + right; left; reflexivity.
    + destruct (Hfirst 1) as (Ht & Hlen & HX & Htail).
      * split; [lia|reflexivity].
      * intros t Ht s1 e _. assert (t = 0) as -> by lia. reflexivity.
      * intros s1 e _. reflexivity.
      * exists r, st', tr. split_and!; [exact E|exact Tr|exact Ht|exact Hlen|exact HX|exact Htail].
Defined.

Section RolloutLabels.
Context {X U Obs WInfo MInfo Policy Env : Type}.
Context {V : Values X U Obs} {P : Params}.
Context {C : Collab X U Obs WInfo MInfo Policy Env}.
#[local] Abbreviation Mon := (M X U Obs WInfo MInfo Policy Env).
#[local] Abbreviation StateT := (State X U Obs WInfo MInfo Policy Env).
#[local] Abbreviation eventT := (event X U Obs WInfo MInfo Policy).
#[local] Abbreviation SampleT := (Sample X U Obs).
Import DaggerPrediction.

(** The pass at timestep [a] queries the agent for [a] only. *)
Lemma step_calls_queries p n a t (s : SampleT) hit s' (tr' : list eventT) :
  step_calls p n a s hit s' tr' → t ≠ a → Forall (λ ev, is_query t ev = false) tr'.
Proof.
  intros (x & u & o & lbl & relabel & tail & e0 & e1 & e2 & e3
          & _ & -> & _ & _ & _ & Hl & _ & Htail) Hne.
  assert (∀ x0 n0 u0 o0, is_query t (SamplePolicy a x0 n0 u0 o0 : eventT) = false) as Hq.
  { intros. cbn. apply bool_decide_eq_false_2. auto. }
  rewrite !Forall_app. split_and!.
  - repeat constructor. apply Hq.
  - destruct (label_with_noise || is_False n).
    + destruct Hl as (_ & -> & _). constructor.
    + destruct Hl as (o' & _ & ->). repeat constructor. apply Hq.
  - repeat constructor.
  - destruct hit.
    + destruct Htail as [-> _]. repeat constructor.
    + destruct Htail as (vis & Hvis & Htail).
      assert (Forall (λ ev : eventT, is_query t ev = false) vis) as Hv.
      { destruct Hvis as [->| ->]; repeat constructor. }
      destruct (a <? T - 1).
      * destruct Htail as (x' & _ & -> & _). repeat constructor. exact Hv.
      * destruct Htail as [-> _]. exact Hv.
Qed.

Lemma labelled_more p n same t adv (s : SampleT) (tr tr' : list eventT) :
  labelled p n same t adv s tr → Forall (λ ev, is_query t ev = false) tr' →
  labelled p n same t adv s (tr ++ tr').
Proof.
  intros (x & u & o & lbl & e & e1 & tr1 & relabel & tr2
          & -> & Hnq & HX & HU & HO & Hq & Hl & Hadv) Hnq'.
  exists x, u, o, lbl, e, e1, tr1, relabel, (tr2 ++ tr'). split_and!; try assumption.
  - rewrite <- !app_assoc. reflexivity.
  - rewrite app_assoc. apply Forall_app. auto.
  - intros Ha. destruct (Hadv Ha) as (x' & e3 & Hx' & Hin & HX').
    exists x', e3. split_and!; [exact Hx'|apply elem_of_app; auto|exact HX'].
Qed.

Lemma labelled_before p n same t adv (s : SampleT) (tr tr0 : list eventT) :
  labelled p n same t adv s tr → Forall (λ ev, is_query t ev = false) tr0 →
  labelled p n same t adv s (tr0 ++ tr).
Proof.
  intros (x & u & o & lbl & e & e1 & tr1 & relabel & tr2
          & -> & Hnq & HX & HU & HO & Hq & Hl & Hadv) Hnq'.
  exists x, u, o, lbl, e, e1, (tr0 ++ tr1), relabel, tr2. split_and!; try assumption.
  - rewrite <- !app_assoc. reflexivity.
  - rewrite <- app_assoc. apply Forall_app. auto.
Qed.

(** A later pass leaves the record of an earlier timestep as it is. *)
Lemma labelled_step p n same t adv a (s s' : SampleT) hit (tr tr' : list eventT) :
  0 ≤ t < a → labelled p n same t adv s tr → step_calls p n a s hit s' tr' →
  labelled p n same t adv s' (tr ++ tr').
Proof.
  intros Hta Hrec Hcalls.
  pose proof (step_calls_queries _ _ _ t _ _ _ _ Hcalls ltac:(lia)) as Hnq'.
  apply (labelled_more _ _ _ _ _ _ _ tr') in Hrec; [|exact Hnq'].
  destruct Hrec as (x & u & o & lbl & e & e1 & tr1 & relabel & tr2
                    & Htr & Hnq & HX & HU & HO & Hq & Hl & Hadv).
  destruct Hcalls as (xa & ua & oa & lbla & rela & tail & e0' & e1' & e2' & e3'
                      & _ & _ & HU' & HO' & _ & _ & _ & Htail).
  assert (∀ i : nat, (i ≤ Z.to_nat a)%nat → sX s' !! i = sX s !! i) as HXeq.
  { intros i Hi. destruct hit.
    - destruct Htail as [_ ->]. reflexivity.
    - destruct Htail as (vis & _ & Htail). destruct (a <? T - 1).
      + destruct Htail as (x' & _ & _ & ->). apply list_lookup_insert_ne. lia.
      + destruct Htail as [_ ->]. reflexivity. }
  exists x, u, o, lbl, e, e1, tr1, relabel, tr2. split_and!; try assumption.
  - rewrite HXeq by lia. exact HX.
  - rewrite HU', list_lookup_insert_ne by lia. exact HU.
  - rewrite HO', list_lookup_insert_ne by lia. exact HO.
  - intros Ha. destruct (Hadv Ha) as (x' & e3 & Hx' & Hin & HX').
    exists x', e3. split_and!; [exact Hx'|exact Hin|]. rewrite HXeq by lia. exact HX'.
Qed.

(** The pass at timestep [a] records it. *)
Lemma labelled_new p n a (s s' : SampleT) hit (tr tr' : list eventT) :
  0 ≤ a < T → horizon s (Z.to_nat T) → Forall (λ ev, is_query a ev = false) tr →
  step_calls p n a s hit s' tr' →
  labelled p n (label_with_noise || is_False n) a (negb hit && (a <? T - 1)) s' (tr ++ tr').
Proof.
  intros Ha (LX & LU & LO) Hnq
         (x & u & o & lbl & relabel & tail & e0 & e1 & e2 & e3
          & HX & -> & HU' & HO' & Hq & Hl & _ & Htail).
  exists x, u, o, lbl, e0, e1, (tr ++ [Info (MsgT a); UpdateWorld a]), relabel,
         (IsCollision a hit :: tail).
  split_and!.
  - rewrite <- !app_assoc. reflexivity.
  - rewrite <- app_assoc. apply Forall_app. split; [exact Hnq|].
    repeat constructor. destruct hit.
    + destruct Htail as [-> _]. repeat constructor.
    + destruct Htail as (vis & Hvis & Htail).
      assert (Forall (λ ev : eventT, is_query a ev = false) vis) as Hv.
      { destruct Hvis as [->| ->]; repeat constructor. }
      destruct (a <? T - 1).
      * destruct Htail as (x' & _ & -> & _). repeat constructor. exact Hv.
      * destruct Htail as [-> _]. exact Hv.
  - destruct hit.
    + destruct Htail as [_ ->]. exact HX.
    + destruct Htail as (vis & _ & Htail). destruct (a <? T - 1).
      * destruct Htail as (x' & _ & _ & ->).
        rewrite list_lookup_insert_ne by lia. exact HX.
      * destruct Htail as [_ ->]. exact HX.
  - rewrite HU'. apply list_lookup_insert_eq. lia.
  - rewrite HO'. apply list_lookup_insert_eq. lia.
  - exact Hq.
  - destruct (label_with_noise || is_False n).
    + destruct Hl as (? & ? & _). auto.
    + destruct Hl as (o' & ? & ?). eauto.
  - intros Hadv. destruct hit; [discriminate|]. simpl in Hadv. rewrite Hadv in Htail.
    destruct Htail as (vis & _ & x' & Hx' & -> & ->).
    exists x', e3. split_and!; [exact Hx'|simpl; rewrite !elem_of_cons; auto|].
    apply list_lookup_insert_eq. apply Z.ltb_lt in Hadv. lia.
Qed.

Lemma labelled_match p n same t adv (s : SampleT) (tr : list eventT) N t_end :
  horizon s N → 0 ≤ t_end < Z.of_nat N → 0 ≤ t ≤ t_end → (adv = true → t < t_end) →
  labelled p n same t adv s tr → labelled p n same t adv (Sample_match 0 (t_end + 1) s) tr.
Proof.
  intros (LX & LU & LO) Hend Ht Hadv
         (x & u & o & lbl & e & e1 & tr1 & relabel & tr2
          & -> & Hnq & HX & HU & HO & Hq & Hl & Hev).
  exists x, u, o, lbl, e, e1, tr1, relabel, tr2. unfold Sample_match. cbn [sX sU sO].
  rewrite !py_slice_0 by lia. split_and!; try assumption; try reflexivity.
  - rewrite lookup_take_lt by lia. exact HX.
  - rewrite lookup_take_lt by lia. exact HU.
  - rewrite lookup_take_lt by lia. exact HO.
  - intros Ha. destruct (Hev Ha) as (x' & e3 & Hx' & Hin & HX'). specialize (Hadv Ha).
    exists x', e3. split_and!; [exact Hx'|exact Hin|]. rewrite lookup_take_lt by lia. exact HX'.
Qed.

(** The labels of a rollout, for any noise object or [False]: the label
    is the executed action when labelling with noise or when the noise is
    [False], and the answer to a second query with [ZeroNoise]
    otherwise. *)
Lemma rollout_labels p n (s : SampleT) (st : StateT) :
  0 < T → horizon s (Z.to_nat T) →
  ∃ sample t_end st' tr,
    rollout p n s st = Ok (sample, t_end) st' ∧
    trace st' = trace st ++ tr ∧
    0 ≤ t_end < T ∧
    ∀ t, 0 ≤ t ≤ t_end →
         labelled p n (label_with_noise || is_False n) t (bool_decide (t < t_end)) sample tr.
Proof.
  intros HT Hs. set (same := label_with_noise || is_False n).
  pose (I := λ (a : Z) (s : SampleT) (tr : list eventT),
          (∀ t, 0 ≤ t < a → labelled p n same t true s tr) ∧
          (∀ t, a ≤ t → Forall (λ ev, is_query t ev = false) tr)).
  pose (Post := λ (t_end : Z) (s : SampleT) (tr : list eventT),
          0 ≤ t_end < T ∧
          ∀ t, 0 ≤ t ≤ t_end → labelled p n same t (bool_decide (t < t_end)) s tr).
  destruct (rollout_calls p n I Post s st) as (t_end & s' & st' & tr & E & T' & HP & Hs');
    [|exact HT|exact Hs| |].
  - intros a s0 tr0 hit s1 tr1 Ha Hs0 [HI HQ] Hcalls.
    pose proof (labelled_new p n a s0 s1 hit tr0 tr1 Ha Hs0 (HQ a ltac:(lia)) Hcalls) as Hnew.
    fold same in Hnew.
    assert (∀ t, 0 ≤ t < a → labelled p n same t true s1 (tr0 ++ tr1)) as Hold.
    { intros t Ht. eapply labelled_step; eauto. }
    destruct hit; [|destruct (a <? T - 1) eqn:Ea].
    + split; [exact Ha|]. intros t Ht. destruct (decide (t = a)) as [->|].
      * rewrite bool_decide_eq_false_2 by lia. exact Hnew.
      * rewrite bool_decide_eq_true_2 by lia. apply Hold. lia.
    + split.
      * intros t Ht. destruct (decide (t = a)) as [->|]; [exact Hnew|apply Hold; lia].
      * intros t Ht. apply Forall_app. split; [apply HQ; lia|].
        eapply step_calls_queries; [exact Hcalls|lia].
    + split; [exact Ha|]. intros t Ht. rewrite app_assoc.
      apply labelled_more; [|repeat constructor].
      destruct (decide (t = a)) as [->|].
      * rewrite bool_decide_eq_false_2 by lia. exact Hnew.
      * rewrite bool_decide_eq_true_2 by lia. apply Hold. lia.
  - split; [intros t Ht; lia|intros; constructor].
  - destruct HP as [Hend HR].
    exists (Sample_match 0 (t_end + 1) s'), t_end, st', tr.
    split_and!; [exact E|exact T'|lia|lia|].
    intros t Ht. eapply labelled_match; [exact Hs'|lia|exact Ht| |apply HR; exact Ht].
    intros Hb. apply bool_decide_eq_true in Hb. exact Hb.
Qed.

(** C4. For every timestep t of a rollout of [_run_itr] (horizon [T > 0],
    a noise kind [_create_control_noise] knows): the executed action is
    the agent's answer to a query with the noise object made for the
    configured kind, at the state of the sample at t.  The action
    recorded at t is that executed action exactly when 'label with noise'
    is set; otherwise, whatever the noise kind, 'zero' included, it is
    the agent's answer to a second query at the same state with
    [ZeroNoise], made right after the first.  The noise object is never
    [False], so no configuration of the noise makes the label the
    executed action.  In both cases the state written at t + 1, when
    the rollout goes on, is what the dynamics gives for the executed
    action. *)
Theorem C4_labels itr cond rep (st : StateT) :
  0 < T → noise_type_valid →
  ∃ cls x0 p r st' tr,
    _create_control_noise st = Ok (NoiseObj cls) st ∧
    (∀ n (st1 st2 : StateT), _create_control_noise st1 = Ok n st2 → is_False n = false) ∧
    (cn_type = "zero" → cls = ZeroNoise) ∧
    attempt itr cond rep st = Ok r st' ∧
    trace st' = trace st ++ tr ∧
    (∃ e, x0 = (conditions_get_cond cond rep e).1
          ∧ p = (_create_mpc itr x0 (conditions_get_cond cond rep e).2).1) ∧
    0 ≤ r_t r < T ∧
    ∀ t, 0 ≤ t ≤ r_t r →
         labelled p (NoiseObj cls) label_with_noise t (bool_decide (t < r_t r))
                  (r_sample r) tr.
Proof.
  intros HT Hn.
  destruct (attempt_spec_calls itr cond rep st HT Hn)
    as (x0 & s0 & p & cls & st0 & pre & Hh & H0 & Tpre & Hpre & Hp & Hcls & Ha).
  destruct (rollout_labels p (NoiseObj cls) s0 st0 HT Hh)
    as (sample & t_end & st1 & tr & E & Tr & Hend & Hrec).
  cbn [is_False] in Hrec. rewrite orb_false_r in Hrec.
  rewrite Ha, (bind_Ok _ _ _ _ _ E). cbn [fst snd].
  unfold get_world_info, get_info. mred.
  destruct (_get_world_info (env st1)) as [w e1]. cbn [env store trace].
  destruct (policy_get_info p e1) as [m e2]. cbn [env store trace].
  set (before := pre ++ [GetCond cond rep x0; SetX 0 x0; CreateMpc itr x0 p]).
  assert (∀ t, Forall (λ ev : eventT, is_query t ev = false) before) as Hbefore.
  { intros t. unfold before. destruct Hpre as [->| ->]; repeat constructor. }
  eexists cls, x0, p, _, _, (before ++ tr ++ [GetWorldInfo w; GetInfo m]).
  split; [apply Hcls|]. split.
  { intros n sa sb. unfold _create_control_noise.
    repeat (destruct (decide _); [intros [= <- _]; reflexivity|]). discriminate. }
  split.
  { intros Hz. specialize (Hcls st). unfold _create_control_noise in Hcls.
    rewrite decide_True in Hcls by exact Hz. injection Hcls as <-. reflexivity. }
  split; [reflexivity|]. cbn [r_t r_sample trace].
  split; [rewrite Tr, Tpre; fold before; rewrite <- !app_assoc; reflexivity|].
  split; [exact Hp|].
  split; [exact Hend|].
  intros t Ht. apply labelled_before; [|apply Hbefore].
  apply labelled_more; [|repeat constructor]. apply Hrec. exact Ht.
Qed.
End RolloutLabels.

Section RCcarDynamics.
Context {X U Obs WInfo MInfo Policy Env : Type}.
Context {V : Values X U Obs} {P : Params}.
Context {C : Collab X U Obs WInfo MInfo Policy Env}.
#[local] Abbreviation Mon := (M X U Obs WInfo MInfo Policy Env).
#[local] Abbreviation StateT := (State X U Obs WInfo MInfo Policy Env).
#[local] Abbreviation eventT := (event X U Obs WInfo MInfo Policy).
#[local] Abbreviation SampleT := (Sample X U Obs).
Import DaggerPrediction.

Lemma step_spec_evolve n a s hit s' (tr' : list eventT) :
  step_spec n a s hit s' tr' →
  ∀ t x u x', Evolve t x u x' ∈ tr' → ∃ e, x' = (dynamics_evolve x u e).1.
Proof.
  intros (x & u & o & lbl & relabel & tail & _ & -> & _ & _ & Hl & Htail) t x1 u1 x1' Hin.
  rewrite !elem_of_app, !elem_of_cons in Hin.
  destruct Hin as [[H|[H|[H|H]]]|[H|[[H|[H|[H|H]]]|H]]]; try discriminate; try (by inversion H).
  - destruct (label_with_noise || is_False n).
    + destruct Hl as [_ ->]. inversion H.
    + destruct Hl as (o' & ->). apply list_elem_of_singleton in H. discriminate.
  - destruct hit.
    + destruct Htail as [-> _]. apply list_elem_of_singleton in H. discriminate.
    + destruct Htail as (vis & Hvis & Htail).
      assert (Evolve t x1 u1 x1' ∉ vis) as Hv.
      { destruct Hvis as [->| ->]; intros He;
          [inversion He|apply list_elem_of_singleton in He; discriminate]. }
      destruct (a <? T - 1).
      * destruct Htail as (x' & e & -> & -> & _).
        rewrite elem_of_app, !elem_of_cons in H.
        destruct H as [[H|[H|H]]|H]; try discriminate; try (by inversion H).
        injection H as -> -> -> ->. eauto.
      * destruct Htail as [-> _]. tauto.
Qed.

(** C10. [DynamicsRCcar.evolve] returns the state it is given, whatever
    the control and the optional derivative arguments; so in a rollout
    whose dynamics is the RC car's, every state written by the
    state-advance step equals the state it advances from, and the state
    recorded in the sample is the initial one at every timestep. *)
Theorem C10_evolve_identity p n (s : SampleT) (st : StateT) (x0 : X) :
  (∀ (FX FU F0 : Type) (x : X) (u : U)
     (fx : option FX) (fu : option FU) (f0 : option F0),
     DynamicsRCcar.evolve x u fx fu f0 = x)
  ∧ ((∀ x u e, dynamics_evolve x u e
               = (DynamicsRCcar.evolve x u (@None unit) (@None unit) (@None unit), e)) →
     0 < T → horizon s (Z.to_nat T) → sX s !! 0%nat = Some x0 →
     ∃ sample t_end st' tr,
       rollout p n s st = Ok (sample, t_end) st' ∧
       trace st' = trace st ++ tr ∧
       0 ≤ t_end < T ∧
       (∀ t, 0 ≤ t ≤ t_end → sX sample !! Z.to_nat t = Some x0) ∧
       (∀ t x u x', Evolve t x u x' ∈ tr → x' = x)).
Proof.
  split; [reflexivity|]. intros Hdyn HT Hs H0.
  pose (I := λ (a : Z) (s : SampleT) (tr : list eventT),
          (∀ i : nat, (i ≤ Z.to_nat a)%nat → sX s !! i = Some x0) ∧
          (∀ t x u x', Evolve t x u x' ∈ tr → x' = x)).
  pose (Post := λ (t_end : Z) (s : SampleT) (tr : list eventT),
          0 ≤ t_end < T ∧
          (∀ i : nat, (i ≤ Z.to_nat t_end)%nat → sX s !! i = Some x0) ∧
          (∀ t x u x', Evolve t x u x' ∈ tr → x' = x)).
  assert (∀ a s0 hit s1 (tr1 : list eventT),
            0 ≤ a < T → horizon s0 (Z.to_nat T) → step_spec n a s0 hit s1 tr1 →
            (∀ i : nat, (i ≤ Z.to_nat a)%nat → sX s0 !! i = Some x0) →
            (∀ i : nat, (i ≤ Z.to_nat a)%nat → sX s1 !! i = Some x0) ∧
            (hit = false → a < T - 1 → sX s1 !! Z.to_nat (a + 1) = Some x0) ∧
            (∀ t x u x', Evolve t x u x' ∈ tr1 → x' = x)) as Hstep.
  { intros a s0 hit s1 tr1 Ha (LX & _ & _) Hspec HX.
    pose proof (step_spec_evolve _ _ _ _ _ _ Hspec) as Hev.
    destruct Hspec as (x & u & o & lbl & relabel & tail & Hx & _ & _ & _ & _ & Htail).
    assert (x = x0) as -> by (rewrite HX in Hx by lia; congruence).
    split_and!.
    - intros i Hi. destruct hit.
      + destruct Htail as [_ ->]. auto.
      + destruct Htail as (vis & _ & Htail). destruct (a <? T - 1).
        * destruct Htail as (x' & e & _ & _ & ->).
          rewrite list_lookup_insert_ne by lia. auto.
        * destruct Htail as [_ ->]. auto.
    - intros -> Hlt. destruct Htail as (vis & _ & Htail).
      destruct (a <? T - 1) eqn:Ea; [|lia].
      destruct Htail as (x' & e & -> & _ & ->). rewrite Hdyn. cbn [fst].
      apply list_lookup_insert_eq. lia.
    - intros t x u1 x' Hin. destruct (Hev _ _ _ _ Hin) as [e ->].
      rewrite Hdyn. reflexivity. }
  destruct (rollout_rule p n I Post s st) as (t_end & s' & st' & tr & E & T' & HP & Hs');
    [|exact HT|exact Hs| |].
  - intros a s0 tr0 hit s1 tr1 Ha Hs0 [IX IE] Hspec.
    destruct (Hstep a s0 hit s1 tr1 Ha Hs0 Hspec IX) as (HX1 & HX2 & HE).
    assert (∀ t x u x', Evolve t x u x' ∈ tr0 ++ tr1 → x' = x) as HE'.
    { intros t x u x' Hin. apply elem_of_app in Hin as [Hin|Hin]; eauto. }
    destruct hit; [|destruct (a <? T - 1) eqn:Ea].
    + refine (conj Ha (conj HX1 HE')).
    + split; [|exact HE']. intros i Hi.
      destruct (decide (i = Z.to_nat (a + 1))) as [->|]; [apply HX2; [reflexivity|lia]|].
      apply HX1. lia.
    + refine (conj Ha (conj HX1 _)). intros t x u x' Hin. rewrite app_assoc in Hin.
      apply elem_of_app in Hin as [Hin|Hin]; [eauto|].
      apply list_elem_of_singleton in Hin. discriminate.
  - split.
    + intros i Hi. replace i with 0%nat by lia. exact H0.
    + intros t x u x' Hin. inversion Hin.
  - destruct HP as (Hend & HX & HE).
    exists (Sample_match 0 (t_end + 1) s'), t_end, st', tr.
    refine (conj E (conj T' (conj Hend (conj _ HE)))).
    intros t Ht. unfold Sample_match. cbn [sX].
    destruct Hs' as (LX & _ & _).
    rewrite py_slice_0 by lia. rewrite lookup_take_lt by lia. apply HX. lia.
Qed.
End RCcarDynamics.

(** C4 on the simulated robot: three timesteps, gaussian noise, labels
    without noise.  The executed action is 8 at every timestep, the
    recorded label 1, the answer to the second query. *)
Lemma C4_labels_witness :
  let P := Scenario.params 2 3 false None in
  let C := Scenario.collab (Scenario.mkSetup 1 1 0 None (Scenario.RejectFirst 0) false) in
  let n := NoiseObj GaussianNoise in
  ∃ r st' tr,
    DaggerPrediction.attempt 0 0 0 (Scenario.start (Scenario.store_with [] [])) = Ok r st' ∧
    trace st' = tr ∧
    Scenario.queries tr = [(0, n, 8); (0, NoiseObj ZeroNoise, 1);
                     (1, n, 8); (1, NoiseObj ZeroNoise, 1);
                     (2, n, 8); (2, NoiseObj ZeroNoise, 1)] ∧
    Scenario.evolved tr = [(0, 8); (1, 8)] ∧
    sU (DaggerPrediction.r_sample r) = [1; 1; 1] ∧
    ∀ t, 0 ≤ t ≤ DaggerPrediction.r_t r →
         labelled tt n false t (bool_decide (t < DaggerPrediction.r_t r))
                  (DaggerPrediction.r_sample r) tr.
Proof.
  intros P C n.
  destruct (C4_labels (P:=P) (C:=C) 0 0 0 (Scenario.start (Scenario.store_with [] [])))
    as (cls & x0 & p & r & st' & tr & Hc & _ & _ & E & Tr & _ & _ & L).
  - reflexivity.
  - right; left; reflexivity.
  - assert (cls = GaussianNoise) as -> by (vm_compute in Hc; congruence).
    destruct p. change (trace st' = tr) in Tr. subst tr.
    pose proof E as E'. vm_compute in E'. injection E' as Hr Hst.
    exists r, st', (trace st'). split; [exact E|]. split; [reflexivity|].
    split; [rewrite <- Hst; vm_compute; reflexivity|].
    split; [rewrite <- Hst; vm_compute; reflexivity|].
    split; [rewrite <- Hr; vm_compute; reflexivity|]. exact L.
Defined.

(** C4 as stated fails when the noise is disabled by the kind 'zero' and
    the controller's answer changes from one query to the next: the noise
    object is [ZeroNoise], not [False]; the agent is asked twice at every
    timestep; the actions executed are 0 and 2 (and 4 at the last
    timestep), the labels recorded are 1, 3 and 5. *)
Lemma C4_counterexample :
  let P := Scenario.params_noise "zero" 2 3 false None in
  let C := Scenario.collab_sampling (Scenario.mkSetup 1 1 0 None (Scenario.RejectFirst 0) false) in
  let st := Scenario.start (Scenario.store_with [] []) in
  let n := NoiseObj ZeroNoise in
  DaggerPrediction._create_control_noise st = Ok n st
  ∧ ∃ r st',
      DaggerPrediction.attempt 0 0 0 st = Ok r st' ∧
      Scenario.queries (trace st') = [(0, n, 0); (0, n, 1); (1, n, 2); (1, n, 3); (2, n, 4); (2, n, 5)] ∧
      Scenario.evolved (trace st') = [(0, 0); (1, 2)] ∧
      sU (DaggerPrediction.r_sample r) = [1; 3; 5] ∧
      sX (DaggerPrediction.r_sample r) = [0; 0; 2].
Proof.
  intros P C st n. split; [vm_compute; reflexivity|].
  eexists _, _. split; [vm_compute; reflexivity|].
  split_and!; vm_compute; reflexivity.
Qed.

(** C10 on the simulated robot with the RC car's dynamics. *)
Lemma C10_evolve_identity_witness :
  let P := Scenario.params 2 3 false None in
  let C := Scenario.collab (Scenario.mkSetup 1 1 5 None (Scenario.RejectFirst 0) true) in
  ∃ sample t_end st' tr,
    DaggerPrediction.rollout tt (NoiseObj GaussianNoise) (Scenario.initial_sample 5)
      (Scenario.start (Scenario.store_with [] [])) = Ok (sample, t_end) st' ∧
    trace st' = tr ∧
    0 ≤ t_end < 3 ∧
    (∀ t, 0 ≤ t ≤ t_end → sX sample !! Z.to_nat t = Some 5) ∧
    (∀ t x u x', Evolve t x u x' ∈ tr → x' = x).
Proof.
  intros P C.
  apply (proj2 (C10_evolve_identity (P:=P) (C:=C) tt (NoiseObj GaussianNoise)
                  (Scenario.initial_sample 5)
                  (Scenario.start (Scenario.store_with [] [])) 5)).
  - reflexivity.
  - reflexivity.
  - repeat split.
  - reflexivity.
Defined.

Section GateLoop.
Context {X U Obs WInfo MInfo Policy Env : Type}.
Context {V : Values X U Obs} {P : Params}.
Context {C : Collab X U Obs WInfo MInfo Policy Env}.
#[local] Abbreviation Mon := (M X U Obs WInfo MInfo Policy Env).
#[local] Abbreviation StateT := (State X U Obs WInfo MInfo Policy Env).
#[local] Abbreviation eventT := (event X U Obs WInfo MInfo Policy).
#[local] Abbreviation SampleT := (Sample X U Obs).
Import DaggerPrediction.

Lemma samples_last_snoc (l : list SampleT) s (st : StateT) :
  samples_last (l ++ [s]) st = Ok s st.
Proof.
  unfold samples_last, py_index. rewrite length_app. cbn [length].
  change (0 <=? -1) with false. change (-1 <? 0) with true. cbn [andb].
  replace (- Z.of_nat (length l + 1) <=? -1) with true
    by (symmetry; apply Z.leb_le; lia).
  cbn [andb mbind option_bind].
  replace (Z.to_nat (-1 + Z.of_nat (length l + 1))) with (length l + 0)%nat by lia.
  rewrite lookup_app_r by lia. replace (length l + 0 - length l)%nat with 0%nat by lia.
  reflexivity.
Qed.

(** One pass of the [while] loop, by the gate's answer. *)
Lemma while_rep_pass fuel itr cond rep acc (st : StateT) r st1 good st2 :
  rep < conditions_repeats →
  attempt itr cond rep st = Ok r st1 →
  is_good_rollout (r_sample r) (r_t r) st1 = Ok good st2 →
  while_rep (S fuel) itr cond rep acc st =
    if truthy good then
      if isfinite (r_sample r) then
        while_rep fuel itr cond (rep + 1) (append_rollout acc r)
          (logged st2 [IsFinite (r_sample r) true; Info (MsgFinished cond rep)])
      else Raise AssertionError (logged st2 [IsFinite (r_sample r) false])
    else while_rep fuel itr cond rep acc (logged st2 [Warning MsgNotGood]).
Proof.
  intros Hrep Ha Hg. cbn [while_rep].
  destruct (rep <? conditions_repeats) eqn:E; [|lia].
  rewrite (bind_Ok _ _ _ _ _ Ha), (bind_Ok _ _ _ _ _ Hg).
  destruct (truthy good); cbn [negb].
  - cbv zeta. change (samples (append_rollout acc r)) with (samples acc ++ [r_sample r]).
    rewrite (bind_Ok _ _ _ _ _ (samples_last_snoc _ _ _)).
    unfold Sample_isfinite. rewrite !bind_unfold. cbn [emit mret M_ret].
    destruct (isfinite (r_sample r)); cbn [assert_ mret M_ret raise].
    + mred. unfold logged. cbn [env store trace]. rewrite <- app_assoc. reflexivity.
    + reflexivity.
  - rewrite bind_unfold. reflexivity.
Qed.

(** A run of rejected rollouts leaves the slot and the lists as they
    are. *)
Lemma while_rep_retried itr cond rep acc k (st st' : StateT) :
  rep < conditions_repeats →
  retried itr cond rep k st st' →
  ∀ fuel, while_rep (k + fuel) itr cond rep acc st = while_rep fuel itr cond rep acc st'.
Proof.
  intros Hrep. induction 1 as [st|k st r st1 good st2 st' Ha Hg Hgood _ IH]; intros fuel.
  - reflexivity.
  - cbn [Nat.add].
    rewrite (while_rep_pass _ _ _ _ _ _ _ _ _ _ Hrep Ha Hg), Hgood. apply IH.
Qed.

Lemma accepted_samples_app (tr1 tr2 : list eventT) :
  accepted_samples tr1 ++ accepted_samples tr2 = accepted_samples (tr1 ++ tr2).
Proof. symmetry. apply omap_app. Qed.

Lemma generated_samples_app (tr1 tr2 : list eventT) :
  generated_samples tr1 ++ generated_samples tr2 = generated_samples (tr1 ++ tr2).
Proof. symmetry. apply omap_app. Qed.

Lemma no_gate_event_samples (tr : list eventT) :
  Forall (λ e, is_gate_event e = false) tr →
  accepted_samples tr = [] ∧ generated_samples tr = [].
Proof.
  induction 1 as [|e tr He _ [IH1 IH2]]; [split; reflexivity|].
  destruct e; try discriminate; split; assumption.
Qed.

(** What an Ok pass up to the gate's answer adds. *)
Lemma attempt_gate_Ok itr cond rep (st : StateT) r st1 good st2 :
  attempt itr cond rep st = Ok r st1 →
  is_good_rollout (r_sample r) (r_t r) st1 = Ok good st2 →
  ∃ tr, trace st2 = trace st ++ tr ++ [IsGoodRollout (r_sample r) (r_t r) good] ∧
        Forall attempt_event tr ∧ store st2 = store st.
Proof.
  intros Ha Hg. destruct (emits_attempt itr cond rep st) as (tr & Htr & HF & Hst).
  rewrite Ha in Htr, Hst. cbn [final] in Htr, Hst.
  unfold is_good_rollout in Hg. mred.
  destruct (_is_good_rollout (r_sample r) (r_t r) (env st1)) as [v e'].
  injection Hg as <- <-. exists tr. cbn [trace store].
  rewrite Htr, <- app_assoc. split_and!; [reflexivity|exact HF|].
  apply Hst. eapply Forall_impl; [exact HF|]. intros e (_ & H & _). exact H.
Qed.

Lemma is_good_rollout_total s t (st : StateT) :
  ∃ good st2, is_good_rollout s t st = Ok good st2.
Proof.
  unfold is_good_rollout. mred. destruct (_is_good_rollout s t (env st)). eauto.
Qed.

(** The [while] loop of a slot appends the accepted samples, as many as
    there are repetitions left, and keeps the run directory. *)
Lemma while_rep_Ok itr cond fuel : ∀ rep acc (st : StateT) acc' st',
  while_rep fuel itr cond rep acc st = Ok acc' st' →
  ∃ tr, trace st' = trace st ++ tr ∧ store st' = store st ∧
        samples acc' = samples acc ++ accepted_samples tr ∧
        length (accepted_samples tr) = Z.to_nat (conditions_repeats - rep).
Proof.
  induction fuel as [|fuel IH]; intros rep acc st acc' st' H; [discriminate|].
  destruct (decide (rep < conditions_repeats)) as [Hrep|Hrep].
  - assert (∃ r st1, attempt itr cond rep st = Ok r st1) as (r & st1 & Ha).
    { cbn [while_rep] in H. destruct (rep <? conditions_repeats) eqn:E; [|lia].
      apply bind_Ok_inv in H as (r & st1 & Ha & _). eauto. }
    destruct (is_good_rollout_total (r_sample r) (r_t r) st1) as (good & st2 & Hg).
    rewrite (while_rep_pass _ _ _ _ _ _ _ _ _ _ Hrep Ha Hg) in H.
    destruct (attempt_gate_Ok _ _ _ _ _ _ _ _ Ha Hg) as (tr1 & T1 & F1 & S1).
    assert (Forall (λ e, is_gate_event e = false) tr1) as F1'.
    { eapply Forall_impl; [exact F1|]. intros e (_ & _ & He). exact He. }
    destruct (no_gate_event_samples tr1 F1') as [A1 _].
    destruct (truthy good) eqn:Hgood; [destruct (isfinite (r_sample r)) eqn:Hfin|].
    + apply IH in H as (tr & Htr & Hst & Hs & Hl). cbn [logged trace store] in Htr, Hst.
      eexists. split_and!.
      * rewrite Htr, T1, <- !app_assoc. reflexivity.
      * congruence.
      * rewrite Hs. cbn [append_rollout samples].
        rewrite <- !accepted_samples_app, A1. unfold accepted_samples at 2. simpl.
        rewrite Hgood. rewrite <- app_assoc. reflexivity.
      * rewrite <- !accepted_samples_app, A1. unfold accepted_samples at 1. simpl.
        rewrite Hgood. simpl. fold (accepted_samples tr). rewrite Hl. lia.
    + discriminate.
    + apply IH in H as (tr & Htr & Hst & Hs & Hl). cbn [logged trace store] in Htr, Hst.
      eexists. split_and!.
      * rewrite Htr, T1, <- !app_assoc. reflexivity.
      * congruence.
      * rewrite Hs. rewrite <- !accepted_samples_app, A1. unfold accepted_samples at 2.
        simpl. rewrite Hgood. reflexivity.
      * rewrite <- !accepted_samples_app, A1. unfold accepted_samples at 1. simpl.
        rewrite Hgood. simpl. exact Hl.
  - cbn [while_rep] in H. destruct (rep <? conditions_repeats) eqn:E; [lia|].
    injection H as <- <-. exists []. rewrite !app_nil_r.
    split_and!; try reflexivity. simpl. lia.
Qed.

Lemma for_cond_Ok itr fuel conds : ∀ acc (st : StateT) acc' st',
  for_cond fuel itr conds acc st = Ok acc' st' →
  ∃ tr, trace st' = trace st ++ tr ∧ store st' = store st ∧
        samples acc' = samples acc ++ accepted_samples tr ∧
        length (accepted_samples tr)
        = (length conds * Z.to_nat conditions_repeats)%nat.
Proof.
  induction conds as [|c conds IH]; intros acc st acc' st' H; cbn [for_cond] in H.
  - injection H as <- <-. exists []. rewrite !app_nil_r. split_and!; reflexivity.
  - apply bind_Ok_inv in H as (acc1 & st1 & H1 & H2).
    apply while_rep_Ok in H1 as (tr1 & T1 & S1 & A1 & L1).
    apply IH in H2 as (tr2 & T2 & S2 & A2 & L2).
    exists (tr1 ++ tr2). split_and!.
    + rewrite T2, T1, app_assoc. reflexivity.
    + congruence.
    + rewrite A2, A1, <- accepted_samples_app, app_assoc. reflexivity.
    + rewrite <- accepted_samples_app, length_app, L1, L2. simpl. lia.
Qed.

Lemma collect_Ok itr fuel (st : StateT) acc st' :
  collect fuel itr st = Ok acc st' →
  ∃ tr, trace st' = trace st ++ tr ∧ store st' = store st ∧
        samples acc = accepted_samples tr ∧
        length (accepted_samples tr)
        = (Z.to_nat conditions_length * Z.to_nat conditions_repeats)%nat.
Proof.
  unfold collect. intros H. rewrite !bind_unfold in H. cbn [call_ emit] in H.
  apply for_cond_Ok in H as (tr & T1 & S1 & A1 & L1). cbn [trace store samples] in *.
  exists (ConditionsReset :: tr). split_and!.
  - rewrite T1, <- app_assoc. reflexivity.
  - exact S1.
  - exact A1.
  - change (accepted_samples (ConditionsReset :: tr)) with (accepted_samples tr).
    rewrite L1. unfold xrange, xrange2. rewrite length_fmap, length_seq. f_equal. lia.
Qed.
End GateLoop.

Section Persist.
Context {X U Obs WInfo MInfo Policy Env : Type}.
Context {V : Values X U Obs} {P : Params}.
Context {C : Collab X U Obs WInfo MInfo Policy Env}.
#[local] Abbreviation Mon := (M X U Obs WInfo MInfo Policy Env).
#[local] Abbreviation StateT := (State X U Obs WInfo MInfo Policy Env).
#[local] Abbreviation StoreT := (Store X U Obs WInfo MInfo).
#[local] Abbreviation eventT := (event X U Obs WInfo MInfo Policy).
#[local] Abbreviation SampleT := (Sample X U Obs).
Import DaggerPrediction.

Lemma with_dir_id itr (s : StoreT) : itr ∈ dirs s → with_dir itr s = s.
Proof.
  intros H. unfold with_dir. destruct s as [f d]. cbn [files dirs] in *.
  f_equal. apply subseteq_union_1_L. set_solver.
Qed.

(** [_itr_dir(itr)] makes the directory if it is missing. *)
Lemma itr_dir_create itr (st : StateT) :
  ∃ mk, _itr_dir itr true st
        = Ok tt (mkState (env st) (with_dir itr (store st)) (trace st ++ mk))
        ∧ (mk = [] ∨ mk = [Makedirs itr (with_dir itr (store st))]).
Proof.
  unfold _itr_dir. cbn [negb]. mred. destruct (decide (itr ∈ dirs (store st))) as [Hin|Hin].
  - exists []. split; [|left; reflexivity].
    rewrite with_dir_id by exact Hin. rewrite app_nil_r. destruct st; reflexivity.
  - exists [Makedirs itr (with_dir itr (store st))]. split; [reflexivity|right; reflexivity].
Qed.

Lemma itr_dir_present itr (st : StateT) :
  itr ∈ dirs (store st) → _itr_dir itr true st = Ok tt st.
Proof.
  intros Hin. unfold _itr_dir. cbn [negb]. mred.
  destruct (decide (itr ∈ dirs (store st))); [reflexivity|contradiction].
Qed.

Lemma write_file_spec f c (st : StateT) :
  write_file f c st
  = Ok tt (mkState (env st) (with_file f c (store st))
                   (trace st ++ [Write f (with_file f c (store st))])).
Proof. reflexivity. Qed.

Lemma save_in_dir itr f c (st : StateT) :
  itr ∈ dirs (store st) →
  (_itr_dir itr true;; write_file f c) st
  = Ok tt (mkState (env st) (with_file f c (store st))
                   (trace st ++ [Write f (with_file f c (store st))])).
Proof.
  intros Hin. rewrite bind_unfold, (itr_dir_present _ _ Hin). apply write_file_spec.
Qed.

(** The tail of [_run_itr]: what it writes, in order. *)
Lemma persist_spec itr acc (st : StateT) :
  let s0 := with_dir itr (store st) in
  let s1 := with_file (samples_file itr) (Samples (samples acc)) s0 in
  let s2 := match _itr_save_worlds with
            | None => with_file (worlds_file itr) (Worlds (world_infos acc)) s1
            | Some _ => s1
            end in
  let s3 := with_file (mpcs_file itr) (Mpcs (mpc_infos acc)) s2 in
  ∃ mk st',
    persist itr acc st = Ok tt st' ∧
    store st' = s3 ∧
    (mk = [] ∨ mk = [Makedirs itr s0]) ∧
    trace st' = trace st ++ mk ++ [Write (samples_file itr) s1]
                ++ match _itr_save_worlds with
                   | None => [Write (worlds_file itr) s2]
                   | Some _ => []
                   end
                ++ [Write (mpcs_file itr) s3; ResetWorld itr 0 0].
Proof.
  intros s0 s1 s2 s3.
  assert (itr ∈ dirs s1) as Hin1 by (unfold s1, s0, with_file, with_dir; cbn [dirs]; set_solver).
  assert (itr ∈ dirs s2) as Hin2.
  { unfold s2. destruct _itr_save_worlds; [exact Hin1|exact Hin1]. }
  destruct (itr_dir_create itr st) as (mk & Hd & Hmk). exists mk.
  unfold persist, _itr_save_samples, _itr_samples_file.
  rewrite !bind_unfold, Hd. cbn [mret M_ret].
  rewrite write_file_spec. cbn [env store trace]. fold s0. fold s1.
  unfold save_worlds, _itr_save_mpcs, itr_save_worlds, reset_world.
  unfold s3, s2. destruct _itr_save_worlds as [f|].
  - rewrite bind_unfold. cbn [call_ env store trace].
    rewrite bind_unfold, save_in_dir by exact Hin1.
    rewrite bind_unfold. cbn [call_ emit env store trace].
    eexists. split_and!; [reflexivity|reflexivity|exact Hmk|].
    cbn [trace]. rewrite <- !app_assoc. reflexivity.
  - rewrite bind_unfold, save_in_dir by exact Hin1.
    rewrite bind_unfold, save_in_dir by exact Hin2.
    rewrite bind_unfold. cbn [call_ emit env store trace].
    eexists. split_and!; [reflexivity|reflexivity|exact Hmk|].
    cbn [trace]. rewrite <- !app_assoc. reflexivity.
Qed.

Lemma writes_app (tr1 tr2 : list eventT) : writes (tr1 ++ tr2) = writes tr1 ++ writes tr2.
Proof. apply omap_app. Qed.

Lemma writes_quiet (tr : list eventT) :
  Forall (λ e, is_store_event e = false) tr → writes tr = [].
Proof.
  induction 1 as [|e tr He _ IH]; [reflexivity|].
  destruct e; try discriminate; exact IH.
Qed.

Lemma collection_no_store (tr : list eventT) :
  Forall collection_event tr → Forall (λ e, is_store_event e = false) tr.
Proof. intros H. eapply Forall_impl; [exact H|]. intros e [_ He]. exact He. Qed.

(** C8, amended. For every iteration, nothing is written to the run
    directory while its rollouts are collected, and nothing at all if the
    collection does not return; once all conditions and repetitions are
    done, the record is persisted by successive writes, each one visible
    in the run directory when it is made: the samples artifact first,
    then the world metadata (unless the class overrides
    [_itr_save_worlds], as [ProbcollRCcar] does with [pass]), then the
    controller metadata.  Right after the first write the run directory
    holds the iteration's samples artifact while its world and controller
    artifacts are still what they were before the iteration. *)
Theorem C8_persist_after_collect fuel itr (st : StateT) :
  (∃ tr, trace (final (collect fuel itr st)) = trace st ++ tr ∧
         Forall (λ e, is_store_event e = false) tr ∧
         store (final (collect fuel itr st)) = store st)
  ∧ ((∀ acc st1, collect fuel itr st ≠ Ok acc st1) →
     store (final (_run_itr fuel itr st)) = store st)
  ∧ (∀ acc st1,
       collect fuel itr st = Ok acc st1 →
       let s0 := with_dir itr (store st) in
       let s1 := with_file (samples_file itr) (Samples (samples acc)) s0 in
       let s2 := match _itr_save_worlds with
                 | None => with_file (worlds_file itr) (Worlds (world_infos acc)) s1
                 | Some _ => s1
                 end in
       let s3 := with_file (mpcs_file itr) (Mpcs (mpc_infos acc)) s2 in
       ∃ st',
         _run_itr fuel itr st = Ok tt st' ∧
         store st' = s3 ∧
         writes (trace st')
         = writes (trace st) ++ [(samples_file itr, s1)]
           ++ match _itr_save_worlds with
              | None => [(worlds_file itr, s2)]
              | Some _ => []
              end
           ++ [(mpcs_file itr, s3)] ∧
         has_samples s1 itr ∧
         files s1 !! worlds_file itr = files (store st) !! worlds_file itr ∧
         files s1 !! mpcs_file itr = files (store st) !! mpcs_file itr).
Proof.
  destruct (emits_collect fuel itr st) as (tr & Htr & HF & Hst).
  apply collection_no_store in HF. specialize (Hst HF).
  split_and!.
  - exists tr. auto.
  - intros Hno. unfold _run_itr. rewrite bind_unfold.
    destruct (collect fuel itr st) as [acc st1|e st1|st1]; cbn [final] in *;
      [exfalso; eapply Hno; reflexivity|exact Hst|exact Hst].
  - intros acc st1 Hc s0 s1 s2 s3. rewrite Hc in Htr, Hst. cbn [final] in Htr, Hst.
    destruct (persist_spec itr acc st1) as (mk & st' & Hp & Hs & Hmk & Ht).
    rewrite Hst in Hs, Hmk, Ht. exists st'. split_and!.
    + unfold _run_itr. rewrite (bind_Ok _ _ _ _ _ Hc). exact Hp.
    + exact Hs.
    + rewrite Ht, Htr. rewrite !writes_app, (writes_quiet _ HF), app_nil_r.
      assert (writes mk = []) as -> by (destruct Hmk as [->| ->]; reflexivity).
      fold s0 s1 s2 s3. destruct _itr_save_worlds; reflexivity.
    + unfold has_samples, s1, with_file. cbn [files]. rewrite lookup_insert_eq. eauto.
    + unfold s1, s0, with_file, with_dir. cbn [files]. apply lookup_insert_ne. discriminate.
    + unfold s1, s0, with_file, with_dir. cbn [files]. apply lookup_insert_ne. discriminate.
Qed.

Lemma retried_trace itr cond rep k (st st' : StateT) :
  retried itr cond rep k st st' →
  ∃ tr, trace st' = trace st ++ tr ∧ length (generated_samples tr) = k ∧
        accepted_samples tr = [].
Proof.
  induction 1 as [st|k st r st1 good st2 st' Ha Hg Hgood _ (tr & Htr & Hl & Hacc)].
  - exists []. rewrite app_nil_r. auto.
  - destruct (attempt_gate_Ok _ _ _ _ _ _ _ _ Ha Hg) as (tr1 & T1 & F1 & _).
    assert (Forall (λ e, is_gate_event e = false) tr1) as F1'.
    { eapply Forall_impl; [exact F1|]. intros e (_ & _ & He). exact He. }
    destruct (no_gate_event_samples tr1 F1') as [A1 G1].
    cbn [logged trace] in Htr.
    exists (tr1 ++ [IsGoodRollout (r_sample r) (r_t r) good] ++ [Warning MsgNotGood] ++ tr).
    split_and!.
    + rewrite Htr, T1, <- !app_assoc. reflexivity.
    + rewrite <- !generated_samples_app, G1. simpl. f_equal. exact Hl.
    + rewrite <- !accepted_samples_app, A1, Hacc. simpl.
      unfold accepted_samples. simpl. rewrite Hgood. reflexivity.
Qed.

(** C6. Whenever [_run_itr] returns, the samples artifact it persisted
    for the iteration holds exactly the rollouts the gate accepted, in
    order, and they are conditions.length x conditions.repeats many: a
    rejected rollout is not appended.  And in any slot (cond, rep): if the
    gate rejects the first K rollouts generated for the slot and accepts
    the next one (a finite one), the loop makes exactly K retries with the
    repetition counter unchanged, then appends the accepted rollout, which
    is the (K+1)-th generated, and only then moves to rep + 1. *)
Theorem C6_retry_and_count fuel itr (st : StateT) :
  (∀ st', _run_itr fuel itr st = Ok tt st' →
     ∃ tr, trace st' = trace st ++ tr ∧
           files (store st') !! samples_file itr = Some (Samples (accepted_samples tr)) ∧
           length (accepted_samples tr)
           = (Z.to_nat conditions_length * Z.to_nat conditions_repeats)%nat ∧
           (0 ≤ conditions_length → 0 ≤ conditions_repeats →
            Z.of_nat (length (accepted_samples tr))
            = conditions_length * conditions_repeats))
  ∧ (∀ cond rep acc k stk r st1 good st2,
       rep < conditions_repeats →
       retried itr cond rep k st stk →
       attempt itr cond rep stk = Ok r st1 →
       is_good_rollout (r_sample r) (r_t r) st1 = Ok good st2 →
       truthy good = true → isfinite (r_sample r) = true →
       (∀ fuel', while_rep (k + S fuel') itr cond rep acc st
                 = while_rep fuel' itr cond (rep + 1) (append_rollout acc r)
                     (logged st2 [IsFinite (r_sample r) true;
                                  Info (MsgFinished cond rep)]))
       ∧ ∃ tr, trace st2 = trace st ++ tr ∧
               length (generated_samples tr) = S k ∧
               last (generated_samples tr) = Some (r_sample r) ∧
               accepted_samples tr = [r_sample r]).
Proof.
  split.
  - intros st' H. unfold _run_itr in H.
    apply bind_Ok_inv in H as (acc & st1 & Hc & Hp).
    apply collect_Ok in Hc as (tr1 & T1 & S1 & A1 & L1).
    destruct (persist_spec itr acc st1) as (mk & st'' & Hp' & Hs & Hmk & Ht).
    rewrite Hp in Hp'. injection Hp' as <-.
    eexists. split_and!.
    + rewrite Ht, T1, <- !app_assoc. reflexivity.
    + rewrite Hs. cbn [with_file files].
      rewrite lookup_insert_ne by discriminate.
      assert (∀ s : Store X U Obs WInfo MInfo,
                files (match _itr_save_worlds with
                       | None => with_file (worlds_file itr) (Worlds (world_infos acc)) s
                       | Some _ => s
                       end) !! samples_file itr = files s !! samples_file itr) as ->.
      { intros s. destruct _itr_save_worlds; [reflexivity|].
        cbn [with_file files]. apply lookup_insert_ne. discriminate. }
      cbn [with_file files]. rewrite lookup_insert_eq. do 2 f_equal.
      rewrite A1. rewrite <- !accepted_samples_app.
      assert (accepted_samples mk = []) as -> by (destruct Hmk as [->| ->]; reflexivity).
      destruct _itr_save_worlds; simpl; rewrite app_nil_r; reflexivity.
    + rewrite <- !accepted_samples_app.
      assert (accepted_samples mk = []) as -> by (destruct Hmk as [->| ->]; reflexivity).
      destruct _itr_save_worlds; simpl; rewrite app_nil_r; exact L1.
    + intros HL HR. rewrite <- !accepted_samples_app.
      assert (accepted_samples mk = []) as -> by (destruct Hmk as [->| ->]; reflexivity).
      destruct _itr_save_worlds; simpl; rewrite app_nil_r, L1; lia.
  - intros cond rep acc k stk r st1 good st2 Hrep Hk Ha Hg Hgood Hfin. split.
    + intros fuel'. rewrite (while_rep_retried _ _ _ _ _ _ _ Hrep Hk).
      rewrite (while_rep_pass _ _ _ _ _ _ _ _ _ _ Hrep Ha Hg), Hgood, Hfin. reflexivity.
    + destruct (retried_trace _ _ _ _ _ _ Hk) as (tr0 & T0 & L0 & A0).
      destruct (attempt_gate_Ok _ _ _ _ _ _ _ _ Ha Hg) as (tr1 & T1 & F1 & _).
      assert (Forall (λ e, is_gate_event e = false) tr1) as F1'.
      { eapply Forall_impl; [exact F1|]. intros e (_ & _ & He). exact He. }
      destruct (no_gate_event_samples tr1 F1') as [A1 G1].
      exists (tr0 ++ tr1 ++ [IsGoodRollout (r_sample r) (r_t r) good]). split_and!.
      * rewrite T1, T0, <- !app_assoc. reflexivity.
      * rewrite <- !generated_samples_app, G1, length_app, L0. simpl. lia.
      * rewrite <- !generated_samples_app, G1. simpl. apply last_snoc.
      * rewrite <- !accepted_samples_app, A0, A1. simpl.
        unfold accepted_samples. simpl. rewrite Hgood. reflexivity.
Qed.
End Persist.

Section Abort.
Context {X U Obs WInfo MInfo Policy Env : Type}.
Context {V : Values X U Obs} {P : Params}.
Context {C : Collab X U Obs WInfo MInfo Policy Env}.
#[local] Abbreviation Mon := (M X U Obs WInfo MInfo Policy Env).
#[local] Abbreviation StateT := (State X U Obs WInfo MInfo Policy Env).
#[local] Abbreviation StoreT := (Store X U Obs WInfo MInfo).
#[local] Abbreviation eventT := (event X U Obs WInfo MInfo Policy).
#[local] Abbreviation SampleT := (Sample X U Obs).
Import DaggerPrediction.

Lemma no_failed_check_app (tr1 tr2 : list eventT) :
  no_failed_check tr1 → Forall (λ e, is_gate_event e = false) tr2 →
  no_failed_check (tr1 ++ tr2).
Proof.
  intros H1 H2 s Hin. apply elem_of_app in Hin as [Hin|Hin]; [exact (H1 s Hin)|].
  rewrite Forall_forall in H2. specialize (H2 _ Hin). discriminate.
Qed.

Lemma fca_of_emits {A} (m : Mon A) :
  emits (λ e, is_gate_event e = false) m → failed_check_aborts m.
Proof.
  intros H st Hst. left. destruct (H st) as (tr & -> & HF & _).
  apply no_failed_check_app; assumption.
Qed.

Lemma fca_bind {A B} (m : Mon A) (k : A → Mon B) :
  failed_check_aborts m → (∀ a, failed_check_aborts (k a)) →
  failed_check_aborts (m ≫= k).
Proof.
  intros Hm Hk st Hst. rewrite bind_unfold.
  destruct (Hm st Hst) as [H|[st' H]].
  - destruct (m st) as [a st1|e st1|st1]; cbn [final] in H; [|left; exact H..].
    exact (Hk a st1 H).
  - rewrite H. right. eauto.
Qed.

(** The check and its assertion. *)
Lemma fca_check {A} s (k : Mon A) :
  failed_check_aborts k →
  failed_check_aborts (fin ← Sample_isfinite s; assert_ fin;; k).
Proof.
  intros Hk st Hst. unfold Sample_isfinite. rewrite !bind_unfold. cbn [emit mret M_ret].
  mred. destruct (isfinite s) eqn:Hfin; cbn [assert_].
  - mred. apply Hk. cbn [trace]. intros s' Hin.
    apply elem_of_app in Hin as [Hin|Hin]; [exact (Hst s' Hin)|].
    apply list_elem_of_singleton in Hin. discriminate.
  - right. mred. eauto.
Qed.

Lemma attempt_event_no_gate (e : eventT) : attempt_event e → is_gate_event e = false.
Proof. intros (_ & _ & H). exact H. Qed.

Lemma fca_while_rep fuel itr cond : ∀ rep acc,
  failed_check_aborts (while_rep fuel itr cond rep acc : Mon _).
Proof.
  induction fuel as [|fuel IH]; intros rep acc; cbn [while_rep].
  - apply fca_of_emits, emits_out_of_fuel.
  - destruct (rep <? conditions_repeats); [|apply fca_of_emits, emits_ret].
    apply fca_bind.
    { apply fca_of_emits. eapply emits_weaken; [|apply emits_attempt].
      apply attempt_event_no_gate. }
    intros r. apply fca_bind.
    { intros st Hst. left. unfold is_good_rollout. mred.
      destruct (_is_good_rollout (r_sample r) (r_t r) (env st)) as [v e'].
      cbn [final trace]. intros s Hin. apply elem_of_app in Hin as [Hin|Hin].
      - exact (Hst s Hin).
      - apply list_elem_of_singleton in Hin. discriminate. }
    intros good. destruct (negb (truthy good)).
    + apply fca_bind; [apply fca_of_emits, emits_emit; reflexivity|]. intros _. apply IH.
    + cbv zeta. apply fca_bind.
      { apply fca_of_emits. unfold samples_last. apply emits_or_IndexError. }
      intros s. apply fca_check.
      apply fca_bind; [apply fca_of_emits, emits_emit; reflexivity|]. intros _. apply IH.
Qed.

Lemma fca_for_cond fuel itr conds : ∀ acc,
  failed_check_aborts (for_cond fuel itr conds acc : Mon _).
Proof.
  induction conds as [|c conds IH]; intros acc; cbn [for_cond].
  - apply fca_of_emits, emits_ret.
  - apply fca_bind; [apply fca_while_rep|apply IH].
Qed.

Lemma emits_mapM {A B} (Q : eventT → Prop) (f : A → Mon B) (l : list A) :
  (∀ a, emits Q (f a)) → emits Q (mapM f l).
Proof.
  intros H. induction l as [|a l IH]; simpl; [apply emits_ret|].
  apply emits_bind; [apply H|]. intros b.
  apply emits_bind; [apply IH|]. intros bs. apply emits_ret.
Qed.

Lemma emits_resolve_scan_model itrs : ∀ v,
  emits (λ e : eventT, is_gate_event e = false) (find_model itrs v : Mon _).
Proof.
  induction itrs as [|i itrs IH]; intros v; cbn [find_model]; [apply emits_ret|].
  unfold _itr_model_file, checkpoint_exists.
  repeat (first [apply IH|apply emits_itr_dir; intros|emits_step]); done.
Qed.

Lemma emits_resolve_scan_samples itrs : ∀ v,
  emits (λ e : eventT, is_gate_event e = false) (find_samples itrs v : Mon _).
Proof.
  induction itrs as [|i itrs IH]; intros v; cbn [find_samples]; [apply emits_ret|].
  unfold _itr_samples_file, os_path_exists.
  repeat (first [apply IH|apply emits_itr_dir; intros|emits_step]); done.
Qed.

Lemma emits_resume :
  emits (λ e : eventT, is_gate_event e = false) (resume : Mon _).
Proof.
  unfold resume, resolve, bootstrap_load, bootstrap_add_data, bootstrap_train,
    _itr_samples_file, _itr_model_file.
  repeat (first [apply emits_resolve_scan_model
                |apply emits_resolve_scan_samples
                |apply emits_mapM; intros
                |apply emits_itr_dir; intros
                |emits_step]); done.
Qed.

Lemma fca_run_itr fuel itr : failed_check_aborts (_run_itr fuel itr : Mon _).
Proof.
  unfold _run_itr. apply fca_bind.
  - unfold collect. apply fca_bind; [apply fca_of_emits, emits_call_|]. intros _.
    apply fca_bind; [apply fca_of_emits, emits_emit; reflexivity|]. intros _.
    apply fca_for_cond.
  - intros acc. apply fca_of_emits.
    unfold persist, _itr_save_samples, _itr_samples_file, save_worlds,
      itr_save_worlds, _itr_save_mpcs, write_file, reset_world.
    repeat (first [apply emits_itr_dir; intros|emits_step]); done.
Qed.

Lemma fca_train_itr fuel itr : failed_check_aborts (train_itr fuel itr : Mon _).
Proof.
  unfold train_itr.
  do 4 (apply fca_bind; [apply fca_of_emits, emits_emit; reflexivity|]; intros _).
  apply fca_bind; [apply fca_run_itr|]. intros _. apply fca_of_emits.
  unfold bootstrap_save, bootstrap_add_data, bootstrap_train,
    _itr_samples_file, _itr_model_file.
  repeat (first [apply emits_itr_dir; intros|emits_step]); done.
Qed.

Lemma fca_training_loop fuel itrs :
  failed_check_aborts (training_loop fuel itrs : Mon _).
Proof.
  induction itrs as [|itr itrs IH]; cbn [training_loop].
  - apply fca_of_emits, emits_ret.
  - apply fca_bind; [apply fca_train_itr|]. intros _. exact IH.
Qed.

Lemma fca_run fuel : failed_check_aborts (run fuel : Mon _).
Proof.
  unfold run. apply fca_bind; [apply fca_of_emits, emits_resume|].
  intros s. apply fca_training_loop.
Qed.

(** C7. For every rollout the gate accepts, the finiteness of its sample
    is checked at once upon acceptance, before the repetition counter
    moves: a sample with a value that is not finite ends the loop by
    [AssertionError], with no retry, and a finite one is appended before
    the counter advances.  A rollout the gate rejects is retried and is
    not checked.  And a failed check aborts the run: whatever the fuel and
    the start, [run] ends by [AssertionError] or its trace holds no failed
    check. *)
Theorem C7_finite_check fuel itr cond rep acc (st : StateT) r st1 good st2 :
  rep < conditions_repeats →
  attempt itr cond rep st = Ok r st1 →
  is_good_rollout (r_sample r) (r_t r) st1 = Ok good st2 →
  (truthy good = true → isfinite (r_sample r) = false →
   while_rep (S fuel) itr cond rep acc st
   = Raise AssertionError (logged st2 [IsFinite (r_sample r) false]))
  ∧ (truthy good = true → isfinite (r_sample r) = true →
     while_rep (S fuel) itr cond rep acc st
     = while_rep fuel itr cond (rep + 1) (append_rollout acc r)
         (logged st2 [IsFinite (r_sample r) true; Info (MsgFinished cond rep)]))
  ∧ (truthy good = false →
     while_rep (S fuel) itr cond rep acc st
     = while_rep fuel itr cond rep acc (logged st2 [Warning MsgNotGood]))
  ∧ (∀ fuel', failed_check_aborts (run fuel' : Mon unit)).
Proof.
  intros Hrep Ha Hg.
  pose proof (while_rep_pass fuel itr cond rep acc st r st1 good st2 Hrep Ha Hg) as H.
  split_and!.
  - intros Hgood Hfin. rewrite Hgood, Hfin in H. exact H.
  - intros Hgood Hfin. rewrite Hgood, Hfin in H. exact H.
  - intros Hgood. rewrite Hgood in H. exact H.
  - apply fca_run.
Qed.
End Abort.

Section Wait.
Context {X U Obs WInfo MInfo Policy Env : Type}.
Context {R : Ros Env}.
#[local] Abbreviation Mon := (M X U Obs WInfo MInfo Policy Env).
#[local] Abbreviation StateT := (State X U Obs WInfo MInfo Policy Env).
#[local] Abbreviation eventT := (event X U Obs WInfo MInfo Policy).
#[local] Abbreviation SampleT := (Sample X U Obs).
Import ProbcollRCcar.

Lemma polled_snoc (tr : list eventT) g b :
  polled tr → msg_truthy g = msg_truthy b →
  polled (tr ++ [IsShutdown false; GoodRolloutGet g; BadRolloutGet b; Sleep 100]).
Proof.
  induction 1 as [|g' b' tr Hgb _ IH]; intros H.
  - apply (polled_cons g b []); [exact H|constructor].
  - rewrite <- app_assoc. apply polled_cons; [exact Hgb|apply IH; exact H].
Qed.

(** The wait loop, from a trace of verdict-less passes. *)
Lemma poll_spec fuel : ∀ (st : StateT) (tr0 : list eventT),
  polled tr0 →
  ∃ tr, trace (final (poll fuel st)) = trace st ++ tr ∧
    match poll fuel st with
    | Ok (Some v) _ =>
        ∃ tr1 g b, tr0 ++ tr = tr1 ++ [IsShutdown false; GoodRolloutGet g; BadRolloutGet b]
                   ∧ polled tr1 ∧ msg_truthy g = v ∧ msg_truthy b = negb v
    | Ok None _ => ∃ tr1, tr0 ++ tr = tr1 ++ [IsShutdown true] ∧ polled tr1
    | Raise _ _ => False
    | OutOfFuel _ => polled (tr0 ++ tr)
    end.
Proof.
  induction fuel as [|fuel IH]; intros st tr0 H0; cbn [poll].
  - exists []. rewrite !app_nil_r. split; [reflexivity|exact H0].
  - unfold is_shutdown, good_get, bad_get, sleep. mred.
    destruct (rospy_is_shutdown (env st)) as [down e1]. cbn [env store trace].
    destruct down.
    + eexists. split; [cbn [final trace]; reflexivity|].
      exists tr0. split; [reflexivity|exact H0].
    + cbn [env store trace].
      destruct (good_rollout_callback_get e1) as [g e2]. cbn [env store trace].
      destruct (bad_rollout_callback_get e2) as [b e3]. cbn [env store trace].
      destruct (msg_truthy g && negb (msg_truthy b)) eqn:E1;
        [|destruct (msg_truthy b && negb (msg_truthy g)) eqn:E2].
      * eexists. split; [cbn [final trace]; rewrite <- !app_assoc; reflexivity|].
        exists tr0, g, b. split_and!; [reflexivity|exact H0| |];
          destruct (msg_truthy g), (msg_truthy b); done.
      * eexists. split; [cbn [final trace]; rewrite <- !app_assoc; reflexivity|].
        exists tr0, g, b. split_and!; [reflexivity|exact H0| |];
          destruct (msg_truthy g), (msg_truthy b); done.
      * cbn beta iota. cbn [env store trace].
        match goal with |- context [poll fuel ?s] => set (st1 := s) end.
        destruct (IH st1 (tr0 ++ [IsShutdown false; GoodRolloutGet g; BadRolloutGet b; Sleep 100]))
          as (tr & Htr & Hcase).
        { apply polled_snoc; [exact H0|].
          destruct (msg_truthy g), (msg_truthy b); done. }
        exists ([IsShutdown false; GoodRolloutGet g; BadRolloutGet b; Sleep 100] ++ tr).
        split.
        -- rewrite Htr. unfold st1. cbn [trace]. rewrite <- !app_assoc. reflexivity.
        -- rewrite app_assoc. exact Hcase.
Qed.

(** C9, amended. The wait first reads both signals once, discarding
    what they held, and then polls: on every pass the shutdown flag is
    read first, then the 'good' and the 'bad' signal; the wait returns
    True or False only from a pass on which exactly one of the two is
    asserted (True for 'good'); a pass on which both or neither is asserted
    gives no verdict and is followed by a sleep of 100 ms and the next
    pass.  When the shutdown flag is found set the wait stops polling at
    once and returns [None], without a verdict; it raises nothing.  In
    hardware mode the quality gate stops the car, logs its question and
    returns what the wait returns. *)
Theorem C9_wait fuel (st : StateT) :
  (∃ g0 b0 tr,
     trace (final (_ros_is_good_rollout fuel st))
     = trace st ++ [GoodRolloutGet g0; BadRolloutGet b0] ++ tr ∧
     match _ros_is_good_rollout fuel st with
     | Ok (Some v) _ =>
         ∃ tr1 g b, tr = tr1 ++ [IsShutdown false; GoodRolloutGet g; BadRolloutGet b]
                    ∧ polled tr1 ∧ msg_truthy g = v ∧ msg_truthy b = negb v
     | Ok None _ => ∃ tr1, tr = tr1 ++ [IsShutdown true] ∧ polled tr1
     | Raise _ _ => False
     | OutOfFuel _ => polled tr
     end)
  ∧ (∀ e', rospy_is_shutdown (env st) = (true, e') →
           poll (S fuel) st
           = Ok None (mkState e' (store st) (trace st ++ [IsShutdown true])))
  ∧ (agent_sim = false →
     ∀ (sample : SampleT) t,
       _is_good_rollout fuel sample t st
       = _ros_is_good_rollout fuel
           (mkState (agent_execute_control_None (env st)) (store st)
                    (trace st ++ [ExecuteControl_None; Info MsgIsGoodRollout]))).
Proof.
  split_and!.
  - unfold _ros_is_good_rollout, good_get, bad_get. mred.
    destruct (good_rollout_callback_get (env st)) as [g0 e1]. cbn [env store trace].
    destruct (bad_rollout_callback_get e1) as [b0 e2]. cbn [env store trace].
    match goal with |- context [poll fuel ?s] => set (st1 := s) end.
    destruct (poll_spec fuel st1 [] polled_nil) as (tr & Htr & Hcase).
    exists g0, b0, tr. split.
    + rewrite Htr. unfold st1. cbn [trace]. rewrite <- !app_assoc. reflexivity.
    + exact Hcase.
  - intros e' He. cbn [poll]. unfold is_shutdown. mred. rewrite He. reflexivity.
  - intros Hsim sample t. unfold _is_good_rollout. rewrite Hsim.
    do 3 (rewrite bind_unfold; cbn [call_ emit env store trace]).
    rewrite <- app_assoc. reflexivity.
Qed.
End Wait.

(** C9 with ROS shut down before the first poll. *)
Lemma C9_wait_witness :
  let R := Scenario.ros (Scenario.mkSignals 0 [] []) in
  let st := Scenario.start (Scenario.store_with [] []) in
  ProbcollRCcar.poll 1 st = Ok None (mkState 0%nat (store st) [IsShutdown true])
  ∧ ProbcollRCcar._is_good_rollout 1 (Scenario.initial_sample (P:=Scenario.params 2 3 false None) 0) 0 st
    = ProbcollRCcar._ros_is_good_rollout 1
        (mkState 0%nat (store st) [ExecuteControl_None; Info MsgIsGoodRollout]).
Proof.
  intros R st.
  destruct (C9_wait (R:=R) 0 st) as (_ & H1 & _).
  destruct (C9_wait (R:=R) (X:=Z) (U:=Z) (Obs:=Z) 1 st) as (_ & _ & H2).
  split.
  - apply (H1 0%nat). reflexivity.
  - apply H2. reflexivity.
Defined.

(** C9 as stated fails: with ROS shut down, the wait of the hardware
    quality gate returns normally, with the value [None], and an iteration
    driver whose gate answers [None] takes it for a rejection: it logs 'Not
    good rollout. Repeating rollout.' and tries the slot again, as often
    as it has fuel; the run is not aborted. *)
Lemma C9_counterexample :
  let R := Scenario.ros (Scenario.mkSignals 0 [] []) in
  let P := Scenario.params 2 3 false None in
  let C := Scenario.collab (Scenario.mkSetup 1 1 0 None Scenario.AnswerNone true) in
  let st := Scenario.start (Scenario.store_with [] []) in
  (∃ st', ProbcollRCcar._is_good_rollout 5 (Scenario.initial_sample 0) 0 st = Ok None st')
  ∧ truthy None = false
  ∧ ∃ st', DaggerPrediction._run_itr 3 0 st = OutOfFuel st'
           ∧ Scenario.count_not_good (trace st') = 3%nat.
Proof.
  intros R P C st. split_and!.
  - eexists. vm_compute. reflexivity.
  - reflexivity.
  - eexists. split; vm_compute; reflexivity.
Qed.


(** C6 on the simulated robot, whose gate rejects the first two rollouts:
    one condition, one repetition.  The samples artifact holds the one
    accepted rollout, and the slot (0, 0) is retried twice before the
    counter moves to 1. *)
Lemma C6_retry_and_count_witness :
  let P := Scenario.params 2 3 false None in
  let C := Scenario.collab (Scenario.mkSetup 1 1 0 None (Scenario.RejectFirst 2) false) in
  let st := Scenario.start (Scenario.store_with [] []) in
  (∃ tr, trace (final (DaggerPrediction._run_itr 4 0 st)) = tr ∧
         files (store (final (DaggerPrediction._run_itr 4 0 st))) !! samples_file 0
         = Some (Samples (accepted_samples tr)) ∧
         Z.of_nat (length (accepted_samples tr)) = 1)
  ∧ ∃ r st', ∀ acc fuel,
      DaggerPrediction.while_rep (2 + S fuel) 0 0 0 acc st
      = DaggerPrediction.while_rep fuel 0 0 (0 + 1)
          (DaggerPrediction.append_rollout acc r) st'.
Proof.
  intros P C st.
  destruct (C6_retry_and_count (P:=P) (C:=C) 4 0 st) as [H1 H2]. split.
  - destruct (H1 (final (DaggerPrediction._run_itr 4 0 st))) as (tr & Htr & Hf & _ & Hl).
    + vm_compute. reflexivity.
    + exists tr. split_and!; [exact Htr|exact Hf|].
      apply Hl; vm_compute; discriminate.
  - assert (∃ stk, retried 0 0 0 2 st stk ∧
                   ∃ r st1 st2,
                     DaggerPrediction.attempt 0 0 0 stk = Ok r st1 ∧
                     DaggerPrediction.is_good_rollout (DaggerPrediction.r_sample r)
                       (DaggerPrediction.r_t r) st1 = Ok (Some true) st2 ∧
                     isfinite (DaggerPrediction.r_sample r) = true)
      as (stk & Hk & r & st1 & st2 & Ha & Hg & Hfin).
    { eexists. split.
      - eapply retried_S; [vm_compute; reflexivity|vm_compute; reflexivity|reflexivity|].
        eapply retried_S; [vm_compute; reflexivity|vm_compute; reflexivity|reflexivity|].
        apply retried_0.
      - eexists _, _, _. split_and!; [vm_compute; reflexivity..]. }
    eexists r, _. intros acc fuel.
    apply (proj1 (H2 0 0 acc 2%nat stk r st1 (Some true) st2 eq_refl Hk Ha Hg eq_refl Hfin)).
Defined.

(** C7 on the simulated robot with an initial state that is not finite:
    the accepted rollout ends the loop by [AssertionError]. *)
Lemma C7_finite_check_witness :
  let P := Scenario.params 2 3 false None in
  let C := Scenario.collab (Scenario.mkSetup 1 1 1000 None (Scenario.RejectFirst 0) false) in
  let st := Scenario.start (Scenario.store_with [] []) in
  ∃ st', DaggerPrediction.while_rep 1 0 0 0 (DaggerPrediction.mkLists [] [] []) st
         = Raise AssertionError st'.
Proof.
  intros P C st.
  destruct (DaggerPrediction.attempt 0 0 0 st) as [r st1|e st1|st1] eqn:Ha;
    [|vm_compute in Ha; discriminate..].
  destruct (DaggerPrediction.is_good_rollout
              (DaggerPrediction.r_sample r) (DaggerPrediction.r_t r) st1)
    as [good st2|e st2|st2] eqn:Hg;
    [|apply (f_equal final) in Ha; vm_compute in Ha; subst st1;
      vm_compute in Hg; discriminate..].
  destruct (C7_finite_check (P:=P) (C:=C) 0 0 0 0 (DaggerPrediction.mkLists [] [] [])
              st r st1 good st2) as (H & _).
  - vm_compute. reflexivity.
  - exact Ha.
  - exact Hg.
  - eexists. apply H.
    + vm_compute in Ha. injection Ha as <- <-. vm_compute in Hg. injection Hg as <- _.
      reflexivity.
    + vm_compute in Ha. injection Ha as <- _. reflexivity.
Defined.

(** C8 on the simulated robot, from an empty run directory. *)
Lemma C8_persist_after_collect_witness :
  let P := Scenario.params 2 3 false None in
  let C := Scenario.collab (Scenario.mkSetup 1 1 0 None (Scenario.RejectFirst 0) false) in
  let st := Scenario.start (Scenario.store_with [] []) in
  ∃ st', DaggerPrediction._run_itr 3 0 st = Ok tt st' ∧
         fst <$> writes (trace st') = [samples_file 0; worlds_file 0; mpcs_file 0].
Proof.
  intros P C st.
  destruct (C8_persist_after_collect (P:=P) (C:=C) 3 0 st) as (_ & _ & H).
  destruct (H (DaggerPrediction.mkLists
                 [mkSample [0; 8; 16] [1; 1; 1] [0; 8; 16]] [tt] [tt])
              (final (DaggerPrediction.collect 3 0 st)))
    as (st' & Hr & _ & Hw & _).
  - vm_compute. reflexivity.
  - exists st'. split; [exact Hr|]. rewrite Hw. reflexivity.
Defined.

(** C8 as stated fails: the iteration's record is written file by file.
    Of the run directories seen right after each write of an iteration from
    an empty directory, the first holds the samples artifact and neither the
    world nor the controller artifact; and under [ProbcollRCcar], whose
    [_itr_save_worlds] is [pass], the world artifact never exists. *)
Lemma C8_counterexample :
  let P := Scenario.params 2 3 false None in
  let seen (C : Collab Z Z Z unit unit unit Scenario.Env) :=
    (λ w, (Scenario.present w.2 (samples_file 0),
           Scenario.present w.2 (worlds_file 0),
           Scenario.present w.2 (mpcs_file 0)))
    <$> writes (trace (final (DaggerPrediction._run_itr 3 0
                               (Scenario.start (Scenario.store_with [] []))))) in
  seen (Scenario.collab (Scenario.mkSetup 1 1 0 None (Scenario.RejectFirst 0) false))
  = [(true, false, false); (true, true, false); (true, true, true)]
  ∧ seen (Scenario.collab (Scenario.mkSetup 1 1 0 None (Scenario.RejectFirst 0) true))
  = [(true, false, false); (true, false, true)].
Proof. intros P seen. split; vm_compute; reflexivity. Qed.

(* ===================================================================== *)
(** * Further properties of the code *)
(* ===================================================================== *)

Section RunDirectory.
Context {X U Obs WInfo MInfo Policy Env : Type}.
Context {V : Values X U Obs} {P : Params}.
Context {C : Collab X U Obs WInfo MInfo Policy Env}.
#[local] Abbreviation Mon := (M X U Obs WInfo MInfo Policy Env).
#[local] Abbreviation StateT := (State X U Obs WInfo MInfo Policy Env).
#[local] Abbreviation eventT := (event X U Obs WInfo MInfo Policy).
Import DaggerPrediction.

(** X1. With [max_iter <= 0] neither scan runs its body, so the two loop
    variables are unbound when the assertion reads them: [run] ends by
    [NameError] at once, whatever the run directory holds. *)
Theorem X1_run_without_iterations (fuel : nat) (st : StateT) :
  max_iter ≤ 0 → run fuel st = Raise NameError st.
Proof.
  intros H. unfold run, resume, resolve.
  rewrite xrange_down_nil by lia. reflexivity.
Qed.

Lemma makes_dirs_ret {A} (a : A) : makes_dirs (mret a : Mon A) a ∅.
Proof. intros st. exists st. split_and!; [reflexivity..|set_solver]. Qed.

Lemma makes_dirs_emit (e : eventT) : makes_dirs (emit e : Mon unit) tt ∅.
Proof. intros st. eexists. split_and!; [reflexivity..|cbn; set_solver]. Qed.

Lemma makes_dirs_bind {A B} (m : Mon A) (k : A → Mon B) a b D1 D2 :
  makes_dirs m a D1 → makes_dirs (k a) b D2 → makes_dirs (m ≫= k) b (D1 ∪ D2).
Proof.
  intros Hm Hk st. destruct (Hm st) as (st1 & E1 & V1 & F1 & S1).
  destruct (Hk st1) as (st2 & E2 & V2 & F2 & S2).
  exists st2. rewrite (bind_Ok _ _ _ _ _ E1).
  split_and!; [exact E2|congruence|congruence|rewrite S2, S1; set_solver].
Qed.

Lemma makes_dirs_eq {A} (m : Mon A) a D D' :
  D = D' → makes_dirs m a D → makes_dirs m a D'.
Proof. intros ->. auto. Qed.



Lemma makes_dirs_itr_dir itr :
  makes_dirs (_itr_dir itr true : Mon unit) tt {[itr]}.
Proof.
  intros st. unfold _itr_dir. cbn [negb]. mred.
  destruct (decide (itr ∈ dirs (store st))).
  - exists st. split_and!; [reflexivity..|set_solver].
  - eexists. split_and!; reflexivity.
Qed.

Lemma makes_dirs_itr_samples_file itr :
  makes_dirs (_itr_samples_file itr true : Mon path) (samples_file itr) {[itr]}.
Proof.
  eapply makes_dirs_eq; [|eapply makes_dirs_bind; [apply makes_dirs_itr_dir|apply makes_dirs_ret]].
  set_solver.
Qed.

Lemma makes_dirs_itr_model_file itr :
  makes_dirs (_itr_model_file itr true : Mon path) (model_file itr) {[itr]}.
Proof.
  eapply makes_dirs_eq; [|eapply makes_dirs_bind; [apply makes_dirs_itr_dir|apply makes_dirs_ret]].
  set_solver.
Qed.





(** The directories at the end of [_run_itr]. *)
Lemma run_itr_dirs fuel itr (st st' : StateT) :
  _run_itr fuel itr st = Ok tt st' → dirs (store st') = {[itr]} ∪ dirs (store st).
Proof.
  intros H. unfold _run_itr in H. apply bind_Ok_inv in H as (acc & st1 & Hc & Hp).
  apply collect_Ok in Hc as (_ & _ & Hst & _).
  destruct (persist_spec itr acc st1) as (mk & st2 & Hp' & Hs & _).
  rewrite Hp in Hp'. injection Hp' as <-. rewrite Hs, Hst.
  unfold with_file, with_dir. destruct _itr_save_worlds; reflexivity.
Qed.

(** What follows [_run_itr] in the loop body, on the run directory. *)
Lemma makes_dirs_after_run_itr itr :
  makes_dirs (if (itr =? 0) && false then
                f ← _itr_model_file itr true; bootstrap_save f
              else if decide (planner_type ≠ randomwalk) then
                emit (Info (MsgItrAddingData itr));;
                f ← _itr_samples_file itr true;
                bootstrap_add_data [f];;
                emit (Info (MsgItrTraining itr));;
                old_model_file ← _itr_model_file (itr - 1) true;
                new_model_file ← _itr_model_file itr true;
                bootstrap_train (Some old_model_file) new_model_file
                  (if itr >? 1 then bootstrap_epochs else init_epochs)
              else mret tt : Mon unit) tt
             (if decide (planner_type ≠ randomwalk) then {[itr; itr - 1]} else ∅).
Proof.
  rewrite andb_false_r.
  destruct (decide (planner_type ≠ randomwalk)); [|apply makes_dirs_ret].
  eapply (makes_dirs_eq _ _ (∅ ∪ ({[itr]} ∪ (∅ ∪ (∅ ∪ ({[itr - 1]} ∪ ({[itr]} ∪ ∅)))))));
    [set_solver|].
  eapply makes_dirs_bind; [apply makes_dirs_emit|].
  eapply makes_dirs_bind; [apply makes_dirs_itr_samples_file|].
  eapply makes_dirs_bind; [apply makes_dirs_emit|].
  eapply makes_dirs_bind; [apply makes_dirs_emit|].
  eapply makes_dirs_bind; [apply makes_dirs_itr_model_file|].
  eapply makes_dirs_bind; [apply makes_dirs_itr_model_file|].
  apply makes_dirs_emit.
Qed.

(** X4. An iteration of the training loop that trains leaves two
    directories behind: its own and the one of the iteration before,
    made when the name of the seed checkpoint is built; for iteration 0
    that is a directory of index -1.  Under the random-walk planner only
    the iteration's own directory is made. *)
Theorem X4_train_itr_directories fuel itr (st st' : StateT) :
  train_itr fuel itr st = Ok tt st' →
  ∀ i, i ∈ dirs (store st') ↔
       i ∈ dirs (store st) ∨ i = itr ∨ (i = itr - 1 ∧ planner_type ≠ randomwalk).
Proof.
  intros H i. unfold train_itr in H.
  do 4 (rewrite bind_unfold in H; cbn [emit] in H).
  apply bind_Ok_inv in H as ([] & st2 & Hr & Ht).
  apply run_itr_dirs in Hr. cbn [store] in Hr.
  destruct (makes_dirs_after_run_itr itr st2) as (st3 & E & _ & _ & Hd).
  rewrite Ht in E. injection E as <-. rewrite Hd, Hr.
  destruct (decide (planner_type ≠ randomwalk)); set_solver.
Qed.

Lemma prefix_spec sub : ∀ s, String.prefix sub s = true ↔ ∃ b, s = sub +:+ b.
Proof.
  induction sub as [|c sub IH]; intros s.
  - split; [intros _; exists s; reflexivity|]. intros _. destruct s; reflexivity.
  - destruct s as [|d s]; cbn [String.prefix].
    + split; [discriminate|]. intros [b Hb]. discriminate.
    + destruct (ascii_dec c d) as [->|Hne].
      * rewrite IH. split; intros [b Hb]; exists b.
        -- rewrite Hb. reflexivity.
        -- change (String d sub +:+ b) with (String d (sub +:+ b)) in Hb.
           congruence.
      * split; [discriminate|]. intros [b Hb].
        change (String c sub +:+ b) with (String c (sub +:+ b)) in Hb. congruence.
Qed.

Lemma str_in_spec sub : ∀ s, str_in sub s = true ↔ occurs_in sub s.
Proof.
  induction s as [|c s IH]; cbn [str_in]; rewrite orb_true_iff, prefix_spec.
  - split.
    + intros [[b Hb]|H]; [|discriminate]. exists "", b. exact Hb.
    + intros (a & b & H). left. destruct a; [exists b; exact H|discriminate].
  - rewrite IH. split.
    + intros [[b Hb]|(a & b & H)].
      * exists "", b. exact Hb.
      * exists (String c a), b. rewrite H. reflexivity.
    + intros (a & b & H). destruct a as [|x a].
      * left. exists b. exact H.
      * right. exists a, b.
        change (String x a +:+ sub +:+ b) with (String x (a +:+ sub +:+ b)) in H.
        congruence.
Qed.

Lemma bootstrap_calls_elem (e : eventT) tr : e ∈ bootstrap_calls tr → e ∈ tr.
Proof.
  unfold bootstrap_calls. rewrite list_elem_of_omap. intros (e' & Hin & He).
  destruct (is_bootstrap_call e'); [|discriminate]. congruence.
Qed.

(** X5. The files of the init-data folder are picked by [ext in fname]:
    the prologue of [run] adds, in the order of the listing, every file
    of the folder whose name holds '.npz' somewhere, at its end or not,
    and no other. *)
Theorem X5_init_data_by_containment (st : StateT) r d :
  resolve st = Ok r st → init_data = Some d →
  ∃ st' fnames,
    resume st = Ok (samples_start_itr r) st' ∧
    AddData (init_file d <$> fnames) ∈ trace st' ∧
    fnames `sublist_of` os_listdir d ∧
    ∀ f, f ∈ fnames ↔ f ∈ os_listdir d ∧ occurs_in ".npz" f.
Proof.
  intros Hres Hd. destruct (resume_calls st r Hres) as (st' & Hr & Hb).
  rewrite Hd in Hb.
  exists st', (filter (λ f, str_in ".npz" f = true) (os_listdir d)).
  split_and!.
  - exact Hr.
  - apply bootstrap_calls_elem. rewrite Hb. rewrite !elem_of_app.
    right. right. right. left. apply list_elem_of_singleton. reflexivity.
  - apply sublist_filter.
  - intros f. rewrite list_elem_of_filter, str_in_spec. tauto.
Qed.
End RunDirectory.

Section IterationEdges.
Context {X U Obs WInfo MInfo Policy Env : Type}.
Context {V : Values X U Obs} {P : Params}.
Context {C : Collab X U Obs WInfo MInfo Policy Env}.
#[local] Abbreviation Mon := (M X U Obs WInfo MInfo Policy Env).
#[local] Abbreviation StateT := (State X U Obs WInfo MInfo Policy Env).
#[local] Abbreviation StoreT := (Store X U Obs WInfo MInfo).
#[local] Abbreviation eventT := (event X U Obs WInfo MInfo Policy).
#[local] Abbreviation SampleT := (Sample X U Obs).
Import DaggerPrediction.




(** The [for] loop over the conditions when there is no repetition to
    make. *)
Lemma for_cond_no_repeats fuel itr conds acc (st : StateT) :
  conditions_repeats ≤ 0 → for_cond (S fuel) itr conds acc st = Ok acc st.
Proof.
  intros Hrep. induction conds as [|c conds IH]; cbn [for_cond]; [reflexivity|].
  rewrite bind_unfold. cbn [while_rep].
  destruct (0 <? conditions_repeats) eqn:E; [lia|]. exact IH.
Qed.

(** X6. With no condition or no repetition configured, [_run_itr] makes no
    rollout (it asks for no initial state and creates no controller) and
    still persists the iteration: the samples and controller artifacts
    are written with empty lists, and the world is reset once, at the
    end. *)
Theorem X6_no_slots_saves_empty fuel itr (st : StateT) :
  conditions_length ≤ 0 ∨ conditions_repeats ≤ 0 →
  ∃ st' ws,
    _run_itr (S fuel) itr st = Ok tt st' ∧
    trace st' = trace st ++ [ConditionsReset] ++ ws ++ [ResetWorld itr 0 0] ∧
    Forall (λ e, is_store_event e = true) ws ∧
    files (store st') !! samples_file itr = Some (Samples []) ∧
    files (store st') !! mpcs_file itr = Some (Mpcs []) ∧
    itr ∈ dirs (store st').
Proof.
  intros H.
  set (st0 := mkState (conditions_reset (env st)) (store st) (trace st ++ [ConditionsReset])).
  assert (collect (S fuel) itr st = Ok (mkLists [] [] []) st0) as Hc.
  { unfold collect. rewrite !bind_unfold. cbn [call_ emit]. fold st0.
    destruct H as [H|H].
    - unfold xrange. rewrite xrange2_nil by lia. reflexivity.
    - apply for_cond_no_repeats. exact H. }
  destruct (persist_spec itr (mkLists [] [] []) st0) as (mk & st' & Hp & Hs & Hmk & Ht).
  cbn [samples world_infos mpc_infos] in *.
  match type of Ht with
  | _ = _ ++ ?a ++ ?b ++ ?c ++ [?w; _] => exists st', (a ++ b ++ c ++ [w])
  end.
  split_and!.
  - unfold _run_itr. rewrite (bind_Ok _ _ _ _ _ Hc). exact Hp.
  - rewrite Ht. unfold st0. cbn [trace store].
    rewrite <- !app_assoc. reflexivity.
  - rewrite !Forall_app. split_and!.
    + destruct Hmk as [->| ->]; repeat constructor.
    + repeat constructor.
    + destruct _itr_save_worlds; repeat constructor.
    + repeat constructor.
  - rewrite Hs. unfold with_file, with_dir. cbn [files].
    rewrite lookup_insert_ne by discriminate.
    destruct _itr_save_worlds; cbn [files];
      [|rewrite lookup_insert_ne by discriminate]; apply lookup_insert_eq.
  - rewrite Hs. unfold with_file. cbn [files]. apply lookup_insert_eq.
  - rewrite Hs. unfold with_file, with_dir. cbn [dirs].
    destruct _itr_save_worlds; cbn [dirs]; set_solver.
Qed.

End IterationEdges.

Section NoiseNames.
Context {X U Obs WInfo MInfo Policy Env : Type}.
Context {P : Params}.
#[local] Abbreviation StateT := (State X U Obs WInfo MInfo Policy Env).
Import DaggerPrediction.

(** X8. The noise types 'zero', 'gaussian' and 'uniform' are compared as
    they are written (only 'ou' and 'smoothedgaussian' are compared in
    lower case): a configured type that is one of the three up to
    capitalisation, but not letter for letter, is refused with
    [Exception]. *)
Theorem X8_control_noise_exact_names (st : StateT) :
  lower cn_type = "zero" ∨ lower cn_type = "gaussian" ∨ lower cn_type = "uniform" →
  cn_type ≠ "zero" → cn_type ≠ "gaussian" → cn_type ≠ "uniform" →
  _create_control_noise st = Raise (Exception_ "Control noise type not valid") st.
Proof.
  intros Hl Hz Hg Hu. unfold _create_control_noise.
  destruct (decide (cn_type = "zero")); [contradiction|].
  destruct (decide (cn_type = "gaussian")); [contradiction|].
  destruct (decide (cn_type = "uniform")); [contradiction|].
  destruct (decide (lower cn_type = "ou")) as [E|_];
    [rewrite E in Hl; destruct Hl as [Hl|[Hl|Hl]]; discriminate|].
  destruct (decide (lower cn_type = "smoothedgaussian")) as [E|_];
    [rewrite E in Hl; destruct Hl as [Hl|[Hl|Hl]]; discriminate|].
  reflexivity.
Qed.
End NoiseNames.

Section ResetWorld.
Context {X U Obs WInfo MInfo Policy Env : Type}.
Context {R : Ros Env}.
#[local] Abbreviation Mon := (M X U Obs WInfo MInfo Policy Env).
#[local] Abbreviation StateT := (State X U Obs WInfo MInfo Policy Env).
#[local] Abbreviation eventT := (event X U Obs WInfo MInfo Policy).
Import ProbcollRCcar.

(** X10. [ProbcollRCcar._reset_world] always ends by [world.reset] with
    [back_up = False].  In simulation, and on the car for every slot but
    (cond 0, rep 0), it does nothing else and waits for nothing.  On the
    car at (0, 0) it logs 'Press A or B to start' and waits; the answer of
    the wait is not looked at: button A, button B and a shutdown ([None])
    all lead to the same reset. *)
Theorem X10_reset_world_ignores_answer fuel itr cond rep (st : StateT) :
  (agent_sim = true ∨ cond ≠ 0 ∨ rep ≠ 0 →
   _reset_world fuel itr cond rep st
   = Ok tt (mkState (world_reset false itr cond rep (env st)) (store st)
                    (trace st ++ [WorldReset false itr cond rep])))
  ∧ (agent_sim = false → cond = 0 → rep = 0 →
     ∀ v st2,
       _ros_is_good_rollout fuel (logged st [Info MsgPressAorB]) = Ok v st2 →
       _reset_world fuel itr cond rep st
       = Ok tt (mkState (world_reset false itr 0 0 (env st2)) (store st2)
                        (trace st2 ++ [WorldReset false itr 0 0]))).
Proof.
  split.
  - intros H. unfold _reset_world.
    assert ((if negb agent_sim
             then if (cond =? 0) && (rep =? 0)
                  then emit (Info MsgPressAorB);; _ros_is_good_rollout fuel;; mret tt
                  else mret tt
             else mret tt) = (mret tt : Mon unit)) as ->.
    { destruct agent_sim; [reflexivity|]. cbn [negb].
      destruct H as [H|[H|H]]; [discriminate| |].
      - apply Z.eqb_neq in H. rewrite H. reflexivity.
      - apply Z.eqb_neq in H. rewrite H, andb_false_r. reflexivity. }
    reflexivity.
  - intros Hsim -> -> v st2 Hw. unfold _reset_world. rewrite Hsim. cbn [negb Z.eqb andb].
    unfold logged in Hw. repeat (rewrite bind_unfold; cbn [emit]). rewrite Hw.
    reflexivity.
Qed.
End ResetWorld.

Section Formatting.

Lemma digits_numeric s : digits s → numeric s.
Proof.
  induction s as [|c s IH]; [done|]. intros [Hc Hs].
  split; [|auto]. unfold is_numeric. rewrite Hc. reflexivity.
Qed.

Lemma numeric_app s1 s2 : numeric s1 → numeric s2 → numeric (s1 +:+ s2).
Proof. induction s1 as [|c s1 IH]; [done|]. intros [??] ?. split; auto. Qed.

Lemma digits_app s1 s2 : digits s1 → digits s2 → digits (s1 +:+ s2).
Proof. induction s1 as [|c s1 IH]; [done|]. intros [??] ?. split; auto. Qed.

Lemma digits_zeros k : digits (zeros k).
Proof. induction k; [done|]. split; [reflexivity|assumption]. Qed.

Lemma pretty_N_char_digit x : is_digit (pretty_N_char x) = true.
Proof. unfold pretty_N_char. repeat case_match; reflexivity. Qed.

Lemma pretty_N_char_value x :
  (x < 10)%N → (N.of_nat (nat_of_ascii (pretty_N_char x)) - 48 = x)%N.
Proof.
  intros H. assert (x = 0 ∨ x = 1 ∨ x = 2 ∨ x = 3 ∨ x = 4 ∨ x = 5
                    ∨ x = 6 ∨ x = 7 ∨ x = 8 ∨ x = 9)%N as Hx by lia.
  destruct Hx as [->|[->|[->|[->|[->|[->|[->|[->|[->| ->]]]]]]]]]; reflexivity.
Qed.

Lemma pretty_N_go_digits x : ∀ s, digits s → digits (pretty_N_go x s).
Proof.
  induction (N.lt_wf_0 x) as [x _ IH]; intros s Hs.
  assert (x = 0 ∨ 0 < x)%N as [->|Hx] by lia.
  - rewrite pretty_N_go_0. exact Hs.
  - rewrite pretty_N_go_step by done. apply IH.
    + apply N.div_lt; [exact Hx|reflexivity].
    + split; [apply pretty_N_char_digit|exact Hs].
Qed.

Lemma pretty_N_digits (x : N) : digits (pretty x).
Proof.
  unfold pretty, pretty_N. case_decide; [by split|].
  apply pretty_N_go_digits. exact I.
Qed.

Lemma format_d_numeric n : numeric (format_d n).
Proof.
  unfold format_d, pretty, pretty_Z. destruct n as [|p|p].
  - by split.
  - apply digits_numeric, pretty_N_digits.
  - split; [reflexivity|]. apply digits_numeric, pretty_N_digits.
Qed.

Lemma format_d_inj n m : format_d n = format_d m → n = m.
Proof. apply pretty_Z_inj. Qed.

Lemma value_go_acc s : ∀ acc,
  (value_go acc s = acc * 10 ^ N.of_nat (String.length s) + value s)%N.
Proof.
  unfold value. induction s as [|c s IH]; intros acc; cbn [value_go String.length].
  - rewrite N.pow_0_r. lia.
  - rewrite IH, (IH (10 * 0 + _)%N). rewrite Nat2N.inj_succ, N.pow_succ_r'. lia.
Qed.

Lemma value_String c s :
  (value (String c s)
   = (N.of_nat (nat_of_ascii c) - 48) * 10 ^ N.of_nat (String.length s) + value s)%N.
Proof.
  unfold value at 1. cbn [value_go]. rewrite value_go_acc, N.mul_0_r, N.add_0_l.
  reflexivity.
Qed.

Lemma value_pretty_N_go x : ∀ s,
  (value (pretty_N_go x s) = x * 10 ^ N.of_nat (String.length s) + value s)%N.
Proof.
  induction (N.lt_wf_0 x) as [x _ IH]; intros s.
  assert (x = 0 ∨ 0 < x)%N as [->|Hx] by lia.
  - rewrite pretty_N_go_0. lia.
  - rewrite pretty_N_go_step by done.
    rewrite IH by (apply N.div_lt; [exact Hx|reflexivity]).
    rewrite value_String, pretty_N_char_value by (apply N.mod_lt; lia).
    cbn [String.length]. rewrite Nat2N.inj_succ, N.pow_succ_r'.
    pose proof (N.div_mod x 10 ltac:(lia)). nia.
Qed.

Lemma value_pretty (x : N) : value (pretty x) = x.
Proof.
  unfold pretty, pretty_N. case_decide as H; [subst; reflexivity|].
  rewrite value_pretty_N_go. cbn. lia.
Qed.

Lemma value_zeros k s : value (zeros k +:+ s) = value s.
Proof. induction k as [|k IH]; [reflexivity|]. exact IH. Qed.

Lemma format_03d_numeric n : numeric (format_03d n).
Proof.
  destruct n as [|p|p]; unfold format_03d; cbv zeta.
  - vm_compute. repeat split.
  - apply digits_numeric, (digits_app (zeros _) (pretty _));
      [apply digits_zeros|apply pretty_N_digits].
  - split; [reflexivity|].
    apply digits_numeric, (digits_app (zeros _) (pretty _));
      [apply digits_zeros|apply pretty_N_digits].
Qed.

Lemma format_03d_nonneg_digits n : 0 ≤ n → digits (format_03d n).
Proof.
  intros H. destruct n as [|p|p]; unfold format_03d; cbv zeta;
    [vm_compute; repeat split| |lia].
  apply (digits_app (zeros _) (pretty _)); [apply digits_zeros|apply pretty_N_digits].
Qed.

Lemma format_03d_inj n m : format_03d n = format_03d m → n = m.
Proof.
  intros H.
  assert (∀ a b : N, zeros (3 - String.length (pretty a)) +:+ pretty a
                     = zeros (3 - String.length (pretty b)) +:+ pretty b → a = b) as H3.
  { intros a b E. apply (f_equal value) in E. rewrite !value_zeros, !value_pretty in E.
    exact E. }
  assert (∀ a b : N, zeros (2 - String.length (pretty a)) +:+ pretty a
                     = zeros (2 - String.length (pretty b)) +:+ pretty b → a = b) as H2.
  { intros a b E. apply (f_equal value) in E. rewrite !value_zeros, !value_pretty in E.
    exact E. }
  destruct (decide (0 ≤ n)) as [Hn|Hn], (decide (0 ≤ m)) as [Hm|Hm].
  - destruct n as [|p|p], m as [|q|q]; try lia; cbn [format_03d] in H;
      apply H3 in H; lia.
  - exfalso. pose proof (format_03d_nonneg_digits n Hn) as Hd. rewrite H in Hd.
    destruct m as [|q|q]; try lia. destruct Hd as [Hd _]. discriminate.
  - exfalso. pose proof (format_03d_nonneg_digits m Hm) as Hd. rewrite <- H in Hd.
    destruct n as [|p|p]; try lia. destruct Hd as [Hd _]. discriminate.
  - destruct n as [|p|p], m as [|q|q]; try lia. cbn [format_03d] in H.
    injection H as H. apply H2 in H. congruence.
Qed.

(** Two formatted integers, each followed by a character that is not of
    a formatted integer, are equal if the strings are. *)
Lemma numeric_split a b c d r1 r2 :
  numeric a → numeric b → is_numeric c = false → is_numeric d = false →
  a +:+ String c r1 = b +:+ String d r2 → a = b ∧ String c r1 = String d r2.
Proof.
  revert b. induction a as [|x a IH]; intros [|y b] Ha Hb Hc Hd H; cbn in H.
  - split; [reflexivity|exact H].
  - injection H as -> _. destruct Hb as [Hb _]. congruence.
  - injection H as <- _. destruct Ha as [Ha _]. congruence.
  - injection H as -> H. destruct Ha as [_ Ha], Hb as [_ Hb].
    destruct (IH b Ha Hb Hc Hd H) as [-> E]. split; [reflexivity|exact E].
Qed.

Lemma string_app_assoc (a b c : string) : (a +:+ b) +:+ c = a +:+ b +:+ c.
Proof.
  induction a as [|x a IH]; [reflexivity|].
  change (String x ((a +:+ b) +:+ c) = String x (a +:+ b +:+ c)). f_equal. exact IH.
Qed.

Lemma string_app_cons x (a b : string) : String x a +:+ b = String x (a +:+ b).
Proof. reflexivity. Qed.

Lemma string_app_nil (b : string) : "" +:+ b = b.
Proof. reflexivity. Qed.

Lemma last_char_app a b : b ≠ "" → last_char (a +:+ b) = last_char b.
Proof.
  intros Hb. induction a as [|x a IH]; [reflexivity|].
  rewrite string_app_cons. cbn [last_char]. rewrite IH.
  destruct (a +:+ b) eqn:E; [|reflexivity].
  destruct a; [rewrite string_app_nil in E; contradiction|discriminate].
Qed.

Lemma last_char_numeric s c : numeric s → last_char s = Some c → is_numeric c = true.
Proof.
  induction s as [|x s IH]; [discriminate|]. intros [Hx Hs] H. cbn [last_char] in H.
  destruct s; [congruence|auto].
Qed.

Lemma format_d_nonempty n : format_d n ≠ "".
Proof.
  unfold format_d, pretty, pretty_Z. destruct n as [|p|p]; [discriminate| |discriminate].
  intros E. pose proof (value_pretty (N.pos p)) as Hv.
  unfold pretty at 1, pretty_positive in E. rewrite E in Hv. discriminate.
Qed.

(** Joining a relative name to a directory puts the name after a prefix
    that depends on the directory only. *)
Lemma os_path_join_rel a :
  ∃ pre, ∀ b, String.prefix "/" b = false → os_path_join a b = pre +:+ b.
Proof.
  unfold os_path_join.
  destruct (bool_decide (a = "") || bool_decide (last_char a = Some "/"%char)).
  - exists a. intros b ->. reflexivity.
  - exists (a +:+ "/"). intros b ->. rewrite string_app_assoc. reflexivity.
Qed.

(** The name of an iteration's directory: a prefix, then [itr<i>]. *)
Lemma itr_dir_name save :
  ∃ pre, ∀ itr, Names._itr_dir save itr = pre +:+ "itr" +:+ format_d itr.
Proof.
  destruct (os_path_join_rel save) as [pre H]. exists pre. intros itr.
  unfold Names._itr_dir. apply H. reflexivity.
Qed.

(** A relative name joined to an iteration's directory. *)
Lemma itr_dir_join save itr b :
  String.prefix "/" b = false →
  os_path_join (Names._itr_dir save itr) b = Names._itr_dir save itr +:+ "/" +:+ b.
Proof.
  intros Hb. unfold os_path_join. rewrite Hb.
  destruct (itr_dir_name save) as [pre Hpre]. rewrite Hpre.
  rewrite bool_decide_eq_false_2.
  2:{ destruct pre; discriminate. }
  rewrite bool_decide_eq_false_2; [reflexivity|].
  rewrite <- string_app_assoc, last_char_app by apply format_d_nonempty.
  intros E. apply last_char_numeric in E; [discriminate|apply format_d_numeric].
Qed.

(** A file of an iteration's directory: the prefix, [itr<i>/], then what
    the method puts after it. *)
Lemma itr_file_name save :
  ∃ pre, ∀ itr b, String.prefix "/" b = false →
    os_path_join (Names._itr_dir save itr) b = pre +:+ "itr" +:+ format_d itr +:+ "/" +:+ b.
Proof.
  destruct (itr_dir_name save) as [pre Hpre]. exists pre. intros itr b Hb.
  rewrite itr_dir_join by exact Hb. rewrite Hpre.
  rewrite !string_app_assoc. reflexivity.
Qed.

(** Two files of iteration directories with the same name are in the
    same directory and have the same name in it. *)
Lemma itr_file_inj save i j a b :
  String.prefix "/" a = false → String.prefix "/" b = false →
  os_path_join (Names._itr_dir save i) a = os_path_join (Names._itr_dir save j) b →
  i = j ∧ a = b.
Proof.
  intros Ha Hb H. destruct (itr_file_name save) as [pre Hpre].
  rewrite !Hpre in H by assumption. apply String.app_inj in H.
  rewrite ?string_app_cons, ?string_app_nil in H. injection H as H.
  apply numeric_split in H as [Hij H]; try apply format_d_numeric; try reflexivity.
  apply format_d_inj in Hij. injection H as H. auto.
Qed.
End Formatting.

Section FileNames.
Variable save : string.

(** X11. No two files of the run directory have the same name: the names
    that [_itr_model_file], [_itr_samples_file], [_itr_stats_file],
    [_itr_save_worlds] and [_itr_save_mpcs] build are different for
    different iterations, and for the different artifacts of one
    iteration, whatever the save directory. *)
Theorem X11_run_directory_names_distinct (p q : path) :
  in_run_directory p → in_run_directory q → p ≠ q →
  Names.path_name save p ≠ Names.path_name save q.
Proof.
  intros Hp Hq Hne H. apply Hne.
  destruct p as [i|i|i|i|i|? ?]; try contradiction;
  destruct q as [j|j|j|j|j|? ?]; try contradiction;
  cbn [Names.path_name] in H;
  unfold Names._itr_model_file, Names._itr_samples_file, Names._itr_stats_file,
    Names.worlds_fname, Names.mpcs_fname in H;
  apply itr_file_inj in H as [-> H]; try reflexivity;
  first [reflexivity|discriminate H].
Qed.

(** X12. The bag files of [ProbcollRCcar] have different names for
    different (itr, cond, rep), and none has the name of an artifact of
    an iteration. *)
Theorem X12_bag_file_names_distinct itr cond rep :
  (∀ itr' cond' rep',
     (itr, cond, rep) ≠ (itr', cond', rep') →
     Names._bag_file save itr cond rep ≠ Names._bag_file save itr' cond' rep')
  ∧ (∀ p, in_run_directory p → Names._bag_file save itr cond rep ≠ Names.path_name save p).
Proof.
  split.
  - intros itr' cond' rep' Hne H. apply Hne. unfold Names._bag_file in H.
    apply itr_file_inj in H as [<- H]; try reflexivity.
    rewrite ?string_app_cons, ?string_app_nil in H. repeat injection H as H.
    apply String.app_inj in H.
    rewrite ?string_app_cons, ?string_app_nil in H. repeat injection H as H.
    apply numeric_split in H as [Hc H]; try apply format_d_numeric; try reflexivity.
    apply format_d_inj in Hc. rewrite ?string_app_cons, ?string_app_nil in H.
    repeat injection H as H.
    apply numeric_split in H as [Hr _]; try apply format_d_numeric; try reflexivity.
    apply format_d_inj in Hr. congruence.
  - intros p Hp H. destruct p as [j|j|j|j|j|? ?]; try contradiction;
      cbn [Names.path_name] in H;
      unfold Names._bag_file, Names._itr_model_file, Names._itr_samples_file,
        Names._itr_stats_file, Names.worlds_fname, Names.mpcs_fname in H;
      apply itr_file_inj in H as [_ H]; try reflexivity; discriminate H.
Qed.

(** X13. Reading an image file name makes the images directory exist,
    and the names are different for different (itr, cond, rep): the
    padding with zeros to three characters makes no two of them equal,
    for numbers of more than three digits and for negative ones too. *)
Theorem X13_img_file_names_distinct itr cond rep ex :
  (Names._img_file save itr cond rep ex).2 = true
  ∧ ∀ itr' cond' rep' ex',
      (itr, cond, rep) ≠ (itr', cond', rep') →
      (Names._img_file save itr cond rep ex).1
      ≠ (Names._img_file save itr' cond' rep' ex').1.
Proof.
  split; [destruct ex; reflexivity|].
  intros itr' cond' rep' ex' Hne H. apply Hne. revert H.
  unfold Names._img_file, Names._img_dir.
  destruct (os_path_join_rel (os_path_join save "images")) as [pre Hpre].
  destruct (negb ex), (negb ex'); cbn [fst]; rewrite !Hpre by reflexivity; intros H;
    apply String.app_inj in H; rewrite ?string_app_cons, ?string_app_nil in H;
    repeat injection H as H;
    (apply numeric_split in H as [Hi H]; try apply format_03d_numeric; try reflexivity);
    apply format_03d_inj in Hi; rewrite ?string_app_cons, ?string_app_nil in H;
    repeat injection H as H;
    (apply numeric_split in H as [Hc H]; try apply format_03d_numeric; try reflexivity);
    apply format_03d_inj in Hc; rewrite ?string_app_cons, ?string_app_nil in H;
    repeat injection H as H;
    (apply numeric_split in H as [Hr _]; try apply format_03d_numeric; try reflexivity);
    apply format_03d_inj in Hr; congruence.
Qed.
End FileNames.

Section ActProperties.
Context {X U Obs R G : Type}.
Context {V : Values X U Obs} {F : FloatOps R U}.
Import PrimitivePolicyBebop2dAngleSpeed.
#[local] Abbreviation policyT := (policy (X:=X) (U:=U) (Obs:=Obs) (R:=R)).
#[local] Abbreviation SampleT := (Sample X U Obs).

(** The loop of [act] from timestep [a]: the controls of the timesteps
    [a .. T-2] are set to [lv], each state from [a + 1] on is the
    dynamics' answer for the state before it, and the rest is kept. *)
Lemma act_loop_spec (self : policyT) lv n : ∀ (k : nat) (a : Z) (traj : SampleT),
  0 ≤ a → Z.of_nat k = n - 1 - a → horizon traj (Z.to_nat n) →
  ∃ traj',
    act_loop self lv (xrange2 a (n - 1)) traj = Some traj' ∧
    horizon traj' (Z.to_nat n) ∧
    sO traj' = sO traj ∧
    (∀ j, (j ≤ Z.to_nat a)%nat → sX traj' !! j = sX traj !! j) ∧
    (∀ j, (j < Z.to_nat a)%nat → sU traj' !! j = sU traj !! j) ∧
    (∀ j, (Z.to_nat (n - 1) ≤ j)%nat → sU traj' !! j = sU traj !! j) ∧
    (∀ j, (Z.to_nat a ≤ j < Z.to_nat (n - 1))%nat → sU traj' !! j = Some lv) ∧
    (∀ j x, (Z.to_nat a ≤ j < Z.to_nat (n - 1))%nat → sX traj' !! j = Some x →
            sX traj' !! S j = Some (_dynamics_evolve self x lv)).
Proof.
  induction k as [|k IH]; intros a traj Ha Hk (LX & LU & LO).
  - rewrite xrange2_nil by lia. exists traj.
    split_and!; try done; intros; lia.
  - rewrite xrange2_cons by lia. cbn [act_loop]. unfold act_step.
    destruct (lookup_lt_is_Some_2 (sX traj) (Z.to_nat a)) as [x Hx]; [lia|].
    unfold get_X. rewrite LX, (py_index_in _ a) by lia. cbn [mbind option_bind].
    rewrite Hx. cbn [mbind option_bind].
    unfold set_X. rewrite LX, (py_index_in _ (a + 1)) by lia. cbn [mbind option_bind].
    unfold set_U. cbn [sX sU sO]. rewrite LU, (py_index_in _ a) by lia.
    cbn [mbind option_bind].
    match goal with |- context [act_loop _ _ _ ?t] => set (traj1 := t) end.
    destruct (IH (a + 1) traj1) as (traj' & E & Hh & HO & HX & HU1 & HU2 & HU3 & HR);
      [lia|lia| |].
    { unfold horizon, traj1. cbn [sX sU sO]. rewrite !length_insert. auto. }
    exists traj'. split_and!; [exact E|exact Hh|rewrite HO; reflexivity|..].
    + intros j Hj. rewrite HX by lia. unfold traj1. cbn [sX].
      apply list_lookup_insert_ne. lia.
    + intros j Hj. rewrite HU1 by lia. unfold traj1. cbn [sU].
      apply list_lookup_insert_ne. lia.
    + intros j Hj. rewrite HU2 by lia. unfold traj1. cbn [sU].
      apply list_lookup_insert_ne. lia.
    + intros j Hj. destruct (decide (j = Z.to_nat a)) as [->|Hne].
      * rewrite HU1 by lia. unfold traj1. cbn [sU].
        apply list_lookup_insert_eq. lia.
      * apply HU3. lia.
    + intros j x' Hj Hx'. destruct (decide (j = Z.to_nat a)) as [->|Hne].
      * rewrite HX in Hx' by lia. unfold traj1 in Hx'. cbn [sX] in Hx'.
        rewrite list_lookup_insert_ne in Hx' by lia.
        assert (x' = x) as -> by congruence.
        rewrite HX by lia. unfold traj1. cbn [sX].
        replace (S (Z.to_nat a)) with (Z.to_nat (a + 1)) by lia.
        apply list_lookup_insert_eq. lia.
      * apply HR; [lia|exact Hx'].
Qed.

(** X14. The trajectory [act] plans over a horizon of [T >= 1]
    timesteps starts at [x] with the observation [obs], moves by the
    dynamics under one and the same control at every timestep, the last
    one included (it is written through the index -1), and is kept in
    [_curr_traj]; the control returned is that control plus the noise
    sampled for it.  Over an empty horizon [act] fails with the
    [IndexError] of its first write, and without a 'dt' entry in
    [meta_data] it fails with [KeyError] before anything else. *)
Theorem X14_act_plans_constant_control
    (self : policyT) x obs t (noise : U → G → U * G) g :
  let lv := to_array [r_mul (speed self) (np_cos (theta self));
                      r_mul (speed self) (np_sin (theta self))] in
  (is_Some (md_dt (_meta_data self)) → 0 < _T self →
   ∃ traj self',
     act self x obs t noise g = inr (array_add lv (noise lv g).1, self', (noise lv g).2) ∧
     _curr_traj self' = Some traj ∧
     sU traj = replicate (Z.to_nat (_T self)) lv ∧
     sX traj !! 0%nat = Some x ∧
     (∀ j xj, (S j < Z.to_nat (_T self))%nat → sX traj !! j = Some xj →
              sX traj !! S j = Some (_dynamics_evolve self xj lv)) ∧
     sO traj = <[0%nat := obs]> (replicate (Z.to_nat (_T self)) blank_O))
  ∧ (is_Some (md_dt (_meta_data self)) → _T self = 0 →
     act self x obs t noise g = inl Sample_IndexError)
  ∧ (md_dt (_meta_data self) = None → act self x obs t noise g = inl (KeyError "dt")).
Proof.
  intros lv. split_and!.
  - intros [dt Hdt] HT. unfold act. rewrite Hdt. unfold act_body. cbv zeta. fold lv.
    unfold set_X at 1, set_O at 1, Sample_new. cbn [sX sU sO].
    rewrite length_replicate, (py_index_in _ 0) by lia. cbn [mbind option_bind sX sU sO].
    rewrite length_replicate, (py_index_in _ 0) by lia. cbn [mbind option_bind sX sU sO].
    match goal with |- context [act_loop _ _ _ ?s] => set (traj0 := s) end.
    assert (horizon traj0 (Z.to_nat (_T self))) as Hh0.
    { unfold horizon, traj0. cbn [sX sU sO]. rewrite !length_insert, !length_replicate. auto. }
    destruct (act_loop_spec self lv (_T self) (Z.to_nat (_T self - 1)) 0 traj0)
      as (traj1 & E & (LX & LU & LO) & HO & HX & _ & HU2 & HU3 & HR); [lia|lia|exact Hh0|].
    unfold xrange. rewrite E. cbn [mbind option_bind].
    unfold set_U. rewrite LU.
    assert (py_index (Z.to_nat (_T self)) (-1) = Some (Z.to_nat (_T self - 1))) as ->.
    { unfold py_index. change (0 <=? -1) with false. cbn [andb].
      destruct (- Z.of_nat (Z.to_nat (_T self)) <=? -1) eqn:E1;
        [|apply Z.leb_gt in E1; lia].
      change (-1 <? 0) with true. cbn [andb]. f_equal. lia. }
    cbn [mbind option_bind].
    unfold get_U. cbn [sX sU sO]. rewrite length_insert, LU, (py_index_in _ 0) by lia.
    cbn [mbind option_bind].
    assert (<[Z.to_nat (_T self - 1) := lv]> (sU traj1) = replicate (Z.to_nat (_T self)) lv)
      as HUall.
    { apply list_eq. intros j.
      destruct (decide (j < Z.to_nat (_T self))%nat) as [Hj|Hj].
      - rewrite lookup_replicate_2 by lia.
        destruct (decide (j = Z.to_nat (_T self - 1))) as [->|Hne].
        + apply list_lookup_insert_eq. lia.
        + rewrite list_lookup_insert_ne by lia. apply HU3. lia.
      - rewrite !lookup_ge_None_2; [reflexivity|rewrite length_replicate; lia|].
        rewrite length_insert. lia. }
    rewrite HUall, lookup_replicate_2 by lia. cbn [mbind option_bind].
    destruct (noise lv g) as [n g'] eqn:En. cbn [fst snd].
    eexists _, _. split; [reflexivity|]. cbn [_curr_traj sX sU sO].
    split_and!.
    + reflexivity.
    + reflexivity.
    + rewrite HX by lia. unfold traj0. cbn [sX].
      apply list_lookup_insert_eq. rewrite length_replicate. lia.
    + intros j xj Hj Hxj. apply HR; [lia|exact Hxj].
    + rewrite HO. reflexivity.
  - intros [dt Hdt] HT. unfold act. rewrite Hdt. unfold act_body. cbv zeta.
    rewrite HT. reflexivity.
  - intros Hdt. unfold act. rewrite Hdt. reflexivity.
Qed.
End ActProperties.

Section Primitives.
Context {X U Obs R Cost : Type}.
Context {V : Values X U Obs} {F : FloatOps R U}.
Import PrimitivesMPCPolicyBebop2d.
#[local] Abbreviation mpcT := (mpc_policy (X:=X) (U:=U) (R:=R)).
#[local] Abbreviation mkPol := (PrimitivePolicyBebop2dAngleSpeed.mkPolicy (Obs:=Obs)).

Lemma np_linspace_length (a b : R) n : length (np_linspace a b n) = n.
Proof.
  destruct n as [|[|n]]; [reflexivity..|].
  unfold np_linspace. rewrite length_app, length_fmap, length_seq. simpl. lia.
Qed.

(** The inner loop appends one entry per speed. *)
Lemma inner_loop (self : mpcT) θ (ss : list R) : ∀ acc,
  foldl (λ acc s, add_primitive (Obs:=Obs) self θ s acc) acc ss
  = (acc.1 ++ replicate (length ss) None,
     acc.2 ++ ((λ s, mkPol (_T self) (_meta_data self) θ s
                              (_trajopt_dynamics_evolve self) None) <$> ss)).
Proof.
  induction ss as [|s ss IH]; intros [ps ms]; cbn [foldl].
  - cbn. rewrite !app_nil_r. reflexivity.
  - rewrite IH. unfold add_primitive. cbn [fst snd length replicate fmap list_fmap].
    rewrite <- !app_assoc. reflexivity.
Qed.

(** The two loops append one entry per pair, angle by angle. *)
Lemma outer_loop (self : mpcT) (ss ts : list R) : ∀ acc,
  foldl (λ acc θ, foldl (λ acc s, add_primitive (Obs:=Obs) self θ s acc) acc ss) acc ts
  = (acc.1 ++ replicate (length ts * length ss) None,
     acc.2 ++ (θ ← ts; (λ s, mkPol (_T self) (_meta_data self) θ s
                                      (_trajopt_dynamics_evolve self) None) <$> ss)).
Proof.
  induction ts as [|θ ts IH]; intros [ps ms]; cbn [foldl].
  - cbn. rewrite !app_nil_r. reflexivity.
  - rewrite IH, inner_loop. cbn [fst snd length]. rewrite <- !app_assoc.
    f_equal. rewrite <- replicate_add. reflexivity.
Qed.

Lemma length_bind_grid {A B} (f : A → list B) (n : nat) (l : list A) :
  (∀ a, length (f a) = n) → length (l ≫= f) = (length l * n)%nat.
Proof.
  intros Hn. induction l as [|x l IH]; [reflexivity|].
  cbn [mbind list_bind length]. rewrite length_app, Hn, IH. lia.
Qed.

Lemma lookup_bind_grid {A B} (f : A → list B) (n : nat) (l : list A) :
  (∀ a, length (f a) = n) →
  ∀ i j a, l !! i = Some a → (j < n)%nat → (l ≫= f) !! (i * n + j)%nat = f a !! j.
Proof.
  intros Hn. induction l as [|x l IH]; intros i j a Hi Hj; [discriminate|].
  cbn [mbind list_bind]. destruct i as [|i].
  - injection Hi as ->. rewrite lookup_app_l by (rewrite Hn; lia). reflexivity.
  - rewrite lookup_app_r by (rewrite Hn; lia). rewrite Hn.
    replace (S i * n + j - n)%nat with (i * n + j)%nat by lia.
    apply IH; assumption.
Qed.

(** X15. Without a 'cost_velocity' entry in the configuration
    [_create_primitives_and_policies] returns two empty lists and raises
    nothing, where [_create_additional_cost] raises [Exception].  With
    the entry, the assertion wants [weights[0]] strictly above
    [weights[1]]; when it holds the method makes one policy for each of
    the 19 angles and each of the 8 speeds, 152 in all, angle by angle
    (the policy of the i-th angle and the j-th speed is at index
    8 i + j), each with the horizon, the configuration and the dynamics
    of the caller and no trajectory yet, and as many primitives, all
    [None]. *)
Theorem X15_primitives_and_policies
    (cost_velocity_bebop2d : Z → list R → list R → R → Cost) (self : mpcT) t :
  md_trajopt (_meta_data self) = Some t →
  (t !! "cost_velocity" = None →
   _create_primitives_and_policies (Obs:=Obs) self = (inr ([], []), self) ∧
   _create_additional_cost cost_velocity_bebop2d self = inl Exception_no_cost)
  ∧ (∀ cv v0 vs w0 w1 ws,
       t !! "cost_velocity" = Some cv →
       cv !! "velocity" = Some (v0 :: vs) →
       cv !! "weights" = Some (w0 :: w1 :: ws) →
       (r_gt w0 w1 = false →
        (_create_primitives_and_policies (Obs:=Obs) self).1 = inl Assertion_Error)
       ∧ (r_gt w0 w1 = true →
          ∃ prims pols self' ths sps,
            _create_primitives_and_policies (Obs:=Obs) self = (inr (prims, pols), self') ∧
            thetas self' = Some ths ∧ speeds self' = Some sps ∧
            length ths = 19%nat ∧ length sps = 8%nat ∧
            length prims = 152%nat ∧ length pols = 152%nat ∧
            (∀ p, p ∈ prims → p = None) ∧
            (∀ i j θ s, ths !! i = Some θ → sps !! j = Some s →
               pols !! (i * 8 + j)%nat
               = Some (mkPol (_T self) (_meta_data self) θ s
                                (_trajopt_dynamics_evolve self) None)))).
Proof.
  intros Ht. split.
  - intros Hno. unfold _create_primitives_and_policies, _create_additional_cost,
      read_cost_velocity, trajopt. rewrite Ht. cbn [mbind error_bind].
    rewrite Hno. rewrite bool_decide_eq_false_2 by (intros [? ?]; discriminate).
    split; reflexivity.
  - intros cv v0 vs w0 w1 ws Hcv Hv Hw.
    assert (read_cost_velocity self = inr (Some (v0 :: vs, w0, w1))) as Hread.
    { unfold read_cost_velocity, trajopt, getitem, index. rewrite Ht.
      cbn [mbind error_bind]. rewrite bool_decide_eq_true_2 by (rewrite Hcv; eauto).
      rewrite Hcv. cbn [mbind error_bind]. rewrite Hv. cbn [mbind error_bind].
      rewrite Hw. reflexivity. }
    unfold _create_primitives_and_policies. rewrite Hread. split.
    + intros Hgt. rewrite Hgt. reflexivity.
    + intros Hgt. rewrite Hgt. cbn [negb index lookup list_lookup].
      cbv zeta. rewrite outer_loop. cbn [fst snd app].
      eexists _, _, _, _, _. split; [reflexivity|]. cbn [thetas speeds].
      split; [reflexivity|]. split; [reflexivity|].
      assert (length (np_linspace (r_div (r_neg np_pi) (r_lit 2 1))
                                  (r_div np_pi (r_lit 2 1)) 19) = 19%nat) as L19
        by apply np_linspace_length.
      assert (length ((λ s : R, r_mul s v0) <$> np_linspace (r_lit 1 10) (r_lit 1 1) 8)
              = 8%nat) as L8 by (rewrite length_fmap; apply np_linspace_length).
      split_and!.
      * exact L19.
      * exact L8.
      * rewrite length_replicate, L19, L8. reflexivity.
      * rewrite (length_bind_grid _ 8), L19; [reflexivity|].
        intros a. rewrite length_fmap. exact L8.
      * intros p Hp. apply elem_of_replicate in Hp as [-> _]. reflexivity.
      * intros i j θ s Hi Hj.
        rewrite (lookup_bind_grid _ 8 _ (λ a, eq_trans (length_fmap _ _) L8) i j θ Hi).
        -- rewrite list_lookup_fmap, Hj. reflexivity.
        -- apply lookup_lt_Some in Hj. rewrite L8 in Hj. exact Hj.
Qed.
End Primitives.

Section ModelAhead.
Context {X U Obs WInfo MInfo Policy Env : Type}.
Context {V : Values X U Obs} {P : Params}.
Context {C : Collab X U Obs WInfo MInfo Policy Env}.
#[local] Abbreviation Mon := (M X U Obs WInfo MInfo Policy Env).
#[local] Abbreviation StateT := (State X U Obs WInfo MInfo Policy Env).
#[local] Abbreviation eventT := (event X U Obs WInfo MInfo Policy).
Import DaggerPrediction.

(** X16. The resume state (1, 0), a checkpoint of iteration 0 and no
    samples, passes the assertion.  [run] then loads that checkpoint,
    trains nothing before the loop, and starts the loop at iteration 0:
    when the pass of iteration 0 returns (under a planner that trains),
    it has produced the checkpoint of iteration 0 again, seeded from the
    checkpoint of iteration -1 and not from the one loaded, with the init
    epochs. *)
Theorem X16_model_ahead_retrains_iteration_0 fuel (st : StateT) r :
  resolve st = Ok r st →
  model_start_itr r = 1 → samples_start_itr r = 0 →
  planner_type ≠ randomwalk →
  ∃ st0,
    resume st = Ok 0 st0 ∧
    run fuel st = training_loop fuel (xrange2 0 max_iter) st0 ∧
    bootstrap_calls (trace st0) =
      bootstrap_calls (trace st) ++ [Load (model_file 0)]
      ++ match init_data with
         | Some d => [AddData (init_file d <$> filter (λ f, str_in ".npz" f = true)
                                                      (os_listdir d))]
         | None => []
         end ∧
    ∀ st1, train_itr fuel 0 st0 = Ok tt st1 →
           bootstrap_calls (trace st1)
           = bootstrap_calls (trace st0)
             ++ [AddData [samples_file 0];
                 Train (Some (model_file (-1))) (model_file 0) init_epochs].
Proof.
  intros Hres Hm Hs Hpl.
  assert (0 < max_iter) as Hmax.
  { destruct (decide (0 < max_iter)) as [H|H]; [exact H|]. exfalso.
    unfold resolve in Hres. rewrite xrange_down_nil in Hres by lia. discriminate. }
  assert (resume_model_file r = Some (model_file 0)) as Hf.
  { destruct (resolve_spec (P:=P) st Hmax) as (m' & s' & _ & _ & Heq).
    rewrite Hres in Heq. destruct (within_one m' s'); [|discriminate].
    injection Heq as ->. cbn [model_start_itr resume_model_file] in *. subst m'.
    reflexivity. }
  destruct (resume_calls st r Hres) as (st0 & Hr & Hb).
  rewrite Hm, Hs, Hf in *.
  assert (catch_up 1 0 = false) as Hcu.
  { destruct (catch_up 1 0) eqn:E; [|reflexivity]. apply catch_up_spec in E. lia. }
  rewrite Hcu in Hb. change (0 >? 0) with false in Hb.
  exists st0. split_and!.
  - exact Hr.
  - unfold run. rewrite (bind_Ok _ _ _ _ _ Hr). reflexivity.
  - rewrite Hb. cbn [app]. rewrite app_nil_r. reflexivity.
  - intros st1 H1.
    destruct (train_itr_calls fuel 0 st0) as [(st' & E & Hc)|[Hno _]].
    + rewrite H1 in E. injection E as <-. rewrite Hc. unfold iteration_calls.
      destruct (decide (planner_type ≠ randomwalk)); [reflexivity|contradiction].
    + exfalso. exact (Hno st1 H1).
Qed.
End ModelAhead.

Section Splitext.

Lemma rfind_from_without c s : ∀ i best, without c s → rfind_from c s i best = best.
Proof.
  induction s as [|x s IH]; intros i best H; [reflexivity|]. destruct H as [Hx Hs].
  cbn [rfind_from]. destruct (decide (x = c)); [contradiction|]. apply IH. exact Hs.
Qed.

Lemma rfind_from_app c a s : ∀ i best,
  rfind_from c (a +:+ s) i best
  = rfind_from c s (i + Z.of_nat (String.length a)) (rfind_from c a i best).
Proof.
  induction a as [|x a IH]; intros i best.
  - rewrite string_app_nil. cbn [String.length rfind_from]. f_equal. lia.
  - rewrite string_app_cons. cbn [rfind_from String.length]. rewrite IH. f_equal. lia.
Qed.

(** The last occurrence of [c] in [a ++ c :: s] when [s] has none. *)
Lemma rfind_last c a s :
  without c s → rfind c (a +:+ String c s) = Z.of_nat (String.length a).
Proof.
  intros H. unfold rfind. rewrite rfind_from_app. cbn [rfind_from].
  destruct (decide (c = c)); [|contradiction]. rewrite rfind_from_without by exact H.
  lia.
Qed.

Lemma string_drop_app a s : string_drop (String.length a) (a +:+ s) = s.
Proof. induction a as [|x a IH]; [destruct s; reflexivity|exact IH]. Qed.

Lemma string_get_app a x s : String.get (String.length a) (a +:+ String x s) = Some x.
Proof. induction a as [|y a IH]; [reflexivity|exact IH]. Qed.

Lemma string_length_app a s :
  String.length (a +:+ s) = (String.length a + String.length s)%nat.
Proof.
  induction a as [|x a IH]; [reflexivity|].
  rewrite string_app_cons. cbn [String.length]. rewrite IH. reflexivity.
Qed.

Lemma without_app c a s : without c a → without c s → without c (a +:+ s).
Proof. induction a as [|x a IH]; [done|]. intros [??] ?. split; auto. Qed.

Lemma numeric_without c s : is_numeric c = false → numeric s → without c s.
Proof.
  intros Hc. induction s as [|x s IH]; [done|]. intros [Hx Hs].
  split; [congruence|auto].
Qed.

(** The extension of [a/b.ext] when the name [b] starts with a
    character that is not a dot, and neither [b] nor [ext] has a dot or a
    separator. *)
Lemma splitext_name a x b ext :
  x ≠ "."%char → x ≠ "/"%char →
  without "." b → without "/" b → without "." ext → without "/" ext →
  (os_path_splitext (a +:+ "/" +:+ String x b +:+ "." +:+ ext)).2 = "." +:+ ext.
Proof.
  intros Hx1 Hx2 Hb1 Hb2 He1 He2. unfold os_path_splitext.
  set (p := a +:+ "/" +:+ String x b +:+ "." +:+ ext).
  assert (rfind "/" p = Z.of_nat (String.length a)) as Hsep.
  { unfold p. rewrite ?string_app_cons, ?string_app_nil. apply rfind_last.
    split; [exact Hx2|]. apply without_app; [exact Hb2|].
    rewrite ?string_app_cons, ?string_app_nil. split; [discriminate|exact He2]. }
  assert (p = (a +:+ "/" +:+ String x b) +:+ String "." ext) as Hp.
  { unfold p. rewrite !string_app_assoc. reflexivity. }
  assert (rfind "." p = Z.of_nat (String.length (a +:+ "/" +:+ String x b))) as Hdot.
  { rewrite Hp. apply rfind_last. exact He1. }
  rewrite Hsep, Hdot.
  assert (String.length (a +:+ "/") = S (String.length a)) as L1.
  { rewrite string_length_app. cbn [String.length]. lia. }
  assert (String.length (a +:+ "/" +:+ String x b)
          = (String.length a + 2 + String.length b)%nat) as L2.
  { rewrite !string_length_app. cbn [String.length]. lia. }
  destruct (_ >? _) eqn:E; [|rewrite Z.gtb_ltb in E; apply Z.ltb_ge in E; lia].
  assert (Z.to_nat (Z.of_nat (String.length (a +:+ "/" +:+ String x b))
                    - (Z.of_nat (String.length a) + 1))
          = S (String.length b)) as -> by lia.
  assert (Z.to_nat (Z.of_nat (String.length a) + 1) = String.length (a +:+ "/")) as ->
    by lia.
  cbn [skip_dots].
  assert (String.get (String.length (a +:+ "/")) p = Some x) as ->.
  { unfold p. rewrite <- string_app_assoc. apply string_get_app. }
  destruct (decide (Some x ≠ Some "."%char)) as [_|Hn];
    [|exfalso; apply Hn; congruence].
  cbn [snd]. rewrite Nat2Z.id. rewrite Hp. apply string_drop_app.
Qed.

(** X17. The extension [run] takes from the name of the samples file
    of iteration 0 to pick the init data, [os.path.splitext(...)[-1]], is
    '.npz' whatever the save directory is called (dots in directory
    names do not matter), and it is the same for every iteration. *)
Theorem X17_samples_extension (save : string) (itr : Z) :
  (os_path_splitext (Names._itr_samples_file save itr)).2 = ".npz".
Proof.
  unfold Names._itr_samples_file. rewrite itr_dir_join by reflexivity.
  assert ("samples_itr_" +:+ format_d itr +:+ ".npz"
          = String "s" ("amples_itr_" +:+ format_d itr) +:+ "." +:+ "npz") as ->.
  { repeat (rewrite string_app_cons || rewrite string_app_nil). reflexivity. }
  apply splitext_name; try discriminate.
  - apply (without_app _ "amples_itr_"); [repeat split; discriminate|].
    apply numeric_without; [reflexivity|apply format_d_numeric].
  - apply (without_app _ "amples_itr_"); [repeat split; discriminate|].
    apply numeric_without; [reflexivity|apply format_d_numeric].
  - repeat split; discriminate.
  - repeat split; discriminate.
Qed.
End Splitext.

(** X1 at [max_iter = 0], on a run directory that holds an iteration. *)
Lemma X1_run_without_iterations_witness :
  let P := Scenario.params 0 3 false None in
  let C := Scenario.collab (Scenario.mkSetup 1 1 0 None (Scenario.RejectFirst 0) false) in
  DaggerPrediction.run 5 (Scenario.start (Scenario.store_with [0] [0]))
  = Raise NameError (Scenario.start (Scenario.store_with [0] [0])).
Proof.
  intros P C. apply (X1_run_without_iterations (P:=P) (C:=C)). simpl. lia.
Defined.



(** X4 on iteration 0 of a fresh run: the directory of index -1 is
    made. *)
Lemma X4_train_itr_directories_witness :
  let P := Scenario.params 2 3 false None in
  let C := Scenario.collab (Scenario.mkSetup 1 1 0 None (Scenario.RejectFirst 0) false) in
  let st := Scenario.start (Scenario.store_with [] []) in
  ∃ st', DaggerPrediction.train_itr 3 0 st = Ok tt st' ∧ -1 ∈ dirs (store st').
Proof.
  intros P C st.
  assert (∃ st', DaggerPrediction.train_itr 3 0 st = Ok tt st') as [st' E]
    by (eexists; vm_compute; reflexivity).
  exists st'. split; [exact E|].
  apply (X4_train_itr_directories (P:=P) (C:=C) 3 0 st st' E).
  right. right. split; [reflexivity|discriminate].
Defined.

(** X5 on a folder that lists 'a.npz', 'notes.txt' and 'b.npz.bak'. *)
Lemma X5_init_data_by_containment_witness :
  let P := {| max_iter := 2; planner_type := primitives; T := 3;
              label_with_noise := false; init_epochs := 50; init_data := Some "init";
              cn_type := "zero"; bootstrap_epochs := 10;
              os_listdir := λ _, ["a.npz"; "notes.txt"; "b.npz.bak"] |} in
  let st : Scenario.StateT := Scenario.start (Scenario.store_with [] []) in
  ∃ st' fnames,
    DaggerPrediction.resume st = Ok 0 st' ∧
    AddData (init_file "init" <$> fnames) ∈ trace st' ∧
    fnames `sublist_of` ["a.npz"; "notes.txt"; "b.npz.bak"] ∧
    ∀ f, f ∈ fnames ↔ f ∈ ["a.npz"; "notes.txt"; "b.npz.bak"] ∧ occurs_in ".npz" f.
Proof.
  intros P st.
  apply (X5_init_data_by_containment (P:=P) st (DaggerPrediction.mkResume 0 0 None) "init").
  - vm_compute. reflexivity.
  - reflexivity.
Defined.

(** X6 with one condition and no repetition. *)
Lemma X6_no_slots_saves_empty_witness :
  let P := Scenario.params 2 3 false None in
  let C := Scenario.collab (Scenario.mkSetup 1 0 0 None (Scenario.RejectFirst 0) false) in
  let st := Scenario.start (Scenario.store_with [] []) in
  ∃ st' ws,
    DaggerPrediction._run_itr 1 0 st = Ok tt st' ∧
    trace st' = trace st ++ [ConditionsReset] ++ ws ++ [ResetWorld 0 0 0] ∧
    Forall (λ e, is_store_event e = true) ws ∧
    files (store st') !! samples_file 0 = Some (Samples []) ∧
    files (store st') !! mpcs_file 0 = Some (Mpcs []) ∧
    0 ∈ dirs (store st').
Proof.
  intros P C st. apply (X6_no_slots_saves_empty (P:=P) (C:=C) 0 0 st).
  right. simpl. lia.
Defined.


(** X8 with the noise type 'Gaussian'. *)
Lemma X8_control_noise_exact_names_witness :
  let P := {| max_iter := 2; planner_type := primitives; T := 3;
              label_with_noise := false; init_epochs := 50; init_data := None;
              cn_type := "Gaussian"; bootstrap_epochs := 10;
              os_listdir := λ _, [] |} in
  DaggerPrediction._create_control_noise (Scenario.start (Scenario.store_with [] []))
  = Raise (Exception_ "Control noise type not valid")
          (Scenario.start (Scenario.store_with [] [])).
Proof.
  intros P. apply (X8_control_noise_exact_names (P:=P)).
  - right; left. reflexivity.
  - discriminate.
  - discriminate.
  - discriminate.
Defined.


(** X10 on the car, at (cond 0, rep 0), with ROS shut down. *)
Lemma X10_reset_world_ignores_answer_witness :
  let R := Scenario.ros (Scenario.mkSignals 0 [] []) in
  let st : Scenario.StateT := Scenario.start (Scenario.store_with [] []) in
  ProbcollRCcar._reset_world 1 0 0 0 st
  = Ok tt (mkState 0%nat (store st)
             [Info MsgPressAorB; GoodRolloutGet None; BadRolloutGet None;
              IsShutdown true; WorldReset false 0 0 0]).
Proof.
  intros R st.
  refine (proj2 (X10_reset_world_ignores_answer (R:=R) 1 0 0 0 st) _ _ _ None
            (mkState 0%nat (store st)
               [Info MsgPressAorB; GoodRolloutGet None; BadRolloutGet None;
                IsShutdown true]) _);
    reflexivity.
Defined.

(** X11 for the checkpoint and the samples of iteration 3. *)
Lemma X11_run_directory_names_distinct_witness :
  Names.path_name "/data/run" (model_file 3) ≠ Names.path_name "/data/run" (samples_file 3).
Proof.
  apply (X11_run_directory_names_distinct "/data/run"); [exact I|exact I|discriminate].
Defined.

(** X12 for two triples whose digits run together the same way. *)
Lemma X12_bag_file_names_distinct_witness :
  Names._bag_file "/data/run" 1 23 4 ≠ Names._bag_file "/data/run" 1 2 34.
Proof.
  apply (proj1 (X12_bag_file_names_distinct "/data/run" 1 23 4) 1 2 34). discriminate.
Defined.

(** X13 for an iteration of one digit and one of four. *)
Lemma X13_img_file_names_distinct_witness :
  (Names._img_file "/data/run" 1 2 3 false).1
  ≠ (Names._img_file "/data/run" 1000 2 3 true).1.
Proof.
  apply (proj2 (X13_img_file_names_distinct "/data/run" 1 2 3 false) 1000 2 3 true).
  discriminate.
Defined.

(** X14 with integers standing for the floats (the cosine of the angle
    is 1 and its sine 0), a horizon of three timesteps, the speed 2 and
    the RC car's dynamics. *)
Lemma X14_act_plans_constant_control_witness :
  let F : FloatOps Z Z :=
    {| r_add := Z.add; r_sub := Z.sub; r_mul := Z.mul; r_div := Z.div; r_neg := Z.opp;
       r_gt := Z.gtb; r_lit := λ n d, n / d; np_pi := 3;
       np_cos := λ _, 1; np_sin := λ _, 0;
       to_array := λ l, default 0 (head l); array_add := Z.add |} in
  let self := PrimitivePolicyBebop2dAngleSpeed.mkPolicy (Obs:=Z)
                3 (mkMetaData Z (Some 1) None) 0 2
                (λ x u, DynamicsRCcar.evolve x u (@None unit) (@None unit) (@None unit))
                None in
  let noise : Z → nat → Z * nat := λ u g, (7, S g) in
  ∃ traj self',
    PrimitivePolicyBebop2dAngleSpeed.act self 10 20 0 noise 0%nat = inr (2 + 7, self', 1%nat) ∧
    PrimitivePolicyBebop2dAngleSpeed._curr_traj self' = Some traj ∧
    sU traj = [2; 2; 2] ∧
    sX traj !! 0%nat = Some 10 ∧
    (∀ j xj, (S j < 3)%nat → sX traj !! j = Some xj → sX traj !! S j = Some xj) ∧
    sO traj = [20; -1; -1].
Proof.
  intros F self noise.
  refine (proj1 (X14_act_plans_constant_control self 10 20 0 noise 0%nat) _ _).
  - eexists. reflexivity.
  - reflexivity.
Defined.

(** X15 with integers standing for the floats, the desired velocity
    [2] and the weights [1; 0]. *)
Lemma X15_primitives_and_policies_witness :
  let F : FloatOps Z Z :=
    {| r_add := Z.add; r_sub := Z.sub; r_mul := Z.mul; r_div := Z.div; r_neg := Z.opp;
       r_gt := Z.gtb; r_lit := λ n d, n / d; np_pi := 3;
       np_cos := λ _, 1; np_sin := λ _, 0;
       to_array := λ l, default 0 (head l); array_add := Z.add |} in
  let cv : gmap string (list Z) := {["velocity" := [2]; "weights" := [1; 0]]} in
  let md := mkMetaData Z None (Some {["cost_velocity" := cv]}) in
  let self := PrimitivesMPCPolicyBebop2d.mkMpc (X:=Z) (U:=Z) 5 md (λ x u, x) None None in
  ∃ prims pols self' ths sps,
    PrimitivesMPCPolicyBebop2d._create_primitives_and_policies (Obs:=Z) self
    = (inr (prims, pols), self') ∧
    PrimitivesMPCPolicyBebop2d.thetas self' = Some ths ∧
    PrimitivesMPCPolicyBebop2d.speeds self' = Some sps ∧
    length ths = 19%nat ∧ length sps = 8%nat ∧
    length prims = 152%nat ∧ length pols = 152%nat ∧
    (∀ p, p ∈ prims → p = None) ∧
    (∀ i j θ s, ths !! i = Some θ → sps !! j = Some s →
       pols !! (i * 8 + j)%nat
       = Some (PrimitivePolicyBebop2dAngleSpeed.mkPolicy 5 md θ s (λ x u, x) None)).
Proof.
  intros F cv md self.
  refine (proj2 (proj2 (X15_primitives_and_policies (Cost:=unit) (Obs:=Z) (λ _ _ _ _, tt)
                          self {["cost_velocity" := cv]} eq_refl)
                   cv 2 [] 1 0 [] _ _ _) _).
  - vm_compute. reflexivity.
  - vm_compute. reflexivity.
  - vm_compute. reflexivity.
  - reflexivity.
Defined.

(** X16 on a run directory that holds the checkpoint of iteration 0
    only. *)
Lemma X16_model_ahead_retrains_iteration_0_witness :
  let P := Scenario.params 2 3 false None in
  let C := Scenario.collab (Scenario.mkSetup 1 1 0 None (Scenario.RejectFirst 0) false) in
  let st := Scenario.start (Scenario.store_with [0] []) in
  ∃ st0,
    DaggerPrediction.resume st = Ok 0 st0 ∧
    DaggerPrediction.run 3 st
    = DaggerPrediction.training_loop 3 (xrange2 0 2) st0 ∧
    bootstrap_calls (trace st0) = bootstrap_calls (trace st) ++ [Load (model_file 0)] ++ [] ∧
    ∀ st1, DaggerPrediction.train_itr 3 0 st0 = Ok tt st1 →
           bootstrap_calls (trace st1)
           = bootstrap_calls (trace st0)
             ++ [AddData [samples_file 0];
                 Train (Some (model_file (-1))) (model_file 0) 50].
Proof.
  intros P C st.
  apply (X16_model_ahead_retrains_iteration_0 (P:=P) (C:=C) 3 st
           (DaggerPrediction.mkResume 1 0 (Some (model_file 0)))).
  - vm_compute. reflexivity.
  - reflexivity.
  - reflexivity.
  - discriminate.
Defined.
